(** * Anti-drone C2 analysis harness: evaluator, objective, sampler, tuner

    A shallow embedding of the search-and-evaluate core of the
    repository:

    - [analysis/scripts/eval_classification_report.py]
      ([compute_pred_label], [extract_drone_labels],
      [extract_predictions_from_log], [compute_metrics],
      [compute_confusion_matrix], [compute_roc_pr_data], the rows of
      [generate_report], [save_roc_pr_data], [main]);
    - [analysis/auto_tuning_config.py] ([ParamSpace], [sample_params]);
    - [analysis/auto_tune.py] ([compute_objective_score],
      [save_runtime_params], [clear_runtime_params],
      [parse_metrics_from_report], [save_history], [run_auto_tune]).

    Numbers.  Python [int] and [float] values are embedded as exact
    rationals ([Q]): comparisons and integer counts are then exactly those
    of the program on finite values, while sums, products and quotients of
    floats are the exact ones (binary64 rounding, [nan] and [inf] are not
    part of the model).  Where a statement turns on the rounding itself,
    the function is embedded a second time on binary64 floats
    ([compute_objective_score_binary64]).

    Dictionaries.  String-keyed result dictionaries are [gmap]s; the
    dictionaries keyed by decoded JSON values ([drone_labels],
    [class_stats]) are insertion-ordered association lists over the
    hashable values.  Decoded JSON objects are association lists too.

    Exceptions.  Code that can raise returns a [result]. *)

From Stdlib Require Import PrimFloat.
From Stdlib Require Import Ascii String QArith Qround Qabs Lqa.
From Stdlib Require OrderedTypeEx.
From stdpp Require Import gmap strings list fin_maps sorting.

Local Open Scope Q_scope.
Local Open Scope string_scope.
Local Open Scope list_scope.
Local Open Scope stdpp_scope.

(** ** Python values and exceptions *)

Inductive exn : Type :=
| TypeError
| AttributeError
| OSError.

Inductive result (A : Type) : Type :=
| Ok (a : A)
| Raise (e : exn).
Arguments Ok {A} a.
Arguments Raise {A} e.

#[global] Instance result_ret : MRet result := fun _ a => Ok a.
#[global] Instance result_bind : MBind result := fun _ _ f m =>
  match m with
  | Ok a => f a
  | Raise e => Raise e
  end.

(** A value as [json.loads] produces it. *)
#[warnings="-register-all"] Inductive pyval : Type :=
| PNone
| PBool (b : bool)
| PNum (q : Q)
| PStr (s : string)
| PList (l : list pyval)
| PDict (d : list (string * pyval)).

(** A decoded JSON object, each key bound once; [dict_find] is the
    binding of a key. *)
Definition pydict : Type := list (string * pyval).

Fixpoint dict_find (d : pydict) (k : string) : option pyval :=
  match d with
  | [] => None
  | (k', v) :: d' => if String.eqb k' k then Some v else dict_find d' k
  end.

(** [d.get(k)]: [None] when the key is absent. *)
Definition dict_get (d : pydict) (k : string) : pyval :=
  default PNone (dict_find d k).

(** [d.get(k, dflt)]. *)
Definition dict_get_default (d : pydict) (k : string) (dflt : pyval) : pyval :=
  default dflt (dict_find d k).

(** [v.get(k, dflt)] on an arbitrary value: only dictionaries have [get]. *)
Definition py_get_default (v : pyval) (k : string) (dflt : pyval) : result pyval :=
  match v with
  | PDict d => Ok (dict_get_default d k dflt)
  | _ => Raise AttributeError
  end.

(** Truth value of a Python object. *)
Definition truthy (v : pyval) : bool :=
  match v with
  | PNone => false
  | PBool b => b
  | PNum q => negb (Qeq_bool q 0)
  | PStr s => negb (String.eqb s "")
  | PList l => match l with [] => false | _ => true end
  | PDict d => match d with [] => false | _ => true end
  end.

(** [a or b]. *)
Definition py_or (a b : pyval) : pyval := if truthy a then a else b.

Definition is_None (v : pyval) : bool :=
  match v with PNone => true | _ => false end.

(** [v >= x] for a float [x]: numbers compare ([bool] is an [int]), every
    other operand raises [TypeError]. *)
Definition py_ge (v : pyval) (x : Q) : result bool :=
  match v with
  | PNum q => Ok (Qle_bool x q)
  | PBool b => Ok (Qle_bool x (if b then 1 else 0))
  | _ => Raise TypeError
  end.

(** [v == s] for a string [s]. *)
Definition py_eq_str (v : pyval) (s : string) : bool :=
  match v with
  | PStr s' => String.eqb s' s
  | _ => false
  end.

(** ** Strings: [str.upper] and [str.strip] on ASCII text *)

Definition upper_ascii (c : ascii) : ascii :=
  let n := nat_of_ascii c in
  if ((97 <=? n) && (n <=? 122))%nat then ascii_of_nat (n - 32) else c.

Fixpoint upper (s : string) : string :=
  match s with
  | EmptyString => EmptyString
  | String c s' => String (upper_ascii c) (upper s')
  end.

(** The ASCII characters [str.isspace] accepts: TAB..CR, FS..US, space. *)
Definition py_isspace (c : ascii) : bool :=
  let n := nat_of_ascii c in
  (((9 <=? n) && (n <=? 13)) || ((28 <=? n) && (n <=? 32)))%nat.

Fixpoint lstrip (s : string) : string :=
  match s with
  | EmptyString => EmptyString
  | String c s' => if py_isspace c then lstrip s' else s
  end.

Definition rstrip (s : string) : string := String.rev (lstrip (String.rev s)).

Definition strip (s : string) : string := rstrip (lstrip s).

(** [str(v).upper().strip() == lit] for a label literal [lit].  The text of
    a decoded value that is not a string is a numeral, [True], [False],
    [None] or bracketed text, which no label literal matches. *)
Definition normalized_is (v : pyval) (lit : string) : bool :=
  match v with
  | PStr s => String.eqb (strip (upper s)) lit
  | _ => false
  end.

(** ** eval_classification_report.py: the decision rule *)

Definition THREAT_ENGAGE_THRESHOLD : Q := 70.
Definition CLASS_CONFIDENCE_THRESHOLD : Q := 7 # 10.

Definition compute_pred_label
  (threat_score classification class_confidence : pyval)
  (threat_threshold class_confidence_threshold : Q) : result string :=
  hostile ← (if is_None threat_score then Ok false
             else py_ge threat_score threat_threshold);
  if (hostile : bool) then Ok "HOSTILE"
  else if truthy classification then
    if normalized_is classification "CIVIL" then
      civil ← (if is_None class_confidence then Ok false
               else py_ge class_confidence class_confidence_threshold);
      if (civil : bool) then Ok "CIVIL" else Ok "UNKNOWN"
    else Ok "UNKNOWN"
  else Ok "UNKNOWN".

(** ** Dictionaries keyed by decoded values

    The hashable decoded values; [True], [1] and [1.0] are one key.  Lists
    and dictionaries are unhashable: using one as a key raises
    [TypeError]. *)

Inductive pykey : Type :=
| KNone
| KNum (q : Q)
| KStr (s : string).

Definition as_key (v : pyval) : result pykey :=
  match v with
  | PNone => Ok KNone
  | PBool b => Ok (KNum (if b then 1 else 0))
  | PNum q => Ok (KNum q)
  | PStr s => Ok (KStr s)
  | PList _ | PDict _ => Raise TypeError
  end.

Definition key_eqb (a b : pykey) : bool :=
  match a, b with
  | KNone, KNone => true
  | KNum p, KNum q => Qeq_bool p q
  | KStr s, KStr t => String.eqb s t
  | _, _ => false
  end.

(** An insertion-ordered dictionary. *)
Definition kdict (V : Type) : Type := list (pykey * V).

Fixpoint kdict_find {V} (d : kdict V) (k : pykey) : option V :=
  match d with
  | [] => None
  | (k', v) :: d' => if key_eqb k' k then Some v else kdict_find d' k
  end.

(** [d[k] = v]: an existing key keeps its place. *)
Fixpoint kdict_set {V} (d : kdict V) (k : pykey) (v : V) : kdict V :=
  match d with
  | [] => [(k, v)]
  | (k', v') :: d' =>
      if key_eqb k' k then (k', v) :: d' else (k', v') :: kdict_set d' k v
  end.

(** A loop whose body can raise. *)
Fixpoint foldM {S A} (f : S → A → result S) (s : S) (l : list A) : result S :=
  match l with
  | [] => Ok s
  | a :: l' => s' ← f s a; foldM f s' l'
  end.

(** ** eval_classification_report.py: label and prediction extraction

    A log is the list of the objects [load_log_events] decoded from its
    lines, in file order. *)

Definition LABELS : list string := ["HOSTILE"; "CIVIL"; "UNKNOWN"].

(** [str(true_label).upper().strip()] when it is one of [LABELS]. *)
Definition recognized_label (true_label : pyval) : option string :=
  List.find (normalized_is true_label) LABELS.

Definition extract_drone_labels_step
  (drone_labels : kdict string) (event : pydict) : result (kdict string) :=
  if py_eq_str (dict_get event "event") "drone_spawned" then
    let drone_id := dict_get event "drone_id" in
    let true_label := dict_get event "true_label" in
    if truthy drone_id && truthy true_label then
      match recognized_label true_label with
      | Some true_label_normalized =>
          k ← as_key drone_id;
          Ok (kdict_set drone_labels k true_label_normalized)
      | None => Ok drone_labels
      end
    else Ok drone_labels
  else Ok drone_labels.

Definition extract_drone_labels (events : list pydict) : result (kdict string) :=
  foldM extract_drone_labels_step [] events.

(** One entry of the list [extract_predictions_from_log] returns. *)
Record prediction : Type := Prediction {
  drone_id : pyval;
  true_label : pyval;
  pred_label : string;
  threat_score : pyval;
  classification : pyval;
  class_confidence : pyval;
  timestamp : pyval
}.

(** The three fields of a [fused_track_update] event, each with its
    [or] fallback; the right operand is evaluated only when the left one
    is falsy. *)
Definition fused_threat_score_field (event : pydict) : pyval :=
  py_or (dict_get event "threat_score") (dict_get event "fused_threat_score").

Definition fused_classification_field (event : pydict) : pyval :=
  py_or (dict_get event "classification") (dict_get event "fused_classification").

Definition fused_class_confidence_field (event : pydict) : result pyval :=
  let v := dict_get event "class_confidence" in
  if truthy v then Ok v
  else py_get_default (dict_get_default event "class_info" (PDict []))
         "confidence" (PNum 0).

Definition extract_predictions_step
  (drone_labels : kdict string) (predictions : list prediction)
  (event : pydict) : result (list prediction) :=
  let event_type := dict_get event "event" in
  let drone_id := dict_get event "drone_id" in
  if negb (truthy drone_id) then Ok predictions
  else
    k ← as_key drone_id;
    match kdict_find drone_labels k with
    | None => Ok predictions
    | Some spawn_label =>
        if py_eq_str event_type "fused_track_update" then
          let threat_score := fused_threat_score_field event in
          let classification := fused_classification_field event in
          class_confidence ← fused_class_confidence_field event;
          let event_true_label := dict_get event "true_label" in
          let true_label :=
            if truthy event_true_label then event_true_label
            else PStr spawn_label in
          pred_label ← compute_pred_label threat_score classification
                         class_confidence THREAT_ENGAGE_THRESHOLD
                         CLASS_CONFIDENCE_THRESHOLD;
          Ok (predictions ++
                [Prediction drone_id true_label pred_label threat_score
                   classification class_confidence
                   (dict_get_default event "timestamp" (PNum 0))])
        else if py_eq_str event_type "threat_score_update" then
          let threat_score := dict_get event "total_score" in
          pred_label ← compute_pred_label threat_score PNone PNone
                         THREAT_ENGAGE_THRESHOLD CLASS_CONFIDENCE_THRESHOLD;
          Ok (predictions ++
                [Prediction drone_id (PStr spawn_label) pred_label
                   threat_score PNone PNone
                   (dict_get_default event "timestamp" (PNum 0))])
        else Ok predictions
    end.

Definition extract_predictions_from_log (events : list pydict)
  : result (list prediction) :=
  drone_labels ← extract_drone_labels events;
  match drone_labels with
  | [] => Ok []
  | _ => foldM (extract_predictions_step drone_labels) [] events
  end.

(** ** eval_classification_report.py: metrics *)

Definition Qnat (n : nat) : Q := inject_Z (Z.of_nat n).

Definition Qlt_bool (a b : Q) : bool := negb (Qle_bool b a).

(** [a / b if b > 0 else 0.0] on counts: the exact quotient, which the
    code rounds to binary64. *)
Definition ratio (a b : nat) : Q :=
  if (0 <? b)%nat then Qnat a / Qnat b else 0.

(** The value type of [class_stats]: [{'TP': 0, 'FP': 0, 'FN': 0}]. *)
Record class_counts : Type := ClassCounts { TP : nat; FP : nat; FN : nat }.

Definition zero_counts : class_counts := ClassCounts 0 0 0.
Definition inc_TP (c : class_counts) := ClassCounts (S (TP c)) (FP c) (FN c).
Definition inc_FP (c : class_counts) := ClassCounts (TP c) (S (FP c)) (FN c).
Definition inc_FN (c : class_counts) := ClassCounts (TP c) (FP c) (S (FN c)).

(** [class_stats[k]] on the [defaultdict]: a missing key is created with
    the zero entry. *)
Definition dd_get (class_stats : kdict class_counts) (k : pykey)
  : class_counts * kdict class_counts :=
  match kdict_find class_stats k with
  | Some c => (c, class_stats)
  | None => (zero_counts, kdict_set class_stats k zero_counts)
  end.

(** [class_stats[k][field] += 1]. *)
Definition dd_bump (f : class_counts → class_counts)
  (class_stats : kdict class_counts) (k : pykey) : kdict class_counts :=
  let '(c, class_stats') := dd_get class_stats k in
  kdict_set class_stats' k (f c).

Definition class_stats_step
  (class_stats : kdict class_counts) (pred : prediction)
  : result (kdict class_counts) :=
  if py_eq_str (true_label pred) (pred_label pred) then
    k ← as_key (true_label pred);
    Ok (dd_bump inc_TP class_stats k)
  else
    k ← as_key (true_label pred);
    Ok (dd_bump inc_FP (dd_bump inc_FN class_stats k) (KStr (pred_label pred))).

(** The first loop of [compute_metrics]. *)
Definition class_stats_of (predictions : list prediction)
  : result (kdict class_counts) :=
  foldM class_stats_step [] predictions.

Definition count_correct (predictions : list prediction) : nat :=
  length (filter (λ p, py_eq_str (true_label p) (pred_label p) = true) predictions).

(** The body of [for label in ['HOSTILE', 'CIVIL', 'UNKNOWN']]. *)
Definition label_metrics_step
  (acc : kdict class_counts * gmap string Q) (label : string)
  : kdict class_counts * gmap string Q :=
  let '(stats, class_stats) := dd_get acc.1 (KStr label) in
  let tp := TP stats in
  let fp := FP stats in
  let fn := FN stats in
  let precision := ratio tp (tp + fp) in
  let recall := ratio tp (tp + fn) in
  let f1 := if Qlt_bool 0 (precision + recall)
            then 2 * precision * recall / (precision + recall) else 0 in
  (class_stats,
   <[label +:+ "_FN" := Qnat fn]>
     (<[label +:+ "_FP" := Qnat fp]>
        (<[label +:+ "_TP" := Qnat tp]>
           (<[label +:+ "_f1" := f1]>
              (<[label +:+ "_recall" := recall]>
                 (<[label +:+ "_precision" := precision]> acc.2)))))).

Definition count_civil (predictions : list prediction) : nat * nat :=
  fold_left
    (λ '(civil_fp_count, total_civil) pred,
       if py_eq_str (true_label pred) "CIVIL" then
         (if String.eqb (pred_label pred) "HOSTILE"
          then S civil_fp_count else civil_fp_count,
          S total_civil)
       else (civil_fp_count, total_civil))
    predictions (0, 0)%nat.

Definition compute_metrics (predictions : list prediction)
  : result (gmap string Q) :=
  match predictions with
  | [] => Ok ∅
  | _ =>
      let correct := count_correct predictions in
      let accuracy := ratio correct (length predictions) in
      class_stats ← class_stats_of predictions;
      let metrics : gmap string Q :=
        <["incorrect" := Qnat (length predictions - correct)]>
          (<["correct" := Qnat correct]>
             (<["total_predictions" := Qnat (length predictions)]>
                {["accuracy" := accuracy]})) in
      let '(class_stats, metrics) :=
        fold_left label_metrics_step LABELS (class_stats, metrics) in
      let '(hostile_stats, class_stats) := dd_get class_stats (KStr "HOSTILE") in
      let total_hostile := (TP hostile_stats + FN hostile_stats)%nat in
      let fp_rate := ratio (FP hostile_stats) (length predictions) in
      let fn_rate := ratio (FN hostile_stats) total_hostile in
      let '(civil_fp_count, total_civil) := count_civil predictions in
      let civil_fp_rate := ratio civil_fp_count total_civil in
      Ok (<["total_civil_samples" := Qnat total_civil]>
            (<["civil_fp_count" := Qnat civil_fp_count]>
               (<["civil_fp_rate" := civil_fp_rate]>
                  (<["FN_rate" := fn_rate]>
                     (<["FP_rate" := fp_rate]> metrics)))))
  end.

(** [metrics.get(k, 0)], the way the report and the tuner read a metric. *)
Definition metric_get (metrics : gmap string Q) (k : string) : Q :=
  default 0 (metrics !! k).

(** ** eval_classification_report.py: threshold sweep *)

Record roc_point : Type := RocPoint { roc_threshold : Z; tpr : Q; fpr : Q }.
Record pr_point : Type := PrPoint { pr_threshold : Z; precision : Q; recall : Q }.
Record roc_pr_data : Type :=
  RocPrData { roc_points : list roc_point; pr_points : list pr_point }.

(** The numeric value of a [threat_score] that is not [None].  Any other
    value makes [compute_roc_pr_data] raise [TypeError], in [sorted] or at
    the first comparison with a threshold. *)
Definition score_of (pred : prediction) : result (Q * prediction) :=
  match threat_score pred with
  | PNum q => Ok (q, pred)
  | PBool b => Ok (if b then 1 else 0, pred)
  | _ => Raise TypeError
  end.

Fixpoint mapM {A B} (f : A → result B) (l : list A) : result (list B) :=
  match l with
  | [] => Ok []
  | a :: l' => b ← f a; bs ← mapM f l'; Ok (b :: bs)
  end.

(** [sorted(..., key=threat_score, reverse=True)]: descending and stable. *)
Fixpoint insert_desc (x : Q * prediction) (l : list (Q * prediction))
  : list (Q * prediction) :=
  match l with
  | [] => [x]
  | y :: l' => if Qlt_bool x.1 y.1 then y :: insert_desc x l' else x :: l
  end.

Definition sorted_desc (l : list (Q * prediction)) : list (Q * prediction) :=
  foldr insert_desc [] l.

(** The four counters [tp], [fp], [fn], [tn] of one rung. *)
Record sweep_counts : Type :=
  SweepCounts { s_tp : nat; s_fp : nat; s_fn : nat; s_tn : nat }.

Definition sweep_step (label : string) (threshold : Z)
  (c : sweep_counts) (sp : Q * prediction) : sweep_counts :=
  let pred_label := if Qle_bool (inject_Z threshold) sp.1
                    then "HOSTILE" else "UNKNOWN" in
  if py_eq_str (true_label sp.2) label then
    if String.eqb pred_label label
    then SweepCounts (S (s_tp c)) (s_fp c) (s_fn c) (s_tn c)
    else SweepCounts (s_tp c) (s_fp c) (S (s_fn c)) (s_tn c)
  else
    if String.eqb pred_label label
    then SweepCounts (s_tp c) (S (s_fp c)) (s_fn c) (s_tn c)
    else SweepCounts (s_tp c) (s_fp c) (s_fn c) (S (s_tn c)).

Definition sweep_at (label : string) (sorted_preds : list (Q * prediction))
  (threshold : Z) : sweep_counts :=
  fold_left (sweep_step label threshold) sorted_preds (SweepCounts 0 0 0 0).

(** [[i * 5 for i in range(0, 21)]]. *)
Definition THRESHOLDS : list Z := (λ i, i * 5)%Z <$> seqZ 0 21.

Definition roc_point_at (label : string) (sorted_preds : list (Q * prediction))
  (threshold : Z) : roc_point :=
  let c := sweep_at label sorted_preds threshold in
  RocPoint threshold (ratio (s_tp c) (s_tp c + s_fn c))
    (ratio (s_fp c) (s_fp c + s_tn c)).

Definition pr_point_at (label : string) (sorted_preds : list (Q * prediction))
  (threshold : Z) : pr_point :=
  let c := sweep_at label sorted_preds threshold in
  PrPoint threshold (ratio (s_tp c) (s_tp c + s_fp c))
    (ratio (s_tp c) (s_tp c + s_fn c)).

Definition compute_roc_pr_data (predictions : list prediction) (label : string)
  : result roc_pr_data :=
  scored ← mapM score_of
    (filter (λ p, is_None (threat_score p) = false) predictions);
  let sorted_preds := sorted_desc scored in
  match sorted_preds with
  | [] => Ok (RocPrData [] [])
  | _ =>
      Ok (RocPrData (roc_point_at label sorted_preds <$> THRESHOLDS)
            (pr_point_at label sorted_preds <$> THRESHOLDS))
  end.

(** ** auto_tuning_config.py: the search space and the sampler *)

(** [random.Random]: [Random seed] is the generator [random.Random(seed)]
    constructs, [random g] is one call of [g.random()], returning the
    drawn number and the advanced generator. *)
Class PyRandom (G : Type) : Type := {
  Random : Z → G;
  random : G → Q * G
}.

(** [g.random()] returns a number in [[0, 1)]. *)
Class PyRandomLaws (G : Type) `{PyRandom G} : Prop := {
  random_range : ∀ g : G, 0 <= (random g).1 ∧ (random g).1 < 1
}.

(** Code that draws from a generator. *)
Definition sampler (G A : Type) : Type := G → A * G.

#[global] Instance sampler_ret {G} : MRet (sampler G) := λ _ a g, (a, g).
#[global] Instance sampler_bind {G} : MBind (sampler G) := λ _ _ f m g,
  let '(a, g') := m g in f a g'.

(** [rng.uniform(a, b)], that is [a + (b - a) * rng.random()]. *)
Definition uniform {G} `{PyRandom G} (range : Q * Q) : sampler G Q :=
  λ g, let '(u, g') := random g in (range.1 + (range.2 - range.1) * u, g').

(** [round(x)] to the nearest integer, ties to even. *)
Definition round_half_even (x : Q) : Z :=
  let f := Qfloor x in
  match Qcompare (x - inject_Z f) (1 # 2) with
  | Lt => f
  | Gt => (f + 1)%Z
  | Eq => if Z.even f then f else (f + 1)%Z
  end.

(** [round(x, ndigits)] of the exact rational; Python rounds the
    binary64 value, so that a decimal tie can fall on either side. *)
Definition py_round (x : Q) (ndigits : nat) : Q :=
  let scale := Z.to_pos (10 ^ Z.of_nat ndigits) in
  Qred (round_half_even (x * inject_Z (Z.pos scale)) # scale).

Module ParamSpace.
Record t : Type := Make {
  threat_engage_threshold : Q * Q;
  threat_abort_threshold : Q * Q;
  civil_conf_threshold : Q * Q;
  pn_nav_constant : Q * Q;
  pn_max_turn_rate : Q * Q;
  pn_min_closing_speed : Q * Q;
  interceptor_turn_rate_multiplier : Q * Q;
  sensor_radar_weight : Q * Q;
  sensor_audio_weight : Q * Q;
  sensor_eo_weight : Q * Q;
  threat_weight_existence : Q * Q;
  threat_weight_classification : Q * Q;
  threat_weight_distance : Q * Q;
  threat_weight_velocity : Q * Q;
  threat_weight_behavior : Q * Q;
  threat_weight_armed : Q * Q;
  threat_weight_heading : Q * Q
}.
End ParamSpace.

Definition DEFAULT_PARAM_SPACE : ParamSpace.t := {|
  ParamSpace.threat_engage_threshold := (55, 85);
  ParamSpace.threat_abort_threshold := (30, 50);
  ParamSpace.civil_conf_threshold := (5 # 10, 9 # 10);
  ParamSpace.pn_nav_constant := (2, 45 # 10);
  ParamSpace.pn_max_turn_rate := (2, 5);
  ParamSpace.pn_min_closing_speed := (5, 15);
  ParamSpace.interceptor_turn_rate_multiplier := (8 # 10, 13 # 10);
  ParamSpace.sensor_radar_weight := (4 # 10, 7 # 10);
  ParamSpace.sensor_audio_weight := (1 # 10, 3 # 10);
  ParamSpace.sensor_eo_weight := (7 # 10, 1);
  ParamSpace.threat_weight_existence := (1 # 10, 2 # 10);
  ParamSpace.threat_weight_classification := (2 # 10, 3 # 10);
  ParamSpace.threat_weight_distance := (15 # 100, 25 # 100);
  ParamSpace.threat_weight_velocity := (1 # 10, 15 # 100);
  ParamSpace.threat_weight_behavior := (5 # 100, 1 # 10);
  ParamSpace.threat_weight_armed := (8 # 100, 12 # 100);
  ParamSpace.threat_weight_heading := (8 # 100, 12 # 100)
|}.

(** The dictionary [sample_params] returns; [threat_weights] is the
    nested dictionary of the weight group, in insertion order. *)
Module Params.
Record t : Type := Make {
  threat_engage_threshold : Q;
  threat_abort_threshold : Q;
  civil_conf_threshold : Q;
  pn_nav_constant : Q;
  pn_max_turn_rate : Q;
  pn_min_closing_speed : Q;
  interceptor_turn_rate_multiplier : Q;
  sensor_radar_weight : Q;
  sensor_audio_weight : Q;
  sensor_eo_weight : Q;
  threat_weights : list (string * Q)
}.
End Params.

(** [sum(d.values())]: left to right, from [0]. *)
Definition sum_values (d : list (string * Q)) : Q :=
  fold_left (λ acc kv, acc + kv.2) d 0.

(** The body of [sample_params] once the generator is chosen. *)
Definition sample_from {G} `{PyRandom G} (space : ParamSpace.t)
  : sampler G Params.t :=
  threat_engage_threshold ← uniform (ParamSpace.threat_engage_threshold space);
  threat_abort_threshold ← uniform (ParamSpace.threat_abort_threshold space);
  civil_conf_threshold ← uniform (ParamSpace.civil_conf_threshold space);
  pn_nav_constant ← uniform (ParamSpace.pn_nav_constant space);
  pn_max_turn_rate ← uniform (ParamSpace.pn_max_turn_rate space);
  pn_min_closing_speed ← uniform (ParamSpace.pn_min_closing_speed space);
  interceptor_turn_rate_multiplier ←
    uniform (ParamSpace.interceptor_turn_rate_multiplier space);
  sensor_radar_weight ← uniform (ParamSpace.sensor_radar_weight space);
  sensor_audio_weight ← uniform (ParamSpace.sensor_audio_weight space);
  sensor_eo_weight ← uniform (ParamSpace.sensor_eo_weight space);
  existence ← uniform (ParamSpace.threat_weight_existence space);
  classification ← uniform (ParamSpace.threat_weight_classification space);
  distance ← uniform (ParamSpace.threat_weight_distance space);
  velocity ← uniform (ParamSpace.threat_weight_velocity space);
  behavior ← uniform (ParamSpace.threat_weight_behavior space);
  armed ← uniform (ParamSpace.threat_weight_armed space);
  heading ← uniform (ParamSpace.threat_weight_heading space);
  let threat_weights_raw :=
    [("existence", existence); ("classification", classification);
     ("distance", distance); ("velocity", velocity);
     ("behavior", behavior); ("armed", armed); ("heading", heading)] in
  let total := sum_values threat_weights_raw in
  let threat_weights := (λ kv, (kv.1, kv.2 / total)) <$> threat_weights_raw in
  mret {|
    Params.threat_engage_threshold := py_round threat_engage_threshold 2;
    Params.threat_abort_threshold := py_round threat_abort_threshold 2;
    Params.civil_conf_threshold := py_round civil_conf_threshold 3;
    Params.pn_nav_constant := py_round pn_nav_constant 2;
    Params.pn_max_turn_rate := py_round pn_max_turn_rate 2;
    Params.pn_min_closing_speed := py_round pn_min_closing_speed 1;
    Params.interceptor_turn_rate_multiplier :=
      py_round interceptor_turn_rate_multiplier 2;
    Params.sensor_radar_weight := py_round sensor_radar_weight 3;
    Params.sensor_audio_weight := py_round sensor_audio_weight 3;
    Params.sensor_eo_weight := py_round sensor_eo_weight 3;
    Params.threat_weights := threat_weights
  |}.

(** [sample_params(space, rng)].  With [rng=None] the function draws from
    [random.Random()], a generator seeded by the operating system:
    [os_rng] stands for that generator.  The result carries the state in
    which the call leaves the generator it drew from. *)
Definition sample_params {G} `{PyRandom G} (space : ParamSpace.t)
  (rng : option G) (os_rng : G) : Params.t * G :=
  let rng := match rng with Some g => g | None => os_rng end in
  sample_from space rng.

(** ** auto_tune.py: the objective *)

Definition key_all_hostile : string * string := ("all_hostile", "FUSION").
Definition key_mixed_civil : string * string := ("mixed_civil", "FUSION").

Definition compute_objective_score
  (metrics_dict : gmap (string * string) (gmap string Q)) : Q :=
  let score := 0 in
  let score :=
    match metrics_dict !! key_all_hostile with
    | Some metrics =>
        let f1_hostile := metric_get metrics "HOSTILE_f1" in
        let score := score + f1_hostile * 1 in
        let accuracy := metric_get metrics "accuracy" in
        score + accuracy * (3 # 10)
    | None => score
    end in
  let score :=
    match metrics_dict !! key_mixed_civil with
    | Some metrics =>
        let f1_hostile := metric_get metrics "HOSTILE_f1" in
        let score := score + f1_hostile * 1 in
        let civil_fp_rate := metric_get metrics "civil_fp_rate" in
        score - civil_fp_rate * 2
    | None => score
    end in
  score.

(** *** The objective on binary64

    The same function on the floats the code computes with: [score]
    starts at [0.0], and [+=], [-=] and [*] are the binary64 operations,
    each rounded to nearest; the literals are read as Python reads
    them. *)

Definition metric_get_binary64 (metrics : gmap string float) (k : string)
  : float :=
  default 0%float (metrics !! k).

#[warnings="-inexact-float"] Definition compute_objective_score_binary64
  (metrics_dict : gmap (string * string) (gmap string float)) : float :=
  let score := 0%float in
  let score :=
    match metrics_dict !! key_all_hostile with
    | Some metrics =>
        let f1_hostile := metric_get_binary64 metrics "HOSTILE_f1" in
        let score := (score + f1_hostile * 1.0)%float in
        let accuracy := metric_get_binary64 metrics "accuracy" in
        (score + accuracy * 0.3)%float
    | None => score
    end in
  let score :=
    match metrics_dict !! key_mixed_civil with
    | Some metrics =>
        let f1_hostile := metric_get_binary64 metrics "HOSTILE_f1" in
        let score := (score + f1_hostile * 1.0)%float in
        let civil_fp_rate := metric_get_binary64 metrics "civil_fp_rate" in
        (score - civil_fp_rate * 2.0)%float
    | None => score
    end in
  score.

(** A metrics mapping that holds nothing but the HOSTILE F1 of the
    all-hostile scenario. *)
Definition f1_only (f1 : float) : gmap (string * string) (gmap string float) :=
  {[ key_all_hostile := {[ "HOSTILE_f1" := f1 ]} ]}.

(** ** auto_tune.py: the tuning loop *)

(** [float('-inf')] or a finite score. *)
Inductive best_score_t : Type :=
| NegInf
| Fin (q : Q).

(** [score > best_score]. *)
Definition score_gt (score : Q) (best_score : best_score_t) : bool :=
  match best_score with
  | NegInf => true
  | Fin b => Qlt_bool b score
  end.

(** An entry of [history]. *)
Record trial_record : Type := TrialRecord {
  trial : nat;
  params : Params.t;
  score : Q;
  metrics : gmap (string * string) (gmap string Q)
}.

(** The content [save_history] dumps into the two result files. *)
Record history_json : Type := HistoryJson {
  total_trials : nat;
  hj_best_score : best_score_t;
  hj_history : list trial_record
}.

Record best_config_json : Type := BestConfigJson {
  bc_best_score : best_score_t;
  bc_best_params : Params.t;
  bc_best_metrics : option (gmap (string * string) (gmap string Q))
}.

(** The three files the loop writes: [None] when the file does not
    exist. *)
Record files : Type := Files {
  RUNTIME_PARAMS_FILE : option Params.t;
  TUNING_HISTORY_FILE : option history_json;
  BEST_CONFIG_FILE : option best_config_json
}.

Definition save_runtime_params (params : Params.t) (disk : files) : files :=
  Files (Some params) (TUNING_HISTORY_FILE disk) (BEST_CONFIG_FILE disk).

Definition clear_runtime_params (disk : files) : files :=
  Files None (TUNING_HISTORY_FILE disk) (BEST_CONFIG_FILE disk).

(** [save_history]: [open(..., 'w')] and [json.dump] raise [OSError] when
    the results directory cannot be written ([writable = false]); the
    function has no handler. *)
Definition save_history (writable : bool) (history : list trial_record)
  (best_params : option Params.t) (best_score : best_score_t)
  (best_metrics : option (gmap (string * string) (gmap string Q)))
  (disk : files) : result files :=
  if writable then
    let disk := Files (RUNTIME_PARAMS_FILE disk)
                  (Some (HistoryJson (length history) best_score history))
                  (BEST_CONFIG_FILE disk) in
    match best_params with
    | Some bp =>
        Ok (Files (RUNTIME_PARAMS_FILE disk) (TUNING_HISTORY_FILE disk)
              (Some (BestConfigJson best_score bp best_metrics)))
    | None => Ok disk
    end
  else Raise OSError.

(** What the world outside the process answers during one trial:
    the value [run_evaluation(profile)] returns, the dictionary
    [run_analysis()] returns (empty on any failure), and whether the
    results directory can be written. *)
Record trial_env : Type := TrialEnv {
  evaluation_ok : bool;
  analysis_metrics : gmap (string * string) (gmap string Q);
  results_writable : bool
}.

(** The local variables of [run_auto_tune] and the files. *)
Record tuner_state (G : Type) : Type := TunerState {
  rng : G;
  history : list trial_record;
  best_score : best_score_t;
  best_params : option Params.t;
  best_metrics : option (gmap (string * string) (gmap string Q));
  fs : files
}.
Arguments TunerState {G}.
Arguments rng {G}.
Arguments history {G}.
Arguments best_score {G}.
Arguments best_params {G}.
Arguments best_metrics {G}.
Arguments fs {G}.

(** How an iteration ends: at its last statement or at a [continue]
    ([Completed]), or with an exception leaving [run_auto_tune]. *)
Inductive exit : Type :=
| Completed
| Propagated (e : exn).

(** The body of [for trial in range(trials)].  The shared generator is
    passed to [sample_params], so no operating-system generator is built.
    The checkpoint write is the only statement that raises here: writing
    and removing the parameter file and printing are taken to succeed. *)
Definition trial_body {G} `{PyRandom G} (env : trial_env) (trial : nat)
  (st : tuner_state G) : tuner_state G * exit :=
  let '(params, rng') := sample_params DEFAULT_PARAM_SPACE (Some (rng st)) (rng st) in
  let disk := save_runtime_params params (fs st) in
  if negb (evaluation_ok env) then
    (TunerState rng' (history st) (best_score st) (best_params st)
       (best_metrics st) (clear_runtime_params disk), Completed)
  else
    let metrics := analysis_metrics env in
    if decide (metrics = ∅) then
      (TunerState rng' (history st) (best_score st) (best_params st)
         (best_metrics st) (clear_runtime_params disk), Completed)
    else
      let score := compute_objective_score metrics in
      let '(best_score', best_params', best_metrics') :=
        if score_gt score (best_score st)
        then (Fin score, Some params, Some metrics)
        else (best_score st, best_params st, best_metrics st) in
      let history' := history st ++ [TrialRecord (trial + 1) params score metrics] in
      if ((trial + 1) mod 10 =? 0)%nat then
        match save_history (results_writable env) history' best_params'
                best_score' best_metrics' disk with
        | Ok disk' =>
            (TunerState rng' history' best_score' best_params' best_metrics'
               (clear_runtime_params disk'), Completed)
        | Raise e =>
            (TunerState rng' history' best_score' best_params' best_metrics'
               disk, Propagated e)
        end
      else
        (TunerState rng' history' best_score' best_params' best_metrics'
           (clear_runtime_params disk), Completed).

(** The iterations [trial], [trial + 1], ... of the loop, one per entry of
    [envs]; an exception ends the loop. *)
Fixpoint run_trials {G} `{PyRandom G} (envs : list trial_env) (trial : nat)
  (st : tuner_state G) : tuner_state G * exit :=
  match envs with
  | [] => (st, Completed)
  | env :: envs' =>
      match trial_body env trial st with
      | (st', Completed) => run_trials envs' (S trial) st'
      | (st', Propagated e) => (st', Propagated e)
      end
  end.

Definition initial_state {G} `{PyRandom G} (seed : Z) (disk : files)
  : tuner_state G :=
  TunerState (Random seed) [] NegInf None None disk.

(** [run_auto_tune(trials, seed, profile)] with [trials = length envs],
    started with the files [disk]; [seed] is the seed passed or, when
    none is, the one [random.randint] picks.  The profile only selects
    the external command and its timeout, which [envs] accounts for;
    [final_writable] is the state of the results directory at the final
    [save_history]. *)
Definition run_auto_tune {G} `{PyRandom G} (envs : list trial_env)
  (final_writable : bool) (seed : Z) (disk : files) : tuner_state G * exit :=
  match run_trials envs 0 (initial_state seed disk) with
  | (st, Completed) =>
      match save_history final_writable (history st) (best_params st)
              (best_score st) (best_metrics st) (fs st) with
      | Ok disk' =>
          (TunerState (rng st) (history st) (best_score st) (best_params st)
             (best_metrics st) disk', Completed)
      | Raise e => (st, Propagated e)
      end
  | (st, Propagated e) => (st, Propagated e)
  end.

(** ** A small generator to run the model on

    A linear congruential generator over [Z]; it stands in for the
    Mersenne Twister where a statement is evaluated on concrete data. *)

Definition lcg_random (g : Z) : Q * Z :=
  ((g mod 64)%Z # 64, ((g * 1103515245 + 12345) mod 2147483648)%Z).

#[global] Instance lcg : PyRandom Z := {|
  Random := λ seed, (seed mod 2147483648)%Z;
  random := lcg_random
|}.

(** A generator that replays a recorded list of draws. *)
#[global] Instance replay : PyRandom (list Q) := {|
  Random := λ _, [];
  random := λ us, (hd 0 us, tl us)
|}.

(** The next [n] numbers a generator yields, and the generator after
    them. *)
Fixpoint draws {G} `{PyRandom G} (n : nat) (g : G) : list Q :=
  match n with
  | O => []
  | S n' => let '(u, g') := random g in u :: draws n' g'
  end.

Fixpoint advance {G} `{PyRandom G} (n : nat) (g : G) : G :=
  match n with
  | O => g
  | S n' => advance n' (random g).2
  end.

(** The declared sub-ranges of the [threat_weights] group, in the order
    of the raw dictionary. *)
Definition weight_ranges (space : ParamSpace.t) : list (string * (Q * Q)) :=
  [("existence", ParamSpace.threat_weight_existence space);
   ("classification", ParamSpace.threat_weight_classification space);
   ("distance", ParamSpace.threat_weight_distance space);
   ("velocity", ParamSpace.threat_weight_velocity space);
   ("behavior", ParamSpace.threat_weight_behavior space);
   ("armed", ParamSpace.threat_weight_armed space);
   ("heading", ParamSpace.threat_weight_heading space)].

(** A raw weight drawn for the sub-range of the same name. *)
Definition drawn_in (kv : string * Q) (kr : string * (Q * Q)) : Prop :=
  kv.1 = kr.1 ∧ kr.2.1 <= kv.2 ∧ kv.2 <= kr.2.2.

(** ** The decision rule as the specification words it *)

(** Arguments of the declared types [Optional[float]] and
    [Optional[str]], as Python values. *)
Definition py_float (x : option Q) : pyval :=
  match x with Some q => PNum q | None => PNone end.

Definition py_text (x : option string) : pyval :=
  match x with Some s => PStr s | None => PNone end.

(** The ordered rule: the threat score first, then a confident CIVIL
    classification, else UNKNOWN. *)
Definition hostile_fires (threat_score : option Q) (threat_threshold : Q) : bool :=
  match threat_score with
  | Some t => Qle_bool threat_threshold t
  | None => false
  end.

Definition civil_fires (classification : option string)
  (class_confidence : option Q) (class_confidence_threshold : Q) : bool :=
  match classification, class_confidence with
  | Some s, Some c =>
      String.eqb (strip (upper s)) "CIVIL"
      && Qle_bool class_confidence_threshold c
  | _, _ => false
  end.

Definition pred_label_rule (threat_score : option Q)
  (classification : option string) (class_confidence : option Q)
  (threat_threshold class_confidence_threshold : Q) : string :=
  if hostile_fires threat_score threat_threshold then "HOSTILE"
  else if civil_fires classification class_confidence
            class_confidence_threshold then "CIVIL"
  else "UNKNOWN".

(** ** The objective as the specification writes it *)

(** A metric of one scenario key; an absent key or field counts as [0]. *)
Definition scenario_metric
  (metrics_dict : gmap (string * string) (gmap string Q))
  (key : string * string) (field : string) : Q :=
  match metrics_dict !! key with
  | Some metrics => metric_get metrics field
  | None => 0
  end.

Definition objective_formula
  (metrics_dict : gmap (string * string) (gmap string Q)) : Q :=
  scenario_metric metrics_dict key_all_hostile "HOSTILE_f1" * 1
  + scenario_metric metrics_dict key_all_hostile "accuracy" * (3 # 10)
  + scenario_metric metrics_dict key_mixed_civil "HOSTILE_f1" * 1
  - scenario_metric metrics_dict key_mixed_civil "civil_fp_rate" * 2.

(** ** The tuning loop: what a run is expected to have recorded *)

(** A trial whose evaluation and analysis both deliver. *)
Definition successful (env : trial_env) : bool :=
  evaluation_ok env && negb (bool_decide (analysis_metrics env = ∅)).

(** A trial whose checkpoint write fails. *)
Definition checkpoint_fails (env : trial_env) (trial : nat) : bool :=
  successful env && ((trial + 1) mod 10 =? 0)%nat && negb (results_writable env).

(** The trials the loop enters, counting from index [trial]: all of them,
    or those up to the first failing checkpoint. *)
Fixpoint attempted (envs : list trial_env) (trial : nat) : list trial_env :=
  match envs with
  | [] => []
  | env :: envs' =>
      env :: (if checkpoint_fails env trial then [] else attempted envs' (S trial))
  end.

(** The one-based indices of the successful trials among [envs]. *)
Fixpoint recorded_indices (envs : list trial_env) (trial : nat) : list nat :=
  match envs with
  | [] => []
  | env :: envs' =>
      (if successful env then [trial + 1]%nat else [])
      ++ recorded_indices envs' (S trial)
  end.

(** The generator after one more call of [sample_params]. *)
Definition next_rng {G} `{PyRandom G} (g : G) : G :=
  (sample_params DEFAULT_PARAM_SPACE (Some g) g).2.

(** The best triple is that of the first record with the greatest score;
    with no record it is the initial triple. *)
Definition best_tracks (h : list trial_record) (bs : best_score_t)
  (bp : option Params.t)
  (bm : option (gmap (string * string) (gmap string Q))) : Prop :=
  (h = [] ∧ bs = NegInf ∧ bp = None ∧ bm = None)
  ∨ (∃ h1 r h2,
       h = h1 ++ r :: h2
       ∧ Forall (λ r', score r' < score r) h1
       ∧ Forall (λ r', score r' <= score r) h2
       ∧ bs = Fin (score r) ∧ bp = Some (params r) ∧ bm = Some (metrics r)).

(** [[r['trial'] for r in history]]. *)
Definition trial_indices (h : list trial_record) : list nat := trial <$> h.

Definition tracks {G} (st : tuner_state G) : Prop :=
  best_tracks (history st) (best_score st) (best_params st) (best_metrics st).

(** [bs] is [max(r.score for r in h)]: attained in [h] and an upper bound
    of it; with no record it is still the initial [-inf]. *)
Definition is_max_score (h : list trial_record) (bs : best_score_t) : Prop :=
  match bs with
  | NegInf => h = []
  | Fin b => (∃ r, r ∈ h ∧ score r = b) ∧ Forall (λ r, score r <= b) h
  end.

(** ** A run whose tenth checkpoint cannot be written *)

Definition good_metrics : gmap (string * string) (gmap string Q) :=
  {[ key_all_hostile := {[ "HOSTILE_f1" := 1; "accuracy" := 1 ]} ]}.

(** Ten trials that all evaluate and analyse; at the tenth the results
    directory is read-only. *)
Definition ten_trials_read_only : list trial_env :=
  replicate 9 (TrialEnv true good_metrics true)
  ++ [TrialEnv true good_metrics false].

Definition no_files : files := Files None None None.

(** ** Confusion counts: sums over the labels of [class_stats] *)

(** [sum(stats[field] for stats in class_stats.values())]. *)
Definition sum_counts (field : class_counts → nat)
  (class_stats : kdict class_counts) : nat :=
  sum_list ((λ kv, field kv.2) <$> class_stats).

(** A value Python can hash. *)
Definition hashable (v : pyval) : Prop :=
  match v with
  | PList _ | PDict _ => False
  | _ => True
  end.

(** Three predictions: one right, one CIVIL taken for HOSTILE, one with a
    true label outside the three reported ones. *)
Definition three_predictions : list prediction :=
  [Prediction (PStr "d1") (PStr "HOSTILE") "HOSTILE" (PNum 80) PNone PNone (PNum 1);
   Prediction (PStr "d2") (PStr "CIVIL") "HOSTILE" (PNum 75) PNone PNone (PNum 2);
   Prediction (PStr "d3") (PStr "FRIENDLY") "UNKNOWN" (PNum 10) PNone PNone (PNum 3)].

(** ** The threshold sweep as the specification words it *)

Fixpoint count_if {A} (c : A → bool) (l : list A) : nat :=
  match l with
  | [] => 0
  | x :: l' => (if c x then 1 else 0) + count_if c l'
  end.

(** The prediction carries a threat score. *)
Definition scored (p : prediction) : bool := negb (is_None (threat_score p)).

(** The number a carried threat score stands for. *)
Definition score_value (p : prediction) : Q :=
  match threat_score p with
  | PNum q => q
  | PBool b => if b then 1 else 0
  | _ => 0
  end.

(** The raw threat score reaches the threshold. *)
Definition reaches (threshold : Z) (p : prediction) : bool :=
  Qle_bool (inject_Z threshold) (score_value p).

Definition is_label (label : string) (p : prediction) : bool :=
  py_eq_str (true_label p) label.

(** Scored predictions of the label, and those of them reclassified as
    HOSTILE at a threshold; the same for the other labels. *)
Definition positives (label : string) (l : list prediction) : nat :=
  count_if (λ p, scored p && is_label label p) l.

Definition hits (label : string) (threshold : Z) (l : list prediction) : nat :=
  count_if (λ p, scored p && is_label label p && reaches threshold p) l.

Definition negatives (label : string) (l : list prediction) : nat :=
  count_if (λ p, scored p && negb (is_label label p)) l.

Definition false_alarms (label : string) (threshold : Z)
  (l : list prediction) : nat :=
  count_if (λ p, scored p && negb (is_label label p) && reaches threshold p) l.

Definition roc_rung (l : list prediction) (threshold : Z) : roc_point :=
  RocPoint threshold
    (ratio (hits "HOSTILE" threshold l) (positives "HOSTILE" l))
    (ratio (false_alarms "HOSTILE" threshold l) (negatives "HOSTILE" l)).

Definition pr_rung (l : list prediction) (threshold : Z) : pr_point :=
  PrPoint threshold
    (ratio (hits "HOSTILE" threshold l)
       (hits "HOSTILE" threshold l + false_alarms "HOSTILE" threshold l))
    (ratio (hits "HOSTILE" threshold l) (positives "HOSTILE" l)).

(** A sequence that never rises from one rung to a later one. *)
Definition non_increasing (l : list Q) : Prop :=
  ∀ (i j : nat) (x y : Q),
    (i ≤ j)%nat → l !! i = Some x → l !! j = Some y → y <= x.

(** A threat score of the declared type [Optional[float]]. *)
Definition numeric_or_None (v : pyval) : Prop :=
  match v with
  | PNone | PNum _ | PBool _ => True
  | _ => False
  end.

(** A prediction of an update that carried no threat score. *)
Definition unscored_prediction : prediction :=
  Prediction (PStr "d1") (PStr "HOSTILE") "UNKNOWN" PNone PNone (PNum 0) (PNum 1).

(** ** Logs to run the extraction on *)

(** The recognized label a [drone_spawned] event gives its drone, if any. *)
Definition spawn_label (event : pydict) : option string :=
  if py_eq_str (dict_get event "event") "drone_spawned"
     && truthy (dict_get event "drone_id")
     && truthy (dict_get event "true_label")
  then recognized_label (dict_get event "true_label")
  else None.

Definition spawn_event (id label : string) : pydict :=
  [("event", PStr "drone_spawned"); ("drone_id", PStr id);
   ("true_label", PStr label)].

(** A log whose only drone is spawned FRIENDLY, followed by updates. *)
Definition unlabeled_log : list pydict :=
  [spawn_event "d1" "FRIENDLY";
   [("event", PStr "fused_track_update"); ("drone_id", PStr "d1");
    ("threat_score", PNum 90)];
   [("event", PStr "threat_score_update"); ("drone_id", PStr "d1");
    ("total_score", PNum 10)]].

(** An update whose own [threat_score] and [class_confidence] are 0. *)
Definition zero_score_event : pydict :=
  [("event", PStr "fused_track_update"); ("drone_id", PStr "d1");
   ("threat_score", PNum 0); ("fused_threat_score", PNum 82);
   ("class_confidence", PNum 0);
   ("class_info", PDict [("confidence", PNum (9 # 10))])].

(** An update whose [threat_score] and [fused_threat_score] are both 0. *)
Definition zero_zero_event : pydict :=
  [("event", PStr "fused_track_update"); ("drone_id", PStr "d1");
   ("threat_score", PNum 0); ("fused_threat_score", PNum 0)].

(** ** Data of the scenarios of the specification *)

Definition civil_prediction (pred_label : string) : prediction :=
  Prediction (PStr "c") (PStr "CIVIL") pred_label PNone PNone PNone (PNum 0).

(** Ten true-CIVIL predictions, three of them predicted HOSTILE. *)
Definition ten_civil_predictions : list prediction :=
  replicate 3 (civil_prediction "HOSTILE") ++ replicate 7 (civil_prediction "CIVIL").

(** Five trials of which the third times out. *)
Definition five_trials_third_fails : list trial_env :=
  [TrialEnv true good_metrics true; TrialEnv true good_metrics true;
   TrialEnv false ∅ true;
   TrialEnv true good_metrics true; TrialEnv true good_metrics true].

(** A spawn, an update decided by the score, one decided by the
    classification, and one of an unknown drone. *)
Definition small_log : list pydict :=
  [spawn_event "d1" " hostile ";
   [("event", PStr "fused_track_update"); ("drone_id", PStr "d1");
    ("threat_score", PNum 75); ("classification", PStr "CIVIL");
    ("class_confidence", PNum (95 # 100)); ("timestamp", PNum 3)];
   [("event", PStr "fused_track_update"); ("drone_id", PStr "d1");
    ("fused_threat_score", PNum 20); ("fused_classification", PStr "civil");
    ("class_info", PDict [("confidence", PNum (8 # 10))])];
   [("event", PStr "threat_score_update"); ("drone_id", PStr "d2");
    ("total_score", PNum 99)]].

(** ** [compute_metrics] by direct counts *)

(** Predictions of true and predicted label [label]; predictions of true
    label [label] predicted otherwise; predictions predicted [label]
    whose true label is another. *)
Definition label_TP (label : string) (l : list prediction) : nat :=
  count_if (λ p, is_label label p && String.eqb (pred_label p) label) l.

Definition label_FN (label : string) (l : list prediction) : nat :=
  count_if (λ p, is_label label p && negb (String.eqb (pred_label p) label)) l.

Definition label_FP (label : string) (l : list prediction) : nat :=
  count_if (λ p, String.eqb (pred_label p) label && negb (is_label label p)) l.

(** Correct predictions. *)
Definition correct_count (l : list prediction) : nat :=
  count_if (λ p, py_eq_str (true_label p) (pred_label p)) l.

(** True-CIVIL predictions, and those of them predicted HOSTILE. *)
Definition civil_total (l : list prediction) : nat :=
  count_if (is_label "CIVIL") l.

Definition civil_as_hostile (l : list prediction) : nat :=
  count_if (λ p, is_label "CIVIL" p && String.eqb (pred_label p) "HOSTILE") l.

(** Harmonic mean of precision and recall, 0 when both are 0. *)
Definition f1_of (precision recall : Q) : Q :=
  if Qlt_bool 0 (precision + recall)
  then 2 * precision * recall / (precision + recall) else 0.

Definition label_precision (label : string) (l : list prediction) : Q :=
  ratio (label_TP label l) (label_TP label l + label_FP label l).

Definition label_recall (label : string) (l : list prediction) : Q :=
  ratio (label_TP label l) (label_TP label l + label_FN label l).

(** The six entries of one label. *)
Definition label_entries (l : list prediction) (m : gmap string Q)
  (label : string) : gmap string Q :=
  <[label +:+ "_FN" := Qnat (label_FN label l)]>
    (<[label +:+ "_FP" := Qnat (label_FP label l)]>
       (<[label +:+ "_TP" := Qnat (label_TP label l)]>
          (<[label +:+ "_f1" :=
               f1_of (label_precision label l) (label_recall label l)]>
             (<[label +:+ "_recall" := label_recall label l]>
                (<[label +:+ "_precision" := label_precision label l]> m))))).

(** The metrics of a non-empty list of predictions, entry by entry. *)
Definition metrics_by_counts (l : list prediction) : gmap string Q :=
  <["total_civil_samples" := Qnat (civil_total l)]>
    (<["civil_fp_count" := Qnat (civil_as_hostile l)]>
       (<["civil_fp_rate" := ratio (civil_as_hostile l) (civil_total l)]>
          (<["FN_rate" :=
               ratio (label_FN "HOSTILE" l)
                 (label_TP "HOSTILE" l + label_FN "HOSTILE" l)]>
             (<["FP_rate" := ratio (label_FP "HOSTILE" l) (length l)]>
                (fold_left (label_entries l) LABELS
                   (<["incorrect" := Qnat (length l - correct_count l)]>
                      (<["correct" := Qnat (correct_count l)]>
                         (<["total_predictions" := Qnat (length l)]>
                            {["accuracy" :=
                                ratio (correct_count l) (length l)]})))))))).

(** The entry of a key in the [defaultdict], zero when the key is absent. *)
Definition entry (class_stats : kdict class_counts) (k : pykey) : class_counts :=
  default zero_counts (kdict_find class_stats k).

(** The entries of a table that holds the direct counts of every label. *)
Definition holds_counts (cs : kdict class_counts) (l : list prediction) : Prop :=
  ∀ label, entry cs (KStr label)
           = ClassCounts (label_TP label l) (label_FP label l) (label_FN label l).

(** Four predictions of one drone: two qualifying updates of each kind. *)
Definition four_predictions : list prediction :=
  [Prediction (PStr "d1") (PStr "HOSTILE") "HOSTILE" (PNum 80) PNone PNone (PNum 1);
   Prediction (PStr "d1") (PStr "HOSTILE") "UNKNOWN" (PNum 20) PNone PNone (PNum 2);
   Prediction (PStr "d2") (PStr "CIVIL") "CIVIL" (PNum 5) (PStr "CIVIL") (PNum 1) (PNum 3);
   Prediction (PStr "d2") (PStr "CIVIL") "HOSTILE" (PNum 90) PNone PNone (PNum 4)].

(** The entries of the metrics that are rates. *)
Definition RATE_KEYS : list string :=
  ["accuracy"; "FP_rate"; "FN_rate"; "civil_fp_rate";
   "HOSTILE_precision"; "HOSTILE_recall"; "HOSTILE_f1";
   "CIVIL_precision"; "CIVIL_recall"; "CIVIL_f1";
   "UNKNOWN_precision"; "UNKNOWN_recall"; "UNKNOWN_f1"].

(** ** What extraction produces *)

(** An update event of a labelled drone: the events that yield a
    prediction. *)
Definition qualifies (drone_labels : kdict string) (event : pydict) : bool :=
  truthy (dict_get event "drone_id")
  && match as_key (dict_get event "drone_id") with
     | Ok k => match kdict_find drone_labels k with
               | Some _ => true
               | None => false
               end
     | Raise _ => false
     end
  && (py_eq_str (dict_get event "event") "fused_track_update"
      || py_eq_str (dict_get event "event") "threat_score_update").

(** A prediction as the decision rule with the default thresholds makes
    it: a label of the vocabulary, HOSTILE exactly when the stored threat
    score is a number that reaches 70, never CIVIL without a
    classification. *)
Definition rule_made (p : prediction) : Prop :=
  pred_label p ∈ LABELS
  ∧ numeric_or_None (threat_score p)
  ∧ String.eqb (pred_label p) "HOSTILE" = scored p && reaches 70 p
  ∧ (truthy (classification p) = false → pred_label p ≠ "CIVIL").

(** A log of two drones with five updates of the first. *)
Definition busy_log : list pydict :=
  [spawn_event "d1" "HOSTILE"; spawn_event "d2" "civil";
   [("event", PStr "fused_track_update"); ("drone_id", PStr "d1");
    ("threat_score", PNum 10)];
   [("event", PStr "fused_track_update"); ("drone_id", PStr "d1");
    ("threat_score", PNum 40)];
   [("event", PStr "threat_score_update"); ("drone_id", PStr "d1");
    ("total_score", PNum 75)];
   [("event", PStr "fused_track_update"); ("drone_id", PStr "d1");
    ("threat_score", PNum 80)];
   [("event", PStr "threat_score_update"); ("drone_id", PStr "d2");
    ("total_score", PNum 72)];
   [("event", PStr "radar_detection"); ("drone_id", PStr "d1")];
   [("event", PStr "fused_track_update"); ("drone_id", PStr "d3");
    ("threat_score", PNum 99)];
   [("event", PStr "fused_track_update"); ("drone_id", PStr "d1");
    ("threat_score", PNum 90)]].

(** The label the last recognized spawn event of drone [k] gives it. *)
Fixpoint last_spawn (events : list pydict) (k : pykey) : option string :=
  match events with
  | [] => None
  | event :: events' =>
      match last_spawn events' k with
      | Some label => Some label
      | None =>
          match spawn_label event, as_key (dict_get event "drone_id") with
          | Some label, Ok k' => if key_eqb k' k then Some label else None
          | _, _ => None
          end
      end
  end.

(** A log in which a drone is spawned three times. *)
Definition respawn_log : list pydict :=
  [spawn_event "d1" "civil"; spawn_event "d2" "UNKNOWN";
   spawn_event "d1" " Hostile"; spawn_event "d1" "FRIENDLY"].

(** ** The threshold sweep for any label *)

(** A threat score [compute_roc_pr_data] can sort and compare. *)
Definition numeric (p : prediction) : bool :=
  match threat_score p with
  | PNum _ | PBool _ => true
  | _ => false
  end.

(** The scored predictions with their numbers, in the order of the list. *)
Definition scored_pairs (l : list prediction) : list (Q * prediction) :=
  (λ p, (score_value p, p))
    <$> filter (λ p, is_None (threat_score p) = false) l.

(** A sequence that never falls from one rung to a later one. *)
Definition non_decreasing (l : list Q) : Prop :=
  ∀ (i j : nat) (x y : Q),
    (i ≤ j)%nat → l !! i = Some x → l !! j = Some y → x <= y.

(** ** auto_tune.py: reading the metrics artifact

    [str.split(sep)] and [sep.join] for a one-character separator, and
    the substring test [sub in s]. *)

Fixpoint split (sep : ascii) (s : string) : list string :=
  match s with
  | EmptyString => [EmptyString]
  | String c s' =>
      if Ascii.eqb c sep then EmptyString :: split sep s'
      else match split sep s' with
           | w :: ws => String c w :: ws
           | [] => [String c EmptyString]
           end
  end.

Fixpoint join (sep : ascii) (parts : list string) : string :=
  match parts with
  | [] => EmptyString
  | [w] => w
  | w :: ws => w +:+ String sep (join sep ws)
  end.

Fixpoint contains (sub s : string) : bool :=
  String.prefix sub s
  || match s with
     | EmptyString => false
     | String _ s' => contains sub s'
     end.

Definition MODES : list string := ["BASELINE"; "FUSION"].

(** The key [f"{scenario}_{mode}"] the evaluator and [save_history] write
    for a [(scenario, mode)] pair. *)
Definition format_key (key : string * string) : string :=
  key.1 +:+ String "_" key.2.

(** The pair [parse_metrics_from_report] reads a key string as, if any. *)
Definition parse_key (key_str : string) : option (string * string) :=
  let parts := split "_" key_str in
  if (2 <=? length parts)%nat then
    let last_part := List.last parts EmptyString in
    if bool_decide (last_part ∈ MODES) then
      Some (join "_" (removelast parts), last_part)
    else if contains "all_hostile" key_str then Some ("all_hostile", "FUSION")
    else if contains "mixed_civil" key_str then Some ("mixed_civil", "FUSION")
    else if contains "civil_only" key_str then Some ("civil_only", "FUSION")
    else None
  else None.

(** The loop over the items of the decoded artifact. *)
Definition parse_items {V} (items : list (string * V))
  : gmap (string * string) V :=
  fold_left
    (λ result '(key_str, metrics),
       match parse_key key_str with
       | Some key => <[key := metrics]> result
       | None => result
       end)
    items ∅.

(** [parse_metrics_from_report()]; [artifact] is the decoded content of
    the first [metrics.json] found, [None] when there is no such file or
    it cannot be decoded. *)
Definition parse_metrics_from_report {V} (artifact : option (list (string * V)))
  : gmap (string * string) V :=
  match artifact with
  | None => ∅
  | Some items => parse_items items
  end.

(** [d[k] = v] on a dictionary with string keys, kept in insertion
    order as [json.dump] writes it. *)
Fixpoint json_set {V} (d : list (string * V)) (k : string) (v : V)
  : list (string * V) :=
  match d with
  | [] => [(k, v)]
  | (k', v') :: d' =>
      if String.eqb k' k then (k', v) :: d' else (k', v') :: json_set d' k v
  end.

(** The loop that turns the tuple keys of a dictionary into strings, for
    the items of the dictionary in their order: the one of the evaluator
    for [metrics.json], and the one of [save_history]. *)
Definition format_items {V} (results : list ((string * string) * V))
  : list (string * V) :=
  fold_left
    (λ metrics_dict '(key, metrics), json_set metrics_dict (format_key key) metrics)
    results [].

(** A decoded [metrics.json] with a key that names no mode. *)
Definition sample_artifact : list (string * nat) :=
  [("all_hostile_FUSION", 1%nat); ("mixed_civil_run", 2%nat);
   ("civil_only_BASELINE", 3%nat); ("summary", 4%nat)].

(** ** The sampled values and their ranges *)

(** A value inside a declared range, bounds included. *)
Definition within (x : Q) (range : Q * Q) : Prop :=
  range.1 <= x ∧ x <= range.2.

(** A metrics dictionary whose every entry is a result of
    [compute_metrics]. *)
Definition computed_metrics
  (metrics_dict : gmap (string * string) (gmap string Q)) : Prop :=
  ∀ key m, metrics_dict !! key = Some m →
    ∃ predictions, compute_metrics predictions = Ok m.

(** ** The records of a run *)

(** The record trial [trial] appends when it succeeds with the generator
    in state [g]. *)
Definition record_of {G} `{PyRandom G} (g : G) (trial : nat) (env : trial_env)
  : trial_record :=
  TrialRecord (trial + 1) (sample_params DEFAULT_PARAM_SPACE (Some g) g).1
    (compute_objective_score (analysis_metrics env)) (analysis_metrics env).

(** The records of the successful trials among [envs], entered from index
    [trial] with the generator in state [g]. *)
Fixpoint records_from {G} `{PyRandom G} (envs : list trial_env) (trial : nat)
  (g : G) : list trial_record :=
  match envs with
  | [] => []
  | env :: envs' =>
      (if successful env then [record_of g trial env] else [])
      ++ records_from envs' (S trial) (next_rng g)
  end.

(** ** eval_classification_report.py: the main function

    [main] starts from the log files its two [glob] calls found under the
    log directory.  A log file is given by the parts of its path relative
    to that directory, which [relative_to] always yields for a file found
    there, and by the events [load_log_events] decodes from it.  The
    output directory is taken to be writable. *)

Record log_file : Type := LogFile {
  log_parts : list string;
  log_events : list pydict
}.

(** A value of [results]: the pooled predictions, the metrics and the
    sweep of one scenario and mode. *)
Record result_entry : Type := ResultEntry {
  re_predictions : list prediction;
  re_metrics : gmap string Q;
  re_roc_pr_data : roc_pr_data
}.

(** [results], a dictionary keyed by [(scenario, mode)], in insertion
    order. *)
Definition results_t : Type := list ((string * string) * result_entry).

Fixpoint results_find (results : results_t) (key : string * string)
  : option result_entry :=
  match results with
  | [] => None
  | (k, e) :: rest => if decide (k = key) then Some e else results_find rest key
  end.

(** [results[key]['predictions'].extend(predictions)]. *)
Fixpoint results_extend (results : results_t) (key : string * string)
  (predictions : list prediction) : results_t :=
  match results with
  | [] => []
  | (k, e) :: rest =>
      if decide (k = key) then
        (k, ResultEntry (re_predictions e ++ predictions) (re_metrics e)
              (re_roc_pr_data e)) :: rest
      else (k, e) :: results_extend rest key predictions
  end.

(** The scenario named in an experiment directory. *)
Definition scenario_of (experiment_name : string) : option string :=
  if contains "all_hostile" experiment_name then Some "all_hostile"
  else if contains "mixed_civil" experiment_name then Some "mixed_civil"
  else if contains "civil_only" experiment_name then Some "civil_only"
  else None.

(** The metrics a new entry of [results] starts with. *)
Definition PLACEHOLDER_METRICS : gmap string Q :=
  <["FN_rate" := 0]>
    (<["FP_rate" := 0]>
       (<["HOSTILE_f1" := 0]>
          (<["HOSTILE_recall" := 0]>
             (<["HOSTILE_precision" := 0]>
                (<["incorrect" := 0]>
                   (<["correct" := 0]>
                      (<["total_predictions" := 0]>
                         {["accuracy" := 0]}))))))).

(** The body of the loop that groups the logs by scenario and mode.  The
    two label counts it prints hash every [true_label]. *)
Definition group_step (results : results_t) (log : log_file) : result results_t :=
  match log_parts log with
  | experiment_name :: mode :: _ =>
      match scenario_of experiment_name with
      | Some scenario =>
          let key := (scenario, mode) in
          predictions ← extract_predictions_from_log (log_events log);
          match predictions with
          | [] => Ok results
          | _ =>
              _ ← mapM (λ p, as_key (true_label p)) predictions;
              metrics ← compute_metrics predictions;
              roc_pr_data ← compute_roc_pr_data predictions "HOSTILE";
              let results :=
                match results_find results key with
                | Some _ => results
                | None =>
                    results ++ [(key, ResultEntry [] PLACEHOLDER_METRICS roc_pr_data)]
                end in
              Ok (results_extend results key predictions)
          end
      | None => Ok results
      end
  | _ => Ok results
  end.

(** The loop that computes the final metrics of every key. *)
Definition finalize_entry (kv : (string * string) * result_entry)
  : result ((string * string) * result_entry) :=
  let all_predictions := re_predictions kv.2 in
  match all_predictions with
  | [] => Ok kv
  | _ =>
      final_metrics ← compute_metrics all_predictions;
      Ok (kv.1, ResultEntry all_predictions final_metrics (re_roc_pr_data kv.2))
  end.

(** [save_roc_pr_data]: one file per key, named after it; the content is
    the scenario, the mode and the two lists of points. *)
Definition save_roc_pr_data (results : results_t)
  : list (string * ((string * string) * roc_pr_data)) :=
  fold_left
    (λ written '(key, data),
       json_set written ("roc_pr_" +:+ format_key key +:+ ".json")
         (key, re_roc_pr_data data))
    results [].

(** What [main] leaves behind: [results] as it stands at the end, the
    items of [metrics.json] and the files of the [roc_pr_data]
    directory. *)
Record main_output : Type := MainOutput {
  out_results : results_t;
  metrics_json : list (string * gmap string Q);
  roc_pr_files : list (string * ((string * string) * roc_pr_data))
}.

(** [main()] on the log files found; [None] when it returns early for
    want of log files, writing nothing.  The rows [generate_report]
    derives from the same metrics are [report_rows] below. *)
Definition main (log_files : list log_file) : result (option main_output) :=
  match log_files with
  | [] => Ok None
  | _ =>
      _ ← mapM (λ log, extract_drone_labels (log_events log)) (take 3 log_files);
      results ← foldM group_step [] log_files;
      results ← mapM finalize_entry results;
      let metrics_results := (λ kv, (kv.1, re_metrics kv.2)) <$> results in
      Ok (Some (MainOutput results (format_items metrics_results)
                  (save_roc_pr_data results)))
  end.

(** *** The logs of a key *)

(** The key [main] files a log under, if any. *)
Definition key_of (log : log_file) : option (string * string) :=
  match log_parts log with
  | experiment_name :: mode :: _ =>
      (λ scenario, (scenario, mode)) <$> scenario_of experiment_name
  | _ => None
  end.

(** The predictions of a log; none when extraction raises. *)
Definition preds_of (log : log_file) : list prediction :=
  match extract_predictions_from_log (log_events log) with
  | Ok predictions => predictions
  | Raise _ => []
  end.

(** A log that contributes predictions to [key]. *)
Definition feeds (key : string * string) (log : log_file) : bool :=
  bool_decide (key_of log = Some key)
  && match preds_of log with [] => false | _ => true end.

(** The predictions of all the logs of a key, in the order of the logs. *)
Definition pooled (key : string * string) (log_files : list log_file)
  : list prediction :=
  concat (preds_of <$> filter (λ log, feeds key log = true) log_files).

(** The first log of a key that has predictions. *)
Definition first_log (key : string * string) (log_files : list log_file)
  : option log_file :=
  List.find (feeds key) log_files.

(** Two runs of one scenario and mode; only the second holds a hostile
    track. *)
Definition two_runs : list log_file :=
  [LogFile ["all_hostile_fusion"; "FUSION"; "run_0.jsonl"]
     [spawn_event "d1" "CIVIL";
      [("event", PStr "threat_score_update"); ("drone_id", PStr "d1");
       ("total_score", PNum 20)]];
   LogFile ["all_hostile_fusion"; "FUSION"; "run_1.jsonl"]
     [spawn_event "d2" "HOSTILE";
      [("event", PStr "threat_score_update"); ("drone_id", PStr "d2");
       ("total_score", PNum 90)]];
   LogFile ["notes.jsonl"] []].

(** What the grouping loop has built from the logs it has seen. *)
Definition grouped (log_files : list log_file) (results : results_t) : Prop :=
  ∀ key,
    match results_find results key with
    | Some e =>
        (∃ log, first_log key log_files = Some log
                ∧ compute_roc_pr_data (preds_of log) "HOSTILE"
                  = Ok (re_roc_pr_data e))
        ∧ re_predictions e = pooled key log_files
        ∧ re_predictions e ≠ []
    | None => first_log key log_files = None
    end.

(** A log that, if [main] files it, sits in a BASELINE or FUSION
    directory. *)
Definition mode_named (log : log_file) : Prop :=
  match key_of log with
  | Some key => key.2 ∈ MODES
  | None => True
  end.

(** ** eval_classification_report.py: the confusion matrix

    A [defaultdict(int)] keyed by the tuples [(true_label, pred_label)];
    two tuples are one key when their components are equal. *)

Definition cell_eqb (a b : pykey * string) : bool :=
  key_eqb a.1 b.1 && String.eqb a.2 b.2.

(** [matrix[k] += 1]. *)
Fixpoint matrix_bump (matrix : list ((pykey * string) * nat))
  (k : pykey * string) : list ((pykey * string) * nat) :=
  match matrix with
  | [] => [(k, 1%nat)]
  | (k', n) :: matrix' =>
      if cell_eqb k' k then (k', S n) :: matrix'
      else (k', n) :: matrix_bump matrix' k
  end.

Definition compute_confusion_matrix (predictions : list prediction)
  : result (list ((pykey * string) * nat)) :=
  foldM
    (λ matrix pred,
       true_label ← as_key (true_label pred);
       Ok (matrix_bump matrix (true_label, pred_label pred)))
    [] predictions.

(** [matrix.get(k, 0)]. *)
Fixpoint cell (matrix : list ((pykey * string) * nat)) (k : pykey * string)
  : nat :=
  match matrix with
  | [] => 0
  | (k', n) :: matrix' => if cell_eqb k' k then n else cell matrix' k
  end.

(** ** eval_classification_report.py: the rows of the report

    [generate_report] reads its argument through [keys()], [in] and
    indexing only, so the order of the dictionary does not matter to
    it. *)

(** [s1 < s2] on strings. *)
Definition str_lt (s1 s2 : string) : Prop := String.compare s1 s2 = Lt.

(** [sorted(set(xs))]: the distinct values of [xs] in increasing
    order. *)
Fixpoint insert_sorted (s : string) (l : list string) : list string :=
  match l with
  | [] => [s]
  | x :: l' =>
      match String.compare s x with
      | Lt => s :: l
      | Eq => l
      | Gt => x :: insert_sorted s l'
      end
  end.

Definition sorted_set (xs : list string) : list string :=
  foldr insert_sorted [] xs.

(** The keys for which [generate_report] writes a row of the summary
    table, and a block of the detailed statistics, with the metrics it
    prints there, in the order of the rows. *)
Definition report_rows {V} (results : gmap (string * string) V)
  : list ((string * string) * V) :=
  let scenarios := sorted_set (map_to_list results).*1.*1 in
  let modes := ["BASELINE"; "FUSION"] in
  scenario ← scenarios;
  mode ← modes;
  match results !! (scenario, mode) with
  | Some metrics => [((scenario, mode), metrics)]
  | None => []
  end.

(** The order of the rows: by scenario, BASELINE before FUSION. *)
Definition row_before {V} (a b : (string * string) * V) : Prop :=
  str_lt a.1.1 b.1.1
  ∨ (a.1.1 = b.1.1 ∧ a.1.2 = "BASELINE" ∧ b.1.2 = "FUSION").

(** * Properties *)

(** ** The decision rule *)

Lemma truthy_text_or_not_civil s :
  truthy (PStr s) = false → normalized_is (PStr s) "CIVIL" = false.
Proof.
  cbn. intros H%negb_false_iff%String.eqb_eq. by subst.
Qed.

(** C1. On arguments of the declared types [compute_pred_label] never
    raises and returns the label of the ordered rule: HOSTILE when the
    threat score is present and reaches the threshold, whatever the
    classification and confidence; otherwise CIVIL when the upper-cased,
    stripped classification is CIVIL and the confidence is present and
    reaches its threshold; otherwise UNKNOWN.  A score that reaches the
    threshold gives HOSTILE whatever values the other two arguments hold,
    and one that does not leaves the result that of no score.  With threat
    score 75, classification CIVIL, confidence 0.95 and threshold 70 the
    label is HOSTILE. *)
Theorem compute_pred_label_ordered_rule :
  (∀ (ts : option Q) (cls : option string) (cc : option Q) (thr cthr : Q),
     compute_pred_label (py_float ts) (py_text cls) (py_float cc) thr cthr
     = Ok (pred_label_rule ts cls cc thr cthr))
  ∧ (∀ (t : Q) (cls cc : pyval) (thr cthr : Q),
       compute_pred_label (PNum t) cls cc thr cthr
       = if Qle_bool thr t then Ok "HOSTILE"
         else compute_pred_label PNone cls cc thr cthr)
  ∧ compute_pred_label (PNum 75) (PStr "CIVIL") (PNum (95 # 100)) 70
      CLASS_CONFIDENCE_THRESHOLD = Ok "HOSTILE".
Proof.
  split; [| split; [| reflexivity]]; cycle 1.
  { intros t cls cc thr cthr. unfold compute_pred_label. cbn.
    by destruct (Qle_bool thr t). }
  intros ts cls cc thr cthr. unfold compute_pred_label, pred_label_rule.
  assert (Hcivil :
    (if truthy (py_text cls) then
       if normalized_is (py_text cls) "CIVIL" then
         civil ← (if is_None (py_float cc) then Ok false
                  else py_ge (py_float cc) cthr);
         if (civil : bool) then Ok "CIVIL" else Ok "UNKNOWN"
       else Ok "UNKNOWN"
     else Ok "UNKNOWN")
    = Ok (if civil_fires cls cc cthr then "CIVIL" else "UNKNOWN")).
  { destruct cls as [s|]; [| reflexivity].
    destruct (truthy (py_text (Some s))) eqn:Ht.
    - cbn [py_text normalized_is civil_fires].
      destruct (String.eqb (strip (upper s)) "CIVIL"); [| by destruct cc].
      destruct cc as [c|]; cbn; [| reflexivity].
      by destruct (Qle_bool cthr c).
    - apply truthy_text_or_not_civil in Ht. cbn in Ht.
      cbn [civil_fires]. rewrite Ht. by destruct cc. }
  destruct ts as [t|];
    cbn [py_float is_None py_ge mbind result_bind hostile_fires].
  - destruct (Qle_bool thr t); [reflexivity | exact Hcivil].
  - exact Hcivil.
Qed.

(** ** The objective *)

Lemma key_mixed_civil_neq : key_all_hostile ≠ key_mixed_civil.
Proof. discriminate. Qed.

Lemma compute_objective_score_unfold
  (m : gmap (string * string) (gmap string Q)) :
  compute_objective_score m == objective_formula m.
Proof.
  unfold compute_objective_score, objective_formula, scenario_metric.
  destruct (m !! key_all_hostile), (m !! key_mixed_civil); cbv zeta; ring.
Qed.

(** C2 (as amended). The score is the fixed weighted sum over the two
    designated keys, an absent key or metric counting as 0.  In exact
    arithmetic, setting the all-hostile HOSTILE_f1 to 0.8 instead of 0.5,
    everything else being the same, raises the score by 0.3.  On the
    binary64 floats of the code the gain is 0.3 only up to rounding: for
    the mapping that holds nothing but that F1 the two scores are 0.8 and
    0.5, and their difference is 0.30000000000000004, within 1e-9 of
    0.3. *)
#[warnings="-inexact-float"] Theorem compute_objective_score_formula :
  (∀ m : gmap (string * string) (gmap string Q),
     compute_objective_score m == objective_formula m)
  ∧ (∀ (m : gmap (string * string) (gmap string Q)) (ah : gmap string Q),
       compute_objective_score
         (<[key_all_hostile := <["HOSTILE_f1" := 8 # 10]> ah]> m)
       - compute_objective_score
           (<[key_all_hostile := <["HOSTILE_f1" := 5 # 10]> ah]> m)
       == 3 # 10)
  ∧ compute_objective_score_binary64 (f1_only 0.8) = 0.8%float
  ∧ compute_objective_score_binary64 (f1_only 0.5) = 0.5%float
  ∧ (compute_objective_score_binary64 (f1_only 0.8)
     - compute_objective_score_binary64 (f1_only 0.5))%float
    = 0.30000000000000004%float
  ∧ (abs (compute_objective_score_binary64 (f1_only 0.8)
          - compute_objective_score_binary64 (f1_only 0.5) - 0.3)
     <? 1e-9)%float = true.
Proof.
  split; [exact compute_objective_score_unfold |]. split.
  - intros m ah. rewrite !compute_objective_score_unfold.
    unfold objective_formula, scenario_metric.
    rewrite !lookup_insert_eq.
    rewrite !(lookup_insert_ne _ _ _ _ key_mixed_civil_neq).
    unfold metric_get. rewrite !lookup_insert_eq.
    rewrite !lookup_insert_ne by discriminate.
    cbn [default id]. ring.
  - repeat split; vm_compute; reflexivity.
Qed.

(** C2 (as stated) fails: the two scores the code returns for an
    all-hostile HOSTILE_f1 of 0.8 and of 0.5, nothing else being in the
    mapping, do not differ by exactly 0.3. *)
#[warnings="-inexact-float"] Lemma objective_gain_is_not_exactly_03 :
  (compute_objective_score_binary64 (f1_only 0.8)
   - compute_objective_score_binary64 (f1_only 0.5) =? 0.3)%float = false
  ∧ (compute_objective_score_binary64 (f1_only 0.8)
     - compute_objective_score_binary64 (f1_only 0.5))%float
    ≠ 0.3%float.
Proof.
  split; [vm_compute; reflexivity |]. intros Heq.
  assert (Hself : ∀ x y : float, x = y → (x =? y)%float = (y =? y)%float)
    by (by intros x y ->).
  apply Hself in Heq. vm_compute in Heq. discriminate Heq.
Qed.

(** ** The tuning loop: best tracking *)

Lemma score_gt_true s b : score_gt s (Fin b) = true → b < s.
Proof.
  unfold score_gt, Qlt_bool. intros H%negb_true_iff.
  apply Qnot_le_lt. intros Hle%Qle_bool_iff. congruence.
Qed.

Lemma score_gt_false s b : score_gt s (Fin b) = false → s <= b.
Proof.
  unfold score_gt, Qlt_bool. intros H%negb_false_iff. by apply Qle_bool_iff.
Qed.

(** Appending a record and updating the best on strict improvement keeps
    the best triple on the first record of greatest score. *)
Lemma best_tracks_append h bs bp bm r :
  best_tracks h bs bp bm →
  best_tracks (h ++ [r])
    (if score_gt (score r) bs then Fin (score r) else bs)
    (if score_gt (score r) bs then Some (params r) else bp)
    (if score_gt (score r) bs then Some (metrics r) else bm).
Proof.
  intros [(-> & -> & -> & ->) | (h1 & rb & h2 & -> & Hlt & Hle & -> & -> & ->)].
  - right. exists [], r, []. cbn. repeat split; constructor.
  - right. destruct (score_gt (score r) (Fin (score rb))) eqn:Hgt.
    + apply score_gt_true in Hgt.
      exists (h1 ++ rb :: h2), r, []. repeat split; [| constructor].
      apply Forall_app. split; [| constructor].
      * eapply Forall_impl; [exact Hlt |]. cbn. intros r' Hr'.
        by eapply Qlt_trans.
      * exact Hgt.
      * eapply Forall_impl; [exact Hle |]. cbn. intros r' Hr'.
        by eapply Qle_lt_trans.
    + apply score_gt_false in Hgt.
      exists h1, rb, (h2 ++ [r]). rewrite <- app_assoc. repeat split; [done |].
      apply Forall_app. split; [done |]. by constructor.
Qed.

Section TuningLoop.
Context {G : Type} `{PyRandom G}.

(** Every case of the body in one tactic. *)
Ltac body_cases env trial st :=
  unfold trial_body, checkpoint_fails, successful, save_history;
  destruct (sample_params DEFAULT_PARAM_SPACE (Some (rng st)) (rng st))
    as [p g'] eqn:Hsample;
  destruct (evaluation_ok env); cbn [negb andb];
  [ destruct (decide (analysis_metrics env = ∅)) as [Hempty | Hempty];
    [ rewrite ?(bool_decide_eq_true_2 _ Hempty)
    | rewrite ?(bool_decide_eq_false_2 _ Hempty);
      destruct (score_gt (compute_objective_score (analysis_metrics env))
                  (best_score st)) eqn:Hgt;
      destruct ((trial + 1) mod 10 =? 0)%nat;
      destruct (results_writable env);
      try destruct (best_params st) ]
  | ];
  cbn -[Nat.modulo].

Lemma trial_body_rng env trial st :
  rng (trial_body env trial st).1 = next_rng (rng st).
Proof.
  unfold next_rng. body_cases env trial st; by rewrite ?Hsample.
Qed.

Lemma trial_body_exit env trial st :
  (trial_body env trial st).2
  = if checkpoint_fails env trial then Propagated OSError else Completed.
Proof. body_cases env trial st; reflexivity. Qed.

Lemma trial_body_indices env trial st :
  trial_indices (history (trial_body env trial st).1)
  = (trial_indices (history st))
    ++ (if successful env then [trial + 1]%nat else []).
Proof.
  unfold trial_indices. body_cases env trial st;
    rewrite ?fmap_app, ?app_nil_r; reflexivity.
Qed.

Lemma trial_body_tracks env trial st :
  tracks st → tracks (trial_body env trial st).1.
Proof.
  unfold tracks. intros Hst.
  pose proof (λ r, best_tracks_append _ _ _ _ r Hst) as Happ.
  body_cases env trial st; try exact Hst;
    match goal with
    | |- best_tracks (_ ++ [?r]) _ _ _ =>
        specialize (Happ r); cbn in Happ; rewrite Hgt in Happ; exact Happ
    end.
Qed.

Lemma run_trials_invariant envs : ∀ trial st,
  tracks st →
  let st' := (run_trials envs trial st).1 in
  tracks st'
  ∧ trial_indices (history st')
    = (trial_indices (history st))
      ++ recorded_indices (attempted envs trial) trial
  ∧ rng st' = Nat.iter (length (attempted envs trial)) next_rng (rng st).
Proof.
  induction envs as [| env envs IH]; intros trial st Hst; cbn zeta.
  - cbn. by rewrite app_nil_r.
  - cbn [run_trials attempted recorded_indices].
    pose proof (trial_body_rng env trial st) as Hrng.
    pose proof (trial_body_exit env trial st) as Hexit.
    pose proof (trial_body_indices env trial st) as Hidx.
    pose proof (trial_body_tracks env trial st Hst) as Htr.
    destruct (trial_body env trial st) as [st1 ex]. cbn [fst snd] in *.
    destruct (checkpoint_fails env trial); subst ex; cbn [fst snd].
    + cbn [recorded_indices length Nat.iter]. rewrite app_nil_r.
      by rewrite Hidx, Hrng.
    + destruct (IH (S trial) st1 Htr) as (IH1 & IH2 & IH3).
      split; [exact IH1 |]. split.
      * rewrite IH2, Hidx, <- app_assoc. reflexivity.
      * rewrite IH3, Hrng. cbn [length]. by rewrite Nat.iter_succ_r.
Qed.

(** A run that leaves the loop normally has entered every trial. *)
Lemma run_trials_completed envs : ∀ trial st,
  (run_trials envs trial st).2 = Completed → attempted envs trial = envs.
Proof.
  induction envs as [| env envs IH]; intros trial st; [done |].
  cbn [run_trials attempted].
  pose proof (trial_body_exit env trial st) as Hexit.
  destruct (trial_body env trial st) as [st1 ex]. cbn [snd] in Hexit.
  destruct (checkpoint_fails env trial); subst ex; cbn; [done |].
  intros Hc. f_equal. by eapply IH.
Qed.

(** *** The runtime parameter file *)

(** An iteration that ends at its last statement or at a [continue] has
    removed the parameter file. *)
Lemma trial_body_completed_clears env trial st :
  (trial_body env trial st).2 = Completed →
  RUNTIME_PARAMS_FILE (fs (trial_body env trial st).1) = None.
Proof. body_cases env trial st; done. Qed.

(** An iteration whose checkpoint write raises leaves the loop with the
    parameter file it wrote still in place. *)
Lemma trial_body_checkpoint_leaves_file env trial st :
  checkpoint_fails env trial = true →
  (trial_body env trial st).2 = Propagated OSError
  ∧ RUNTIME_PARAMS_FILE (fs (trial_body env trial st).1)
    = Some (sample_params DEFAULT_PARAM_SPACE (Some (rng st)) (rng st)).1.
Proof. body_cases env trial st; rewrite ?Hsample; done. Qed.

Lemma best_tracks_max h bs bp bm :
  best_tracks h bs bp bm → is_max_score h bs ∧ (bp = None ↔ h = []).
Proof.
  intros [(-> & -> & -> & ->) | (h1 & r & h2 & -> & Hlt & Hle & -> & -> & ->)].
  - done.
  - split; [split |].
    + exists r. split; [| done]. apply elem_of_app. right. by left.
    + apply Forall_app. split.
      * eapply Forall_impl; [exact Hlt |]. cbn. intros. by apply Qlt_le_weak.
      * constructor; [apply Qle_refl | exact Hle].
    + split; [done |]. by destruct h1.
Qed.

End TuningLoop.

(** C3. After any number of iterations, from the initial state of any
    run: the tracked best score is the maximum of the scores recorded in
    the history; the best parameters are None exactly when the history is
    empty; the best triple is that of the first record of greatest score,
    so a tie keeps the earlier best; the history holds exactly the
    successful trials that were entered, under their one-based indices,
    while the generator has been advanced once for every trial that was
    entered, failed or not. *)
Theorem best_tracking_invariant :
  ∀ (G : Type) (R : PyRandom G) (envs : list trial_env) (seed : Z)
    (disk : files),
    let st := (run_trials envs 0 (initial_state seed disk)).1 in
    is_max_score (history st) (best_score st)
    ∧ (best_params st = None ↔ history st = [])
    ∧ tracks st
    ∧ trial_indices (history st) = recorded_indices (attempted envs 0) 0
    ∧ rng st = Nat.iter (length (attempted envs 0)) next_rng (Random seed).
Proof.
  intros G R envs seed disk st.
  assert (Hinit : tracks (initial_state (G:=G) seed disk)).
  { left. by cbn. }
  destruct (run_trials_invariant envs 0 _ Hinit) as (Htr & Hidx & Hrng).
  fold st in Htr, Hidx, Hrng.
  destruct (best_tracks_max _ _ _ _ Htr) as [Hmax Hnone].
  repeat split; try done; try apply Hnone.
Qed.


(** C7. Ten successful trials with the results directory read-only at the
    tenth: the checkpoint write raises out of [run_auto_tune], all ten
    records are in the history, and the runtime parameter file written
    for the tenth trial is still there. *)
Theorem parameter_file_left_when_checkpoint_raises :
  let run := run_auto_tune (G:=Z) ten_trials_read_only true 42 no_files in
  run.2 = Propagated OSError
  ∧ length (history run.1) = 10%nat
  ∧ RUNTIME_PARAMS_FILE (fs run.1) ≠ None.
Proof. vm_compute. repeat split. discriminate. Qed.

(** ** The sampler *)

Lemma lcg_random_range (g : Z) :
  0 <= (lcg_random g).1 ∧ (lcg_random g).1 < 1.
Proof.
  unfold lcg_random, Qle, Qlt. cbn.
  pose proof (Z.mod_pos_bound g 64 eq_refl). lia.
Qed.

#[global] Instance lcg_laws : PyRandomLaws Z.
Proof. split. intros g. exact (lcg_random_range g). Qed.

Section Sampler.
Context {G : Type} `{PyRandomLaws G}.

Lemma uniform_in_range (range : Q * Q) (g : G) :
  range.1 <= range.2 →
  range.1 <= (uniform range g).1 ∧ (uniform range g).1 <= range.2.
Proof.
  intros Hr. unfold uniform.
  pose proof (random_range g) as [Hlo Hhi].
  destruct (random g) as [u g']. cbn [fst snd] in *.
  assert (0 <= (range.2 - range.1) * u) by (apply Qmult_le_0_compat; lra).
  assert (0 <= (range.2 - range.1) * (1 - u)) by (apply Qmult_le_0_compat; lra).
  split; lra.
Qed.

(** One [uniform] call: name the drawn value and its range facts. *)
Ltac draw_uniform :=
  match goal with
  | Hr : ?r.1 <= ?r.2 |- context [uniform ?r ?g] =>
      let v := fresh "v" in
      let g' := fresh "g" in
      let Hv := fresh "Hv" in
      pose proof (uniform_in_range r g Hr) as Hv;
      destruct (uniform r g) as [v g']; cbn [fst snd] in Hv; clear Hr
  | |- context [uniform ?r ?g] =>
      let v := fresh "v" in
      let g' := fresh "g" in
      destruct (uniform r g) as [v g']
  end.

(** The weight group of a sample: raw values drawn in their sub-ranges,
    each divided by the raw sum, which is positive. *)
Lemma sample_from_weights (space : ParamSpace.t) (g : G) :
  Forall (λ kr, 0 < kr.2.1 ∧ kr.2.1 <= kr.2.2) (weight_ranges space) →
  ∃ raw : list (string * Q),
    Params.threat_weights (sample_from space g).1
    = (λ kv, (kv.1, kv.2 / sum_values raw)) <$> raw
    ∧ Forall2 drawn_in raw (weight_ranges space)
    ∧ 0 < sum_values raw
    ∧ sum_values (Params.threat_weights (sample_from space g).1) == 1.
Proof.
  unfold weight_ranges. intros Hranges.
  repeat match goal with
         | H : Forall _ (_ :: _) |- _ =>
             let Hpos := fresh "Hpos" in
             let Hr := fresh "Hr" in
             apply Forall_cons in H as [[Hpos Hr] H]; cbn [fst snd] in Hpos, Hr
         end.
  clear Hranges.
  unfold sample_from, mbind, sampler_bind, mret, sampler_ret.
  do 10 draw_uniform. do 7 draw_uniform.
  cbn [fst snd Params.threat_weights].
  eexists [(_, _); (_, _); (_, _); (_, _); (_, _); (_, _); (_, _)].
  split; [reflexivity |].
  split; [repeat constructor; cbn; tauto |].
  assert (Hsum : 0 < sum_values
    [("existence", v9); ("classification", v10); ("distance", v11);
     ("velocity", v12); ("behavior", v13); ("armed", v14); ("heading", v15)]).
  { unfold sum_values. cbn. lra. }
  split; [exact Hsum |].
  unfold sum_values in *. cbn in *. field. lra.
Qed.

End Sampler.

(** C5. Over the default space, with a generator whose [random()] stays
    in [[0, 1)], the weight group of every sample consists of raw values
    drawn in their declared sub-ranges and divided by their positive raw
    sum; the normalized values add up to 1 (exact arithmetic), hence to
    within 1e-9 of 1. *)
Theorem threat_weights_sum_to_one :
  ∀ (G : Type) (R : PyRandom G), PyRandomLaws G →
  ∀ (rng : option G) (os_rng : G),
    let weights :=
      Params.threat_weights (sample_params DEFAULT_PARAM_SPACE rng os_rng).1 in
    (∃ raw : list (string * Q),
       weights = (λ kv, (kv.1, kv.2 / sum_values raw)) <$> raw
       ∧ Forall2 drawn_in raw (weight_ranges DEFAULT_PARAM_SPACE)
       ∧ 0 < sum_values raw)
    ∧ sum_values weights == 1
    ∧ Qabs (sum_values weights - 1) < 1 # 1000000000.
Proof.
  intros G R Laws rng os_rng. unfold sample_params.
  set (g := match rng with Some g => g | None => os_rng end).
  destruct (sample_from_weights DEFAULT_PARAM_SPACE g)
    as (raw & Heq & Hin & Hpos & Hone).
  { unfold weight_ranges, DEFAULT_PARAM_SPACE. cbn.
    repeat constructor; cbn; lra. }
  cbn zeta. split; [by exists raw |]. split; [exact Hone |].
  rewrite Hone. reflexivity.
Qed.

Lemma threat_weights_sum_to_one_witness :
  let weights :=
    Params.threat_weights
      (sample_params DEFAULT_PARAM_SPACE (Some 7%Z) 0%Z).1 in
  (∃ raw : list (string * Q),
     weights = (λ kv, (kv.1, kv.2 / sum_values raw)) <$> raw
     ∧ Forall2 drawn_in raw (weight_ranges DEFAULT_PARAM_SPACE)
     ∧ 0 < sum_values raw)
  ∧ sum_values weights == 1
  ∧ Qabs (sum_values weights - 1) < 1 # 1000000000.
Proof. exact (threat_weights_sum_to_one Z lcg lcg_laws (Some 7%Z) 0%Z). Defined.

(** The sample is a function of the next seventeen numbers of the
    generator, which it consumes. *)
Lemma sample_from_draws {G : Type} `{PyRandom G} (space : ParamSpace.t) (g : G) :
  (sample_from space g).1 = (sample_from (G:=list Q) space (draws 17 g)).1
  ∧ (sample_from space g).2 = advance 17 g.
Proof.
  unfold sample_from, uniform, mbind, sampler_bind, mret, sampler_ret.
  cbn [draws advance].
  do 17 (destruct (random _) as [? ?]; cbn [fst snd hd tl random replay]).
  split; reflexivity.
Qed.

(** C6. Two calls on the same space, each with a generator freshly built
    from the same seed, return the same dictionary (and leave their
    generators in the same state), whatever else differs between the two
    calls; the dictionary is determined by the seventeen numbers drawn. *)
Theorem sample_params_deterministic :
  ∀ (G : Type) (R : PyRandom G) (space : ParamSpace.t),
    (∀ (seed : Z) (os1 os2 : G),
       sample_params space (Some (Random seed)) os1
       = sample_params space (Some (Random seed)) os2)
    ∧ (∀ g os : G,
         (sample_params space (Some g) os).1
         = (sample_from (G:=list Q) space (draws 17 g)).1
         ∧ (sample_params space (Some g) os).2 = advance 17 g).
Proof.
  intros G R space. split; [reflexivity |].
  intros g os. apply sample_from_draws.
Qed.

(** ** Confusion counts *)

Lemma key_eqb_refl k : key_eqb k k = true.
Proof.
  destruct k; cbn; [done | | apply String.eqb_refl].
  apply Qeq_bool_iff. reflexivity.
Qed.

Section Counts.
Context (field : class_counts → nat) (Hzero : field zero_counts = 0%nat).

Lemma sum_counts_set d k v :
  (sum_counts field (kdict_set d k v)
   + from_option field 0 (kdict_find d k)
   = sum_counts field d + field v)%nat.
Proof.
  unfold sum_counts.
  induction d as [| [k' v'] d IH]; cbn; [lia |].
  destruct (key_eqb k' k); cbn; lia.
Qed.

Lemma kdict_find_set_same {V} (d : kdict V) k v :
  kdict_find (kdict_set d k v) k = Some v.
Proof.
  induction d as [| [k' v'] d IH]; cbn.
  - by rewrite key_eqb_refl.
  - destruct (key_eqb k' k) eqn:E; cbn; by rewrite E.
Qed.

(** [class_stats[k][f] += 1] changes the sum of a field by what the
    increment changes in the entry of [k]. *)
Lemma sum_counts_bump g d k :
  let c := default zero_counts (kdict_find d k) in
  (sum_counts field (dd_bump g d k) + field c
   = sum_counts field d + field (g c))%nat.
Proof.
  unfold dd_bump, dd_get. destruct (kdict_find d k) as [c |] eqn:Hfind; cbn.
  - pose proof (sum_counts_set d k (g c)) as Hs. rewrite Hfind in Hs.
    exact Hs.
  - pose proof (sum_counts_set d k zero_counts) as H1.
    pose proof (sum_counts_set (kdict_set d k zero_counts) k (g zero_counts)) as H2.
    rewrite Hfind in H1. rewrite kdict_find_set_same in H2. cbn in *. lia.
Qed.

End Counts.

Lemma class_stats_step_sums cs pred cs' :
  class_stats_step cs pred = Ok cs' →
  (sum_counts TP cs' + sum_counts FN cs'
   = sum_counts TP cs + sum_counts FN cs + 1
   ∧ sum_counts TP cs' + sum_counts FP cs'
     = sum_counts TP cs + sum_counts FP cs + 1)%nat.
Proof.
  unfold class_stats_step.
  destruct (py_eq_str (true_label pred) (pred_label pred));
    destruct (as_key (true_label pred)) as [k | e]; cbn; try discriminate;
    intros [= <-].
  - pose proof (sum_counts_bump TP eq_refl inc_TP cs k).
    pose proof (sum_counts_bump FP eq_refl inc_TP cs k).
    pose proof (sum_counts_bump FN eq_refl inc_TP cs k).
    cbn in *. lia.
  - set (cs1 := dd_bump inc_FN cs k).
    pose proof (sum_counts_bump TP eq_refl inc_FN cs k).
    pose proof (sum_counts_bump FP eq_refl inc_FN cs k).
    pose proof (sum_counts_bump FN eq_refl inc_FN cs k).
    pose proof (sum_counts_bump TP eq_refl inc_FP cs1 (KStr (pred_label pred))).
    pose proof (sum_counts_bump FP eq_refl inc_FP cs1 (KStr (pred_label pred))).
    pose proof (sum_counts_bump FN eq_refl inc_FP cs1 (KStr (pred_label pred))).
    fold cs1 in H, H0, H1. cbn in *. lia.
Qed.

Lemma class_stats_loop_sums predictions : ∀ cs cs',
  foldM class_stats_step cs predictions = Ok cs' →
  (sum_counts TP cs' + sum_counts FN cs'
   = sum_counts TP cs + sum_counts FN cs + length predictions
   ∧ sum_counts TP cs' + sum_counts FP cs'
     = sum_counts TP cs + sum_counts FP cs + length predictions)%nat.
Proof.
  induction predictions as [| pred predictions IH]; intros cs cs'; cbn.
  - intros [= <-]. lia.
  - destruct (class_stats_step cs pred) as [cs1 | e] eqn:Hstep; cbn;
      [| discriminate].
    intros Hrest. apply class_stats_step_sums in Hstep.
    apply IH in Hrest. lia.
Qed.

(** The counting loop raises only on an unhashable true label. *)
Lemma class_stats_loop_total predictions : ∀ cs,
  Forall (λ p, hashable (true_label p)) predictions →
  ∃ cs', foldM class_stats_step cs predictions = Ok cs'.
Proof.
  induction predictions as [| pred predictions IH]; intros cs Hh; cbn.
  - by eexists.
  - apply Forall_cons in Hh as [Hp Hh].
    assert (∃ cs1, class_stats_step cs pred = Ok cs1) as [cs1 ->].
    { unfold class_stats_step.
      destruct (true_label pred); try done;
        destruct (py_eq_str _ _); cbn; by eexists. }
    cbn. by apply IH.
Qed.

(** Both identities, for every table the loop returns. *)
Lemma class_stats_of_sums predictions cs :
  class_stats_of predictions = Ok cs →
  (sum_counts TP cs + sum_counts FN cs = length predictions
   ∧ sum_counts TP cs + sum_counts FP cs = length predictions)%nat.
Proof.
  intros Hcs. apply class_stats_loop_sums in Hcs. cbn in Hcs. lia.
Qed.

(** C4 (as amended). For predictions whose true labels are hashable the
    counting loop of [compute_metrics] returns a table, and over all the
    labels of that table the true positives plus the false negatives
    number the predictions, and so do the true positives plus the false
    positives: a wrong prediction adds one false negative and one false
    positive. *)
Theorem confusion_counts_identity :
  ∀ predictions : list prediction,
    Forall (λ p, hashable (true_label p)) predictions →
    ∃ class_stats,
      class_stats_of predictions = Ok class_stats
      ∧ (sum_counts TP class_stats + sum_counts FN class_stats
         = length predictions)%nat
      ∧ (sum_counts TP class_stats + sum_counts FP class_stats
         = length predictions)%nat.
Proof.
  intros predictions Hh.
  destruct (class_stats_loop_total predictions [] Hh) as [cs Hcs].
  exists cs. split; [exact Hcs |]. by apply class_stats_of_sums.
Qed.

Lemma confusion_counts_identity_witness :
  ∃ class_stats,
    class_stats_of three_predictions = Ok class_stats
    ∧ (sum_counts TP class_stats + sum_counts FN class_stats
       = length three_predictions)%nat
    ∧ (sum_counts TP class_stats + sum_counts FP class_stats
       = length three_predictions)%nat.
Proof.
  apply (confusion_counts_identity three_predictions).
  repeat constructor.
Defined.

(** C4 (as stated) fails: no list of predictions makes the true positives
    plus the false positives differ from the number of predictions. *)
Lemma tp_plus_fp_never_differs :
  ¬ ∃ predictions class_stats,
      class_stats_of predictions = Ok class_stats
      ∧ (sum_counts TP class_stats + sum_counts FP class_stats)%nat
        ≠ length predictions.
Proof.
  intros (predictions & cs & Hcs & Hne).
  apply class_stats_of_sums in Hcs. lia.
Qed.

(** Over the three reported labels only, a foreign true label loses its
    false negative: the reported true positives and false negatives of
    [three_predictions] add up to 2 of 3 predictions, the reported true
    positives and false positives to all 3. *)
Lemma reported_counts_miss_foreign_label :
  ∃ m, compute_metrics three_predictions = Ok m
    ∧ Qeq_bool (metric_get m "total_predictions") 3 = true
    ∧ Qeq_bool
        (metric_get m "HOSTILE_TP" + metric_get m "CIVIL_TP"
         + metric_get m "UNKNOWN_TP" + metric_get m "HOSTILE_FN"
         + metric_get m "CIVIL_FN" + metric_get m "UNKNOWN_FN") 2 = true
    ∧ Qeq_bool
        (metric_get m "HOSTILE_TP" + metric_get m "CIVIL_TP"
         + metric_get m "UNKNOWN_TP" + metric_get m "HOSTILE_FP"
         + metric_get m "CIVIL_FP" + metric_get m "UNKNOWN_FP") 3 = true.
Proof. eexists. split; [reflexivity |]. vm_compute. done. Qed.

(** ** The threshold sweep *)

Lemma count_if_ext {A} (c c' : A → bool) l :
  Forall (λ x, c x = c' x) l → count_if c l = count_if c' l.
Proof. induction 1 as [| x l Hx _ IH]; cbn; [done |]. by rewrite Hx, IH. Qed.

Lemma count_if_mono {A} (c c' : A → bool) l :
  (∀ x, c x = true → c' x = true) → (count_if c l ≤ count_if c' l)%nat.
Proof.
  intros Himp. induction l as [| x l IH]; cbn; [done |].
  specialize (Himp x). destruct (c x), (c' x); lia.
Qed.

Lemma count_if_fmap {A B} (f : A → B) (c : B → bool) l :
  count_if c (f <$> l) = count_if (λ x, c (f x)) l.
Proof. induction l as [| x l IH]; cbn; [done |]. by rewrite IH. Qed.

Lemma count_if_perm {A} (c : A → bool) l l' :
  l ≡ₚ l' → count_if c l = count_if c l'.
Proof. induction 1; cbn; lia. Qed.

Lemma count_if_filter {A} (b : A → bool) (c : A → bool) l :
  count_if c (filter (λ x, b x = false) l)
  = count_if (λ x, negb (b x) && c x) l.
Proof.
  induction l as [| x l IH]; [done |].
  rewrite filter_cons. destruct (decide (b x = false)) as [Hb | Hb].
  - cbn [count_if]. rewrite Hb. cbn. by rewrite IH.
  - apply not_false_is_true in Hb. cbn [count_if]. rewrite Hb. cbn. exact IH.
Qed.

Lemma insert_desc_perm x l : insert_desc x l ≡ₚ x :: l.
Proof.
  induction l as [| y l IH]; cbn; [done |].
  destruct (Qlt_bool x.1 y.1); [| done].
  rewrite IH. apply Permutation_swap.
Qed.

Lemma sorted_desc_perm l : sorted_desc l ≡ₚ l.
Proof.
  induction l as [| x l IH]; cbn; [done |].
  rewrite insert_desc_perm. by rewrite IH.
Qed.

(** The scored pairs are the predictions with their numbers; scoring
    raises only on a score that is not a number. *)
Lemma score_of_value p sp : score_of p = Ok sp → sp = (score_value p, p).
Proof.
  unfold score_of, score_value. destruct (threat_score p); by intros [= <-].
Qed.

Lemma mapM_score_of l sl :
  mapM score_of l = Ok sl → sl = (λ p, (score_value p, p)) <$> l.
Proof.
  revert sl. induction l as [| p l IH]; intros sl; cbn [mapM];
    [by intros [= <-] |].
  destruct (score_of p) as [sp |] eqn:Hp; cbn [mbind result_bind]; [| done].
  destruct (mapM score_of l) as [sl' |]; cbn [mbind result_bind]; [| done].
  intros [= <-]. rewrite (IH sl' eq_refl), (score_of_value _ _ Hp). done.
Qed.

Lemma mapM_score_of_total l :
  Forall (λ p, numeric_or_None (threat_score p) ∧ scored p = true) l →
  ∃ sl, mapM score_of l = Ok sl.
Proof.
  induction 1 as [| p l [Hn Hs] _ [sl IH]]; cbn [mapM]; [by eexists |].
  assert (∃ sp, score_of p = Ok sp) as [sp ->].
  { unfold score_of, scored in *. destruct (threat_score p); try done;
      by eexists. }
  cbn [mbind result_bind]. rewrite IH. by eexists.
Qed.

(** One rung: the four counters count the four cases. *)
Lemma sweep_at_counts label l threshold :
  let hostile sp := Qle_bool (inject_Z threshold) sp.1 in
  let pl sp := String.eqb (if hostile sp then "HOSTILE" else "UNKNOWN") label in
  let tl sp := py_eq_str (true_label sp.2) label in
  sweep_at label l threshold
  = SweepCounts (count_if (λ sp, tl sp && pl sp) l)
      (count_if (λ sp, negb (tl sp) && pl sp) l)
      (count_if (λ sp, tl sp && negb (pl sp)) l)
      (count_if (λ sp, negb (tl sp) && negb (pl sp)) l).
Proof.
  intros hostile pl tl. unfold sweep_at.
  enough (Hgen : ∀ a b c d,
    fold_left (sweep_step label threshold) l (SweepCounts a b c d)
    = SweepCounts (a + count_if (λ sp, tl sp && pl sp) l)
        (b + count_if (λ sp, negb (tl sp) && pl sp) l)
        (c + count_if (λ sp, tl sp && negb (pl sp)) l)
        (d + count_if (λ sp, negb (tl sp) && negb (pl sp)) l)) by apply Hgen.
  induction l as [| sp l IH]; intros a b c d; cbn [fold_left count_if].
  - f_equal; lia.
  - unfold sweep_step at 2. subst hostile pl tl. cbn beta.
    destruct (py_eq_str (true_label sp.2) label);
      destruct (String.eqb _ label);
      cbn [s_tp s_fp s_fn s_tn andb negb]; rewrite IH; f_equal; lia.
Qed.

Lemma count_if_split {A} (a b : A → bool) l :
  (count_if (λ x, a x && b x) l + count_if (λ x, a x && negb (b x)) l
   = count_if a l)%nat.
Proof.
  induction l as [| x l IH]; cbn; [done |]. destruct (a x), (b x); cbn; lia.
Qed.

(** The list the sweep iterates over. *)
Lemma sweep_list_counts (c : Q * prediction → bool) (l : list prediction) :
  count_if c
    (sorted_desc ((λ p, (score_value p, p))
                    <$> filter (λ p, is_None (threat_score p) = false) l))
  = count_if (λ p, scored p && c (score_value p, p)) l.
Proof.
  rewrite (count_if_perm _ _ _ (sorted_desc_perm _)), count_if_fmap.
  apply (count_if_filter (λ p, is_None (threat_score p))).
Qed.

Lemma hostile_eqb_reaches threshold p :
  String.eqb
    (if Qle_bool (inject_Z threshold) (score_value p)
     then "HOSTILE" else "UNKNOWN") "HOSTILE"
  = reaches threshold p.
Proof. unfold reaches. by destruct (Qle_bool _ _). Qed.

(** A rung of the sweep counts, among the scored predictions, those of
    the label that reach the threshold, and those of the other labels
    that reach it. *)
Lemma sweep_at_hostile (l : list prediction) (threshold : Z) :
  let c := sweep_at "HOSTILE"
             (sorted_desc ((λ p, (score_value p, p))
                <$> filter (λ p, is_None (threat_score p) = false) l))
             threshold in
  s_tp c = hits "HOSTILE" threshold l
  ∧ s_fp c = false_alarms "HOSTILE" threshold l
  ∧ (s_tp c + s_fn c = positives "HOSTILE" l)%nat
  ∧ (s_fp c + s_tn c = negatives "HOSTILE" l)%nat.
Proof.
  cbn zeta. rewrite sweep_at_counts. cbn [s_tp s_fp s_fn s_tn].
  rewrite !sweep_list_counts. cbn [fst snd].
  unfold hits, false_alarms, positives, negatives, is_label.
  rewrite <- (count_if_split
    (λ p, scored p && py_eq_str (true_label p) "HOSTILE")
    (reaches threshold) l).
  rewrite <- (count_if_split
    (λ p, scored p && negb (py_eq_str (true_label p) "HOSTILE"))
    (reaches threshold) l).
  repeat split; try apply (f_equal2 Nat.add);
    apply count_if_ext, Forall_forall; intros p _;
    rewrite hostile_eqb_reaches; by rewrite andb_assoc.
Qed.

Lemma roc_point_at_rung (l : list prediction) (threshold : Z) :
  roc_point_at "HOSTILE"
    (sorted_desc ((λ p, (score_value p, p))
       <$> filter (λ p, is_None (threat_score p) = false) l)) threshold
  = roc_rung l threshold.
Proof.
  unfold roc_point_at, roc_rung.
  destruct (sweep_at_hostile l threshold) as (-> & -> & -> & ->). done.
Qed.

Lemma pr_point_at_rung (l : list prediction) (threshold : Z) :
  pr_point_at "HOSTILE"
    (sorted_desc ((λ p, (score_value p, p))
       <$> filter (λ p, is_None (threat_score p) = false) l)) threshold
  = pr_rung l threshold.
Proof.
  unfold pr_point_at, pr_rung.
  destruct (sweep_at_hostile l threshold) as (-> & -> & -> & _). done.
Qed.

Lemma ratio_mono (a a' b : nat) : (a ≤ a')%nat → ratio a b <= ratio a' b.
Proof.
  intros Ha. unfold ratio. destruct (0 <? b)%nat; [| apply Qle_refl].
  unfold Qdiv. apply Qmult_le_compat_r.
  - unfold Qnat. rewrite <- Zle_Qle. lia.
  - apply Qinv_le_0_compat. unfold Qnat.
    replace 0 with (inject_Z 0) by reflexivity. rewrite <- Zle_Qle. lia.
Qed.

Lemma reaches_mono (t t' : Z) p :
  (t ≤ t')%Z → reaches t' p = true → reaches t p = true.
Proof.
  unfold reaches. intros Ht H'%Qle_bool_iff. apply Qle_bool_iff.
  eapply Qle_trans; [| exact H']. by rewrite <- Zle_Qle.
Qed.

Lemma hits_mono label (t t' : Z) l :
  (t ≤ t')%Z → (hits label t' l ≤ hits label t l)%nat.
Proof.
  intros Ht. apply count_if_mono. intros p.
  rewrite !andb_true_iff. intros [Hp Hr]. split; [done |].
  by eapply reaches_mono.
Qed.

Lemma false_alarms_mono label (t t' : Z) l :
  (t ≤ t')%Z → (false_alarms label t' l ≤ false_alarms label t l)%nat.
Proof.
  intros Ht. apply count_if_mono. intros p.
  rewrite !andb_true_iff. intros [Hp Hr]. split; [done |].
  by eapply reaches_mono.
Qed.

Lemma THRESHOLDS_lookup (i : nat) (t : Z) :
  THRESHOLDS !! i = Some t → t = (Z.of_nat i * 5)%Z.
Proof.
  unfold THRESHOLDS. rewrite list_lookup_fmap.
  intros (n & Hn & ->)%fmap_Some. apply lookup_seqZ in Hn as [-> _]. lia.
Qed.

(** Along the ladder both rates of the rungs never rise. *)
Lemma rungs_non_increasing (l : list prediction) :
  non_increasing (tpr <$> (roc_rung l <$> THRESHOLDS))
  ∧ non_increasing (fpr <$> (roc_rung l <$> THRESHOLDS)).
Proof.
  split; intros i j x y Hij; rewrite <- !list_fmap_compose, !list_lookup_fmap;
    intros (ti & Hi & ->)%fmap_Some (tj & Hj & ->)%fmap_Some;
    apply THRESHOLDS_lookup in Hi as ->; apply THRESHOLDS_lookup in Hj as ->;
    cbn; apply ratio_mono; [apply hits_mono | apply false_alarms_mono]; lia.
Qed.

Lemma filter_scored_nil (l : list prediction) :
  existsb scored l = false →
  filter (λ p, is_None (threat_score p) = false) l = [].
Proof.
  induction l as [| p l IH]; [done |]. cbn [existsb].
  intros [Hp Hl]%orb_false_iff. rewrite filter_cons_False; [by apply IH |].
  unfold scored in Hp. apply negb_false_iff in Hp. congruence.
Qed.

Lemma filter_scored_cons (l : list prediction) :
  existsb scored l = true →
  filter (λ p, is_None (threat_score p) = false) l ≠ [].
Proof.
  induction l as [| p l IH]; [done |]. cbn [existsb].
  rewrite filter_cons. destruct (decide _) as [Hp | Hp]; [done |].
  apply not_false_is_true in Hp. unfold scored. rewrite Hp. cbn. exact IH.
Qed.

(** [compute_roc_pr_data] on predictions of the declared type: the points
    are the rungs of the ladder when a prediction carries a score, and
    there is no point otherwise. *)
Lemma compute_roc_pr_data_rungs (l : list prediction) :
  Forall (λ p, numeric_or_None (threat_score p)) l →
  compute_roc_pr_data l "HOSTILE"
  = Ok (if existsb scored l
        then RocPrData (roc_rung l <$> THRESHOLDS) (pr_rung l <$> THRESHOLDS)
        else RocPrData [] []).
Proof.
  intros Htyped. unfold compute_roc_pr_data.
  destruct (mapM_score_of_total
              (filter (λ p, is_None (threat_score p) = false) l))
    as [sl Hsl].
  { apply Forall_forall. intros p [Hp Hin]%list_elem_of_filter. split.
    - by eapply Forall_forall in Htyped.
    - unfold scored. by rewrite Hp. }
  rewrite Hsl. cbn [mbind result_bind].
  apply mapM_score_of in Hsl as ->.
  destruct (existsb scored l) eqn:Hex.
  - apply filter_scored_cons in Hex.
    destruct (sorted_desc _) as [| sp sorted] eqn:Hsorted.
    + pose proof (sorted_desc_perm
        ((λ p, (score_value p, p))
           <$> filter (λ p, is_None (threat_score p) = false) l)) as Hperm.
      rewrite Hsorted in Hperm. symmetry in Hperm.
      apply Permutation_nil_r in Hperm. apply fmap_nil_inv in Hperm. done.
    + rewrite <- Hsorted. do 2 f_equal; apply list_fmap_ext; intros i t _.
      * apply roc_point_at_rung.
      * apply pr_point_at_rung.
  - by rewrite (filter_scored_nil l Hex).
Qed.

(** C9 (as amended). On predictions whose threat scores are numbers or
    None, [compute_roc_pr_data] for HOSTILE never raises.  When a
    prediction carries a score it emits one point per threshold of the
    ladder 0, 5, ..., 100, in this order; the point of a threshold counts
    every scored prediction as HOSTILE exactly when its raw threat score
    reaches the threshold, whatever its classification and confidence;
    TPR and FPR never rise along the ladder.  When no prediction carries
    a score it emits no point. *)
Theorem threshold_sweep_curve :
  ∀ predictions : list prediction,
    Forall (λ p, numeric_or_None (threat_score p)) predictions →
    ∃ d,
      compute_roc_pr_data predictions "HOSTILE" = Ok d
      ∧ roc_points d
        = (if existsb scored predictions
           then roc_rung predictions <$> THRESHOLDS else [])
      ∧ pr_points d
        = (if existsb scored predictions
           then pr_rung predictions <$> THRESHOLDS else [])
      ∧ THRESHOLDS
        = [0; 5; 10; 15; 20; 25; 30; 35; 40; 45; 50; 55; 60; 65; 70; 75;
           80; 85; 90; 95; 100]%Z
      ∧ non_increasing (tpr <$> roc_points d)
      ∧ non_increasing (fpr <$> roc_points d).
Proof.
  intros predictions Htyped. eexists.
  split; [by apply compute_roc_pr_data_rungs |].
  destruct (existsb scored predictions); cbn [roc_points pr_points].
  - repeat split; try reflexivity; apply rungs_non_increasing.
  - repeat split; try reflexivity; intros i j x y _ Hx; done.
Qed.

Lemma threshold_sweep_curve_witness :
  ∃ d,
    compute_roc_pr_data three_predictions "HOSTILE" = Ok d
    ∧ roc_points d
      = (if existsb scored three_predictions
         then roc_rung three_predictions <$> THRESHOLDS else [])
    ∧ pr_points d
      = (if existsb scored three_predictions
         then pr_rung three_predictions <$> THRESHOLDS else [])
    ∧ THRESHOLDS
      = [0; 5; 10; 15; 20; 25; 30; 35; 40; 45; 50; 55; 60; 65; 70; 75;
         80; 85; 90; 95; 100]%Z
    ∧ non_increasing (tpr <$> roc_points d)
    ∧ non_increasing (fpr <$> roc_points d).
Proof.
  apply (threshold_sweep_curve three_predictions).
  repeat constructor.
Defined.

(** C9 (as stated) fails: for a prediction without threat score the
    ladder is not evaluated at all. *)
Lemma sweep_without_scores_has_no_rung :
  compute_roc_pr_data [unscored_prediction] "HOSTILE" = Ok (RocPrData [] [])
  ∧ ¬ (∃ d, compute_roc_pr_data [unscored_prediction] "HOSTILE" = Ok d
           ∧ roc_threshold <$> roc_points d = THRESHOLDS).
Proof.
  split; [reflexivity |]. intros (d & [= <-] & Hd). discriminate Hd.
Qed.

(** ** Extraction *)

Lemma extract_drone_labels_step_none drone_labels event :
  spawn_label event = None →
  extract_drone_labels_step drone_labels event = Ok drone_labels.
Proof.
  unfold spawn_label, extract_drone_labels_step.
  destruct (py_eq_str _ _); [| done]. cbn [andb].
  destruct (truthy (dict_get event "drone_id") && truthy (dict_get event "true_label"));
    [| done].
  by intros ->.
Qed.

Lemma extract_drone_labels_none events : ∀ drone_labels,
  Forall (λ e, spawn_label e = None) events →
  foldM extract_drone_labels_step drone_labels events = Ok drone_labels.
Proof.
  induction events as [| e events IH]; intros dl Hnone; [done |].
  apply Forall_cons in Hnone as [He Hnone]. cbn [foldM].
  rewrite (extract_drone_labels_step_none _ _ He). cbn. by apply IH.
Qed.

Lemma label_metrics_keep cs (m : gmap string Q) (k : string) :
  Forall (λ label, ∀ suffix, label +:+ suffix ≠ k) LABELS →
  (fold_left label_metrics_step LABELS (cs, m)).2 !! k = m !! k.
Proof.
  generalize LABELS. intros labels. revert cs m.
  induction labels as [| label labels IH]; intros cs m Hk; [done |].
  apply Forall_cons in Hk as [Hlabel Hk]. cbn [fold_left].
  unfold label_metrics_step at 2. cbn [fst snd].
  destruct (dd_get cs (KStr label)) as [stats cs'].
  rewrite IH by done. by rewrite !lookup_insert_ne.
Qed.

(** Metrics computed over data carry the number of predictions. *)
Lemma compute_metrics_total_predictions predictions m :
  predictions ≠ [] →
  compute_metrics predictions = Ok m →
  m !! "total_predictions" = Some (Qnat (length predictions)).
Proof.
  intros Hne. unfold compute_metrics.
  destruct predictions as [| p l]; [done |].
  set (predictions := p :: l).
  destruct (class_stats_of predictions) as [cs |]; cbn [mbind result_bind];
    [| done].
  match goal with
  | |- context [fold_left label_metrics_step LABELS (cs, ?m0)] =>
      pose proof (label_metrics_keep cs m0 "total_predictions") as Hkeep;
      destruct (fold_left label_metrics_step LABELS (cs, m0)) as [cs1 m1]
  end.
  destruct (dd_get cs1 (KStr "HOSTILE")) as [hostile_stats cs2].
  destruct (count_civil predictions) as [civil_fp_count total_civil].
  intros [= <-]. rewrite !lookup_insert_ne by done. cbn [snd] in Hkeep.
  rewrite Hkeep.
  - rewrite lookup_insert_ne by done. rewrite lookup_insert_ne by done.
    by rewrite lookup_insert_eq.
  - unfold LABELS. repeat constructor; intros suffix Heq;
      by apply (f_equal (λ x, String.get 0 x)) in Heq.
Qed.

(** C8. A log in which no spawn event gives a recognized label yields no
    prediction; the metrics of no prediction are the empty dictionary,
    from which every rate reads as 0; and the metrics of at least one
    prediction are never empty, since they carry the positive number of
    predictions: the caller can tell the two apart. *)
Theorem unlabeled_log_gives_empty_metrics :
  ∀ events : list pydict,
    Forall (λ e, spawn_label e = None) events →
    extract_predictions_from_log events = Ok []
    ∧ compute_metrics [] = Ok ∅
    ∧ (∀ k : string, metric_get ∅ k = 0)
    ∧ (∀ (predictions : list prediction) (m : gmap string Q),
         predictions ≠ [] →
         compute_metrics predictions = Ok m →
         m ≠ ∅
         ∧ m !! "total_predictions" = Some (Qnat (length predictions))
         ∧ 0 < Qnat (length predictions)).
Proof.
  intros events Hnone. split; [| split; [done | split; [done |]]].
  - unfold extract_predictions_from_log, extract_drone_labels.
    by rewrite (extract_drone_labels_none events [] Hnone).
  - intros predictions m Hne Hm.
    pose proof (compute_metrics_total_predictions _ _ Hne Hm) as Htotal.
    split; [| split; [exact Htotal |]].
    + intros ->. by rewrite lookup_empty in Htotal.
    + destruct predictions; [done |]. unfold Qnat, Qlt. cbn. lia.
Qed.

Lemma unlabeled_log_gives_empty_metrics_witness :
  extract_predictions_from_log unlabeled_log = Ok []
  ∧ compute_metrics [] = Ok ∅
  ∧ (∀ k : string, metric_get ∅ k = 0)
  ∧ (∀ (predictions : list prediction) (m : gmap string Q),
       predictions ≠ [] →
       compute_metrics predictions = Ok m →
       m ≠ ∅
       ∧ m !! "total_predictions" = Some (Qnat (length predictions))
       ∧ 0 < Qnat (length predictions)).
Proof.
  apply (unlabeled_log_gives_empty_metrics unlabeled_log).
  repeat constructor.
Defined.

(** The fallback of the threat score is the other field as it is. *)
Lemma fused_threat_score_field_falsy event :
  truthy (dict_get event "threat_score") = false →
  fused_threat_score_field event = dict_get event "fused_threat_score".
Proof. unfold fused_threat_score_field, py_or. by intros ->. Qed.

Lemma fused_class_confidence_field_falsy event :
  truthy (dict_get event "class_confidence") = false →
  fused_class_confidence_field event
  = py_get_default (dict_get_default event "class_info" (PDict []))
      "confidence" (PNum 0).
Proof. unfold fused_class_confidence_field. by intros ->. Qed.

(** C10 (as amended). For a [fused_track_update] event the two fallbacks
    act each on its own.  When the event's [threat_score] is falsy (0 in
    particular), whatever its [class_confidence], the value used is the
    [fused_threat_score] field as it is: None when that field is absent
    or null, and the field's own value otherwise, falsy or not; the
    event's own [threat_score] is then neither what is compared with the
    threshold nor what the prediction stores.  When the event's
    [class_confidence] is falsy, whatever its [threat_score], the value
    used is [class_info.confidence], 0 when [class_info] or its
    [confidence] is absent.  The label of the prediction is the rule
    applied to the values it stores. *)
Theorem falsy_fields_fall_back :
  ∀ (drone_labels : kdict string) (predictions predictions' : list prediction)
    (event : pydict),
    py_eq_str (dict_get event "event") "fused_track_update" = true →
    extract_predictions_step drone_labels predictions event = Ok predictions' →
    (truthy (dict_get event "threat_score") = false →
     fused_threat_score_field event = dict_get event "fused_threat_score"
     ∧ (dict_find event "fused_threat_score" = None →
        fused_threat_score_field event = PNone))
    ∧ (truthy (dict_get event "class_confidence") = false →
       fused_class_confidence_field event
       = py_get_default (dict_get_default event "class_info" (PDict []))
           "confidence" (PNum 0))
    ∧ (predictions' = predictions
       ∨ ∃ p,
           predictions' = predictions ++ [p]
           ∧ (truthy (dict_get event "threat_score") = false →
              threat_score p = dict_get event "fused_threat_score")
           ∧ (truthy (dict_get event "class_confidence") = false →
              py_get_default (dict_get_default event "class_info" (PDict []))
                "confidence" (PNum 0) = Ok (class_confidence p))
           ∧ compute_pred_label (threat_score p) (classification p)
               (class_confidence p)
               THREAT_ENGAGE_THRESHOLD CLASS_CONFIDENCE_THRESHOLD
             = Ok (pred_label p)).
Proof.
  intros dl preds preds' event Hev Hstep.
  split; [| split].
  { intros Hts. pose proof (fused_threat_score_field_falsy event Hts) as Hfield.
    split; [exact Hfield |].
    intros Hnone. rewrite Hfield. unfold dict_get. by rewrite Hnone. }
  { apply fused_class_confidence_field_falsy. }
  revert Hstep. unfold extract_predictions_step.
  destruct (truthy (dict_get event "drone_id")); cbn [negb];
    [| intros [= <-]; by left].
  destruct (as_key (dict_get event "drone_id")) as [k |];
    cbn [mbind result_bind]; [| done].
  destruct (kdict_find dl k) as [spawn |]; [| intros [= <-]; by left].
  rewrite Hev.
  destruct (fused_class_confidence_field event) as [cc |] eqn:Hconf;
    cbn [mbind result_bind]; [| done].
  destruct (compute_pred_label _ _ cc _ _) as [pl |] eqn:Hpl;
    cbn [mbind result_bind]; [| done].
  intros [= <-]. right. eexists. split; [reflexivity |].
  cbn [threat_score classification class_confidence pred_label].
  split; [| split; [| exact Hpl]].
  - apply fused_threat_score_field_falsy.
  - intros Hcc. by rewrite <- (fused_class_confidence_field_falsy event Hcc).
Qed.

Lemma falsy_fields_fall_back_witness :
  let p := Prediction (PStr "d1") (PStr "CIVIL") "HOSTILE" (PNum 82) PNone
             (PNum (9 # 10)) (PNum 0) in
  (truthy (dict_get zero_score_event "threat_score") = false →
   fused_threat_score_field zero_score_event
   = dict_get zero_score_event "fused_threat_score"
   ∧ (dict_find zero_score_event "fused_threat_score" = None →
      fused_threat_score_field zero_score_event = PNone))
  ∧ (truthy (dict_get zero_score_event "class_confidence") = false →
     fused_class_confidence_field zero_score_event
     = py_get_default
         (dict_get_default zero_score_event "class_info" (PDict []))
         "confidence" (PNum 0))
  ∧ ([p] = []
     ∨ ∃ p',
         [p] = [] ++ [p']
         ∧ (truthy (dict_get zero_score_event "threat_score") = false →
            threat_score p' = dict_get zero_score_event "fused_threat_score")
         ∧ (truthy (dict_get zero_score_event "class_confidence") = false →
            py_get_default
              (dict_get_default zero_score_event "class_info" (PDict []))
              "confidence" (PNum 0) = Ok (class_confidence p'))
         ∧ compute_pred_label (threat_score p') (classification p')
             (class_confidence p')
             THREAT_ENGAGE_THRESHOLD CLASS_CONFIDENCE_THRESHOLD
           = Ok (pred_label p')).
Proof.
  exact (falsy_fields_fall_back [(KStr "d1", "CIVIL")] [] _
           zero_score_event eq_refl eq_refl).
Defined.

(** C10 (as stated) fails: when [threat_score] and [fused_threat_score]
    are both 0 the value used is that 0, not None; the prediction stores
    it and counts as carrying a score. *)
Lemma falsy_fused_score_is_not_None :
  truthy (dict_get zero_zero_event "threat_score") = false
  ∧ truthy (dict_get zero_zero_event "fused_threat_score") = false
  ∧ fused_threat_score_field zero_zero_event ≠ PNone
  ∧ ∃ p,
      extract_predictions_from_log [spawn_event "d1" "HOSTILE"; zero_zero_event]
      = Ok [p]
      ∧ threat_score p = PNum 0 ∧ scored p = true.
Proof.
  split; [reflexivity |]. split; [reflexivity |]. split; [discriminate |].
  eexists. split; [reflexivity |]. split; reflexivity.
Qed.

(** ** The scenarios of the specification, evaluated *)

Example small_log_predictions :
  extract_predictions_from_log small_log
  = Ok [Prediction (PStr "d1") (PStr "HOSTILE") "HOSTILE" (PNum 75)
          (PStr "CIVIL") (PNum (95 # 100)) (PNum 3);
        Prediction (PStr "d1") (PStr "HOSTILE") "CIVIL" (PNum 20)
          (PStr "civil") (PNum (8 # 10)) (PNum 0)].
Proof. reflexivity. Qed.

Example civil_fp_rate_boundary :
  ∃ m, compute_metrics ten_civil_predictions = Ok m
    ∧ m !! "civil_fp_rate" = Some (3 # 10)
    ∧ m !! "total_civil_samples" = Some 10.
Proof. eexists. split; [reflexivity |]. vm_compute. done. Qed.

Example five_trials_third_fails_run :
  let run := run_auto_tune (G:=Z) five_trials_third_fails true 42 no_files in
  run.2 = Completed
  ∧ trial_indices (history run.1) = [1; 2; 4; 5]%nat
  ∧ rng run.1 = Nat.iter 5 next_rng (Random 42)
  ∧ RUNTIME_PARAMS_FILE (fs run.1) = None.
Proof. vm_compute. done. Qed.

(** * Further properties of the evaluator *)

(** ** Keys of the dictionaries *)

Lemma key_eqb_sym a b : key_eqb a b = key_eqb b a.
Proof.
  destruct a, b; cbn; try done.
  - apply eq_true_iff_eq. rewrite !Qeq_bool_iff. split; intros; by symmetry.
  - apply String.eqb_sym.
Qed.

Lemma key_eqb_trans a b c :
  key_eqb a b = true → key_eqb b c = key_eqb a c.
Proof.
  destruct a, b; cbn; try done.
  - intros Hab%Qeq_bool_iff. destruct c; cbn; try done.
    apply eq_true_iff_eq. rewrite !Qeq_bool_iff. rewrite Hab. done.
  - intros Hab%String.eqb_eq. by subst.
Qed.

Lemma kdict_find_congr {V} (d : kdict V) k k' :
  key_eqb k k' = true → kdict_find d k = kdict_find d k'.
Proof.
  intros Hk. induction d as [| [k0 v0] d IH]; cbn; [done |].
  rewrite (key_eqb_sym k0 k), (key_eqb_sym k0 k').
  rewrite <- (key_eqb_trans _ _ k0 Hk) at 1.
  rewrite IH. by rewrite (key_eqb_sym k' k0).
Qed.

Lemma kdict_find_set_eq {V} (d : kdict V) k k' v :
  key_eqb k k' = true → kdict_find (kdict_set d k v) k' = Some v.
Proof.
  intros Hk. induction d as [| [k0 v0] d IH]; cbn.
  - by rewrite Hk.
  - destruct (key_eqb k0 k) eqn:E; cbn.
    + by rewrite <- (key_eqb_trans _ _ k' E), Hk.
    + rewrite (key_eqb_sym k0 k'), <- (key_eqb_trans k' k k0).
      * rewrite (key_eqb_sym k k0), E. exact IH.
      * by rewrite key_eqb_sym.
Qed.

Lemma kdict_find_set_ne {V} (d : kdict V) k k' v :
  key_eqb k k' = false → kdict_find (kdict_set d k v) k' = kdict_find d k'.
Proof.
  intros Hk. induction d as [| [k0 v0] d IH]; cbn.
  - by rewrite Hk.
  - destruct (key_eqb k0 k) eqn:E; cbn.
    + by rewrite <- (key_eqb_trans _ _ k' E), Hk.
    + by rewrite IH.
Qed.

(** ** The [defaultdict] of confusion counts *)

Lemma entry_dd_get cs k :
  (dd_get cs k).1 = entry cs k
  ∧ ∀ k', entry (dd_get cs k).2 k' = entry cs k'.
Proof.
  unfold dd_get, entry. destruct (kdict_find cs k) as [c |] eqn:Hfind; cbn;
    [done |].
  split; [done |]. intros k'. destruct (key_eqb k k') eqn:E.
  - rewrite (kdict_find_set_eq _ _ _ _ E).
    by rewrite <- (kdict_find_congr cs _ _ E), Hfind.
  - by rewrite (kdict_find_set_ne _ _ _ _ E).
Qed.

(** [class_stats[k][f] += 1] changes the entry of [k], and of the keys
    equal to it, and no other. *)
Lemma entry_dd_bump g cs k k' :
  entry (dd_bump g cs k) k'
  = if key_eqb k k' then g (entry cs k) else entry cs k'.
Proof.
  unfold dd_bump. destruct (entry_dd_get cs k) as [H1 H2].
  destruct (dd_get cs k) as [c cs1]. cbn [fst snd] in *. subst c.
  unfold entry at 1. destruct (key_eqb k k') eqn:E.
  - by rewrite (kdict_find_set_eq _ _ _ _ E).
  - rewrite (kdict_find_set_ne _ _ _ _ E). apply H2.
Qed.

Lemma as_key_eq_str v k label :
  as_key v = Ok k → key_eqb k (KStr label) = py_eq_str v label.
Proof. destruct v; cbn; by intros [= <-]. Qed.

Lemma py_eq_str_inv v s : py_eq_str v s = true → v = PStr s.
Proof. destruct v; cbn; try done. by intros ->%String.eqb_eq. Qed.

Lemma entry_congr cs k k' : key_eqb k k' = true → entry cs k = entry cs k'.
Proof. intros Hk. unfold entry. by rewrite (kdict_find_congr cs _ _ Hk). Qed.

(** One step of the counting loop, seen from the entry of a label. *)
Lemma class_stats_step_entry cs pred cs' label :
  class_stats_step cs pred = Ok cs' →
  let c := entry cs (KStr label) in
  let c' := entry cs' (KStr label) in
  TP c' = (TP c + count_if (λ p, is_label label p
                              && String.eqb (pred_label p) label) [pred])%nat
  ∧ FN c' = (FN c + count_if (λ p, is_label label p
                                && negb (String.eqb (pred_label p) label)) [pred])%nat
  ∧ FP c' = (FP c + count_if (λ p, String.eqb (pred_label p) label
                                && negb (is_label label p)) [pred])%nat.
Proof.
  unfold class_stats_step, is_label. cbn [count_if].
  destruct (py_eq_str (true_label pred) (pred_label pred)) eqn:Heq;
    destruct (as_key (true_label pred)) as [k |] eqn:Hk;
    cbn [mbind result_bind]; try done; intros [= <-]; cbn zeta;
    pose proof (as_key_eq_str _ _ label Hk) as Hkl;
    pose proof (as_key_eq_str _ _ (pred_label pred) Hk) as Hkp;
    rewrite !entry_dd_bump; cbn [key_eqb]; rewrite ?Hkl, ?Hkp, ?Heq.
  - apply py_eq_str_inv in Heq as Hv. rewrite Hv in *. cbn [py_eq_str] in *.
    destruct (String.eqb (pred_label pred) label) eqn:E; cbn.
    + rewrite (entry_congr cs _ _ Hkl). repeat split; lia.
    + repeat split; lia.
  - destruct (py_eq_str (true_label pred) label) eqn:E1;
      destruct (String.eqb (pred_label pred) label) eqn:E2; cbn.
    + apply String.eqb_eq in E2. congruence.
    + rewrite (entry_congr cs _ _ Hkl). repeat split; lia.
    + apply String.eqb_eq in E2. rewrite E2. repeat split; lia.
    + repeat split; lia.
Qed.

(** The counting loop, seen from the entry of a label. *)
Lemma class_stats_loop_entry predictions label : ∀ cs cs',
  foldM class_stats_step cs predictions = Ok cs' →
  TP (entry cs' (KStr label))
  = (TP (entry cs (KStr label)) + label_TP label predictions)%nat
  ∧ FN (entry cs' (KStr label))
    = (FN (entry cs (KStr label)) + label_FN label predictions)%nat
  ∧ FP (entry cs' (KStr label))
    = (FP (entry cs (KStr label)) + label_FP label predictions)%nat.
Proof.
  unfold label_TP, label_FN, label_FP.
  induction predictions as [| pred predictions IH]; intros cs cs';
    cbn [foldM].
  - intros [= <-]. cbn. lia.
  - destruct (class_stats_step cs pred) as [cs1 |] eqn:Hstep;
      cbn [mbind result_bind]; [| done].
    intros Hrest. apply IH in Hrest.
    apply (class_stats_step_entry _ _ _ label) in Hstep.
    cbn [count_if] in *. lia.
Qed.


Lemma count_correct_count l : count_correct l = correct_count l.
Proof.
  unfold count_correct, correct_count.
  induction l as [| p l IH]; [done |]. rewrite filter_cons. cbn [count_if].
  destruct (decide _) as [Hp | Hp].
  - rewrite Hp. cbn. by rewrite IH.
  - apply not_true_is_false in Hp. rewrite Hp. exact IH.
Qed.

Lemma count_civil_counts l :
  count_civil l = (civil_as_hostile l, civil_total l).
Proof.
  unfold count_civil, civil_as_hostile, civil_total, is_label.
  enough (Hgen : ∀ a b,
    fold_left
      (λ '(civil_fp_count, total_civil) pred,
         if py_eq_str (true_label pred) "CIVIL" then
           (if String.eqb (pred_label pred) "HOSTILE"
            then S civil_fp_count else civil_fp_count,
            S total_civil)
         else (civil_fp_count, total_civil))
      l (a, b)
    = ((a + count_if (λ p, py_eq_str (true_label p) "CIVIL"
                           && String.eqb (pred_label p) "HOSTILE") l)%nat,
       (b + count_if (λ p, py_eq_str (true_label p) "CIVIL") l)%nat))
    by (rewrite Hgen; done).
  induction l as [| p l IH]; intros a b; cbn [fold_left count_if].
  - f_equal; lia.
  - destruct (py_eq_str (true_label p) "CIVIL");
      destruct (String.eqb (pred_label p) "HOSTILE"); cbn [andb];
      rewrite IH; f_equal; lia.
Qed.

Lemma label_metrics_step_counts l cs m label :
  holds_counts cs l →
  holds_counts (label_metrics_step (cs, m) label).1 l
  ∧ (label_metrics_step (cs, m) label).2 = label_entries l m label.
Proof.
  intros Hcs. unfold label_metrics_step. cbn [fst snd].
  destruct (entry_dd_get cs (KStr label)) as [H1 H2].
  destruct (dd_get cs (KStr label)) as [stats cs1]. cbn [fst snd] in *.
  split.
  - intros label'. rewrite H2. apply Hcs.
  - subst stats. cbv zeta. rewrite !Hcs. reflexivity.
Qed.

Lemma label_metrics_fold_counts l labels : ∀ cs m,
  holds_counts cs l →
  holds_counts (fold_left label_metrics_step labels (cs, m)).1 l
  ∧ (fold_left label_metrics_step labels (cs, m)).2
    = fold_left (label_entries l) labels m.
Proof.
  induction labels as [| label labels IH]; intros cs m Hcs; [done |].
  cbn [fold_left].
  destruct (label_metrics_step_counts l cs m label Hcs) as [H1 H2].
  destruct (label_metrics_step (cs, m) label) as [cs1 m1].
  cbn [fst snd] in *. subst m1. by apply IH.
Qed.

Lemma class_stats_of_holds_counts l cs :
  class_stats_of l = Ok cs → holds_counts cs l.
Proof.
  intros Hcs label.
  destruct (class_stats_loop_entry l label [] cs Hcs) as (Htp & Hfn & Hfp).
  destruct (entry cs (KStr label)) as [tp fp fn]. cbn in *. by subst.
Qed.

(** X1. The metrics of a non-empty list of predictions with hashable
    true labels are, entry by entry, the direct counts and their ratios:
    per label the predictions of that true and predicted label (TP), of
    that true label predicted otherwise (FN), and predicted that label
    with another true label (FP). *)
Theorem compute_metrics_by_counts :
  ∀ predictions : list prediction,
    Forall (λ p, hashable (true_label p)) predictions →
    predictions ≠ [] →
    compute_metrics predictions = Ok (metrics_by_counts predictions).
Proof.
  intros l Hh Hne. unfold compute_metrics.
  destruct l as [| p0 l0]; [done |]. set (l := p0 :: l0) in *.
  destruct (class_stats_loop_total l [] Hh) as [cs Hcs].
  change (foldM class_stats_step [] l) with (class_stats_of l) in Hcs.
  rewrite Hcs. cbn [mbind result_bind].
  pose proof (class_stats_of_holds_counts l cs Hcs) as Hcounts.
  rewrite count_correct_count.
  match goal with
  | |- context [fold_left label_metrics_step LABELS (cs, ?m0)] =>
      destruct (label_metrics_fold_counts l LABELS cs m0 Hcounts) as [H1 H2];
      destruct (fold_left label_metrics_step LABELS (cs, m0)) as [cs1 m1]
  end.
  cbn [fst snd] in *. subst m1.
  destruct (entry_dd_get cs1 (KStr "HOSTILE")) as [H3 _].
  destruct (dd_get cs1 (KStr "HOSTILE")) as [hostile_stats cs2].
  cbn [fst] in H3. rewrite H3, H1, count_civil_counts. done.
Qed.

Lemma compute_metrics_by_counts_witness :
  compute_metrics four_predictions = Ok (metrics_by_counts four_predictions).
Proof.
  apply (compute_metrics_by_counts four_predictions).
  - repeat constructor.
  - discriminate.
Defined.


(** ** Reading the metrics *)

Ltac eval_keys :=
  repeat match goal with
         | |- context [?a +:+ ?b] =>
             let s := eval vm_compute in (a +:+ b) in
             change (a +:+ b) with s
         end.

(** The value of a key of [metrics_by_counts]. *)
Ltac metrics_lookup :=
  unfold metric_get, metrics_by_counts, LABELS; cbn [fold_left];
  unfold label_entries; eval_keys;
  repeat (rewrite lookup_insert_ne by done);
  first [rewrite lookup_insert_eq | rewrite lookup_singleton_eq];
  cbn [default].

Lemma metrics_accounting_fields l :
  metric_get (metrics_by_counts l) "total_predictions" = Qnat (length l)
  ∧ metric_get (metrics_by_counts l) "correct" = Qnat (correct_count l)
  ∧ metric_get (metrics_by_counts l) "incorrect"
    = Qnat (length l - correct_count l)
  ∧ metric_get (metrics_by_counts l) "accuracy"
    = ratio (correct_count l) (length l).
Proof. repeat split; by metrics_lookup. Qed.


(** What [compute_metrics] returns when it returns. *)
Lemma compute_metrics_ok l m :
  compute_metrics l = Ok m →
  m = match l with [] => ∅ | _ => metrics_by_counts l end.
Proof.
  destruct l as [| p0 l0]; [by intros [= <-] |]. set (l := p0 :: l0).
  change (compute_metrics l = Ok m → m = metrics_by_counts l).
  intros Hm.
  assert (∃ cs, class_stats_of l = Ok cs) as [cs Hcs].
  { unfold compute_metrics in Hm. subst l.
    destruct (class_stats_of (p0 :: l0)) as [cs |]; [by eexists | done]. }
  enough (compute_metrics l = Ok (metrics_by_counts l)) by congruence.
  clear Hm. unfold compute_metrics. subst l.
  set (l := p0 :: l0) in *. rewrite Hcs. cbn [mbind result_bind].
  pose proof (class_stats_of_holds_counts l cs Hcs) as Hcounts.
  rewrite count_correct_count.
  match goal with
  | |- context [fold_left label_metrics_step LABELS (cs, ?m0)] =>
      destruct (label_metrics_fold_counts l LABELS cs m0 Hcounts) as [H1 H2];
      destruct (fold_left label_metrics_step LABELS (cs, m0)) as [cs1 m1]
  end.
  cbn [fst snd] in *. subst m1.
  destruct (entry_dd_get cs1 (KStr "HOSTILE")) as [H3 _].
  destruct (dd_get cs1 (KStr "HOSTILE")) as [hostile_stats cs2].
  cbn [fst] in H3. rewrite H3, H1, count_civil_counts. done.
Qed.

Lemma count_if_le_length {A} (c : A → bool) l : (count_if c l ≤ length l)%nat.
Proof. induction l as [| x l IH]; cbn; [done |]. destruct (c x); lia. Qed.

Lemma Qnat_le (a b : nat) : (a ≤ b)%nat → Qnat a <= Qnat b.
Proof. intros. unfold Qnat. rewrite <- Zle_Qle. lia. Qed.

Lemma Qnat_plus (a b : nat) : Qnat (a + b) == Qnat a + Qnat b.
Proof. unfold Qnat. rewrite Nat2Z.inj_add, inject_Z_plus. reflexivity. Qed.

Lemma Qnat_pos (a : nat) : (0 < a)%nat → 0 < Qnat a.
Proof.
  intros. unfold Qnat. replace 0 with (inject_Z 0) by done.
  rewrite <- Zlt_Qlt. lia.
Qed.

Lemma ratio_nonneg (a b : nat) : 0 <= ratio a b.
Proof.
  unfold ratio. destruct (Nat.ltb_spec 0 b); [| apply Qle_refl].
  apply Qle_shift_div_l; [by apply Qnat_pos |].
  rewrite Qmult_0_l. apply (Qnat_le 0). lia.
Qed.

Lemma ratio_le_1 (a b : nat) : (a ≤ b)%nat → ratio a b <= 1.
Proof.
  intros Hab. unfold ratio. destruct (Nat.ltb_spec 0 b); [| done].
  apply Qle_shift_div_r; [by apply Qnat_pos |].
  rewrite Qmult_1_l. by apply Qnat_le.
Qed.

Lemma ratio_mul (a b : nat) : (a ≤ b)%nat → ratio a b * Qnat b == Qnat a.
Proof.
  intros Hab. unfold ratio. destruct (Nat.ltb_spec 0 b) as [Hb | Hb].
  - field. apply Qnat_pos in Hb. lra.
  - assert (a = 0%nat) as -> by lia. assert (b = 0%nat) as -> by lia.
    reflexivity.
Qed.

Lemma f1_of_bounds (p r : Q) :
  0 <= p → p <= 1 → 0 <= r → r <= 1 → 0 <= f1_of p r ∧ f1_of p r <= 1.
Proof.
  intros Hp0 Hp1 Hr0 Hr1. unfold f1_of, Qlt_bool.
  destruct (Qle_bool (p + r) 0) eqn:E; cbn [negb]; [split; lra |].
  assert (Hpos : 0 < p + r).
  { apply Qnot_le_lt. intros Hle%Qle_bool_iff. congruence. }
  assert (0 <= p * r) by (by apply Qmult_le_0_compat).
  assert (0 <= p * (1 - r)) by (apply Qmult_le_0_compat; lra).
  assert (0 <= r * (1 - p)) by (apply Qmult_le_0_compat; lra).
  split.
  - apply Qle_shift_div_l; [done |]. lra.
  - apply Qle_shift_div_r; [done |]. lra.
Qed.

Lemma label_TP_le label l :
  (label_TP label l ≤ label_TP label l + label_FP label l)%nat
  ∧ (label_TP label l ≤ label_TP label l + label_FN label l)%nat.
Proof. lia. Qed.

Lemma rate_bounds_by_counts l k :
  k ∈ RATE_KEYS →
  0 <= metric_get (metrics_by_counts l) k
  ∧ metric_get (metrics_by_counts l) k <= 1.
Proof.
  unfold RATE_KEYS. intros Hk.
  repeat (apply elem_of_cons in Hk as [-> | Hk]);
    [.. | by apply elem_of_nil in Hk];
    metrics_lookup;
    try (apply f1_of_bounds; unfold label_precision, label_recall);
    repeat split;
    try apply ratio_nonneg; apply ratio_le_1;
    try apply count_if_le_length; try lia.
  apply count_if_mono. intros p. by intros [? _]%andb_true_iff.
Qed.

(** X2. Whenever [compute_metrics] returns, every rate it reports
    (accuracy, FP_rate, FN_rate, civil_fp_rate and the precision, recall
    and F1 of the three labels) lies between 0 and 1; a rate read from
    the empty result reads 0. *)
Theorem compute_metrics_rates_bounded :
  ∀ (predictions : list prediction) (m : gmap string Q) (k : string),
    compute_metrics predictions = Ok m →
    k ∈ RATE_KEYS →
    0 <= metric_get m k ∧ metric_get m k <= 1.
Proof.
  intros l m k Hm Hk. apply compute_metrics_ok in Hm as ->.
  destruct l; [done | by apply rate_bounds_by_counts].
Qed.

Lemma compute_metrics_rates_bounded_witness :
  0 <= metric_get (metrics_by_counts four_predictions) "HOSTILE_f1"
  ∧ metric_get (metrics_by_counts four_predictions) "HOSTILE_f1" <= 1.
Proof.
  apply (compute_metrics_rates_bounded four_predictions _ "HOSTILE_f1").
  - vm_compute. reflexivity.
  - unfold RATE_KEYS. repeat constructor.
Defined.


Lemma correct_count_le l : (correct_count l ≤ length l)%nat.
Proof. apply count_if_le_length. Qed.

Lemma Qnat_inj (a b : nat) : Qnat a == Qnat b → a = b.
Proof. unfold Qnat, Qeq. cbn. lia. Qed.

(** X3. Whenever [compute_metrics] returns: [total_predictions] is the
    number of predictions, [correct] the number of those whose predicted
    label equals the true one, and [correct] and [incorrect] add up to
    [total_predictions]; for a non-empty list [accuracy] is 1 exactly
    when no prediction is incorrect, and 0 exactly when none is
    correct. *)
Theorem compute_metrics_accounting :
  ∀ (predictions : list prediction) (m : gmap string Q),
    compute_metrics predictions = Ok m →
    metric_get m "total_predictions" = Qnat (length predictions)
    ∧ metric_get m "correct" = Qnat (correct_count predictions)
    ∧ metric_get m "correct" + metric_get m "incorrect"
      == metric_get m "total_predictions"
    ∧ (predictions ≠ [] →
       (metric_get m "accuracy" == 1 ↔ metric_get m "incorrect" == 0)
       ∧ (metric_get m "accuracy" == 0 ↔ metric_get m "correct" == 0)).
Proof.
  intros l m Hm. apply compute_metrics_ok in Hm as ->.
  destruct l as [| p0 l0]; [done |]. set (l := p0 :: l0).
  destruct (metrics_accounting_fields l) as (-> & -> & -> & ->).
  pose proof (correct_count_le l) as Hle.
  pose proof (ratio_mul _ _ Hle) as Hmul.
  assert (Hpos : 0 < Qnat (length l)) by (apply Qnat_pos; cbn; lia).
  split; [done |]. split; [done |]. split.
  { rewrite <- Qnat_plus.
    by replace (correct_count l + (length l - correct_count l))%nat
      with (length l) by lia. }
  intros _. split; split.
  - intros H1. rewrite H1, Qmult_1_l in Hmul. apply Qnat_inj in Hmul.
    rewrite Hmul. by replace (correct_count l - correct_count l)%nat
      with 0%nat by lia.
  - intros H0. apply (Qnat_inj _ 0) in H0.
    assert (Heq : correct_count l = length l) by lia.
    rewrite Heq in Hmul. rewrite Heq.
    apply (Qmult_inj_r _ _ (Qnat (length l))); [lra |].
    by rewrite Hmul, Qmult_1_l.
  - intros H0. by rewrite H0, Qmult_0_l in Hmul.
  - intros H0. rewrite H0 in Hmul.
    apply Qmult_integral in Hmul as [H | H]; [done | lra].
Qed.

Lemma compute_metrics_accounting_witness :
  let m := metrics_by_counts four_predictions in
  metric_get m "total_predictions" = Qnat (length four_predictions)
  ∧ metric_get m "correct" = Qnat (correct_count four_predictions)
  ∧ metric_get m "correct" + metric_get m "incorrect"
    == metric_get m "total_predictions"
  ∧ (four_predictions ≠ [] →
     (metric_get m "accuracy" == 1 ↔ metric_get m "incorrect" == 0)
     ∧ (metric_get m "accuracy" == 0 ↔ metric_get m "correct" == 0)).
Proof.
  apply (compute_metrics_accounting four_predictions).
  vm_compute. reflexivity.
Defined.

Lemma hostile_rate_fields l :
  metric_get (metrics_by_counts l) "FN_rate"
  = ratio (label_FN "HOSTILE" l) (label_TP "HOSTILE" l + label_FN "HOSTILE" l)
  ∧ metric_get (metrics_by_counts l) "HOSTILE_recall"
    = ratio (label_TP "HOSTILE" l) (label_TP "HOSTILE" l + label_FN "HOSTILE" l)
  ∧ metric_get (metrics_by_counts l) "HOSTILE_TP" = Qnat (label_TP "HOSTILE" l)
  ∧ metric_get (metrics_by_counts l) "HOSTILE_FN" = Qnat (label_FN "HOSTILE" l)
  ∧ metric_get (metrics_by_counts l) "HOSTILE_FP" = Qnat (label_FP "HOSTILE" l).
Proof. repeat split; by metrics_lookup. Qed.

Lemma ratio_complement (a b : nat) :
  ratio a (b + a) + ratio b (b + a) == (if (0 <? b + a)%nat then 1 else 0).
Proof.
  unfold ratio. destruct (Nat.ltb_spec 0 (b + a)) as [Hpos | Hpos]; [| done].
  apply Qnat_pos in Hpos. rewrite Qnat_plus in *. field. lra.
Qed.

(** X4. Whenever [compute_metrics] returns, [FN_rate] and
    [HOSTILE_recall] are complementary: they add up to 1 when some
    prediction has the true label HOSTILE, and both are 0 otherwise. *)
Theorem compute_metrics_fn_rate_complements_recall :
  ∀ (predictions : list prediction) (m : gmap string Q),
    compute_metrics predictions = Ok m →
    metric_get m "FN_rate" + metric_get m "HOSTILE_recall"
    == (if existsb (is_label "HOSTILE") predictions then 1 else 0)
    ∧ (existsb (is_label "HOSTILE") predictions = false →
       metric_get m "FN_rate" = 0 ∧ metric_get m "HOSTILE_recall" = 0).
Proof.
  intros l m Hm. apply compute_metrics_ok in Hm as ->.
  assert (Hex : (0 <? label_TP "HOSTILE" l + label_FN "HOSTILE" l)%nat
                = existsb (is_label "HOSTILE") l).
  { unfold label_TP, label_FN.
    rewrite (count_if_split (is_label "HOSTILE")
               (λ p, String.eqb (pred_label p) "HOSTILE") l).
    induction l as [| p l IH]; [done |]. cbn [count_if existsb].
    destruct (is_label "HOSTILE" p); [done | exact IH]. }
  destruct l as [| p0 l0]; [done |]. set (l := p0 :: l0) in *.
  destruct (hostile_rate_fields l) as (-> & -> & _).
  rewrite <- Hex. split; [apply ratio_complement |].
  unfold ratio. by intros ->.
Qed.

Lemma compute_metrics_fn_rate_complements_recall_witness :
  let m := metrics_by_counts four_predictions in
  metric_get m "FN_rate" + metric_get m "HOSTILE_recall"
  == (if existsb (is_label "HOSTILE") four_predictions then 1 else 0)
  ∧ (existsb (is_label "HOSTILE") four_predictions = false →
     metric_get m "FN_rate" = 0 ∧ metric_get m "HOSTILE_recall" = 0).
Proof.
  apply (compute_metrics_fn_rate_complements_recall four_predictions).
  vm_compute. reflexivity.
Defined.

Lemma civil_fields l :
  metric_get (metrics_by_counts l) "total_civil_samples" = Qnat (civil_total l)
  ∧ metric_get (metrics_by_counts l) "civil_fp_count" = Qnat (civil_as_hostile l)
  ∧ metric_get (metrics_by_counts l) "civil_fp_rate"
    = ratio (civil_as_hostile l) (civil_total l)
  ∧ metric_get (metrics_by_counts l) "CIVIL_TP" = Qnat (label_TP "CIVIL" l)
  ∧ metric_get (metrics_by_counts l) "CIVIL_FN" = Qnat (label_FN "CIVIL" l).
Proof. repeat split; by metrics_lookup. Qed.

Lemma is_label_exclusive a b p :
  a ≠ b → is_label a p = true → is_label b p = false.
Proof.
  unfold is_label. intros Hab Ha%py_eq_str_inv. rewrite Ha. cbn.
  by apply String.eqb_neq.
Qed.

(** X5. Whenever [compute_metrics] returns, the CIVIL counters of its
    second loop agree with the confusion counts of its first:
    [total_civil_samples] is [CIVIL_TP + CIVIL_FN], and [civil_fp_count]
    is at most [CIVIL_FN] and at most [HOSTILE_FP]. *)
Theorem compute_metrics_civil_counters :
  ∀ (predictions : list prediction) (m : gmap string Q),
    compute_metrics predictions = Ok m →
    metric_get m "total_civil_samples"
    == metric_get m "CIVIL_TP" + metric_get m "CIVIL_FN"
    ∧ metric_get m "civil_fp_count" <= metric_get m "CIVIL_FN"
    ∧ metric_get m "civil_fp_count" <= metric_get m "HOSTILE_FP".
Proof.
  intros l m Hm. apply compute_metrics_ok in Hm as ->.
  destruct l as [| p0 l0]; [done |]. set (l := p0 :: l0).
  destruct (civil_fields l) as (-> & -> & _ & -> & ->).
  destruct (hostile_rate_fields l) as (_ & _ & _ & _ & ->).
  split; [| split].
  - rewrite <- Qnat_plus. unfold label_TP, label_FN, civil_total.
    by rewrite count_if_split.
  - apply Qnat_le, count_if_mono. intros p [Hc Hh]%andb_true_iff.
    rewrite Hc. apply String.eqb_eq in Hh. by rewrite Hh.
  - apply Qnat_le, count_if_mono. intros p [Hc Hh]%andb_true_iff.
    rewrite Hh. by rewrite (is_label_exclusive "CIVIL" "HOSTILE" p).
Qed.

Lemma compute_metrics_civil_counters_witness :
  let m := metrics_by_counts four_predictions in
  metric_get m "total_civil_samples"
  == metric_get m "CIVIL_TP" + metric_get m "CIVIL_FN"
  ∧ metric_get m "civil_fp_count" <= metric_get m "CIVIL_FN"
  ∧ metric_get m "civil_fp_count" <= metric_get m "HOSTILE_FP".
Proof.
  apply (compute_metrics_civil_counters four_predictions).
  vm_compute. reflexivity.
Defined.


(** ** What extraction produces *)

Lemma foldM_invariant {S A} (f : S → A → result S) (P : S → Prop) l :
  (∀ s a s', P s → f s a = Ok s' → P s') →
  ∀ s s', P s → foldM f s l = Ok s' → P s'.
Proof.
  intros Hstep. induction l as [| a l IH]; intros s s' Hs; cbn [foldM].
  - by intros [= <-].
  - destruct (f s a) as [s1 |] eqn:Hf; cbn [mbind result_bind]; [| done].
    apply IH. by eapply Hstep.
Qed.

(** What a returned label tells about the arguments. *)
Lemma compute_pred_label_made ts cls cc label :
  compute_pred_label ts cls cc THREAT_ENGAGE_THRESHOLD
    CLASS_CONFIDENCE_THRESHOLD = Ok label →
  rule_made (Prediction PNone PNone label ts cls cc PNone).
Proof.
  unfold compute_pred_label, rule_made, scored, reaches, score_value, LABELS.
  cbn [pred_label threat_score classification].
  destruct ts as [| b | q | | |]; cbn [is_None py_ge mbind result_bind negb];
    try done.
  - destruct (truthy cls) eqn:Hcls.
    + destruct (normalized_is cls "CIVIL").
      * destruct cc; cbn; try done;
          repeat match goal with
                 | |- context [Qle_bool ?a ?b] => destruct (Qle_bool a b)
                 end; intros [= <-]; cbn; repeat split; try done; set_solver.
      * intros [= <-]. cbn. repeat split; try done; set_solver.
    + intros [= <-]. cbn. repeat split; try done; set_solver.
  - change (Qle_bool THREAT_ENGAGE_THRESHOLD (if b then 1 else 0))
      with (Qle_bool (inject_Z 70) (if b then 1 else 0)).
    destruct (Qle_bool (inject_Z 70) (if b then 1 else 0)) eqn:E.
    + intros [= <-]. cbn. repeat split; try done; set_solver.
    + destruct (truthy cls) eqn:Hcls.
      * destruct (normalized_is cls "CIVIL").
        -- destruct cc; cbn; try done;
             repeat match goal with
                    | |- context [Qle_bool ?a ?b] => destruct (Qle_bool a b)
                    end; intros [= <-]; cbn; repeat split; try done; set_solver.
        -- intros [= <-]. cbn. repeat split; try done; set_solver.
      * intros [= <-]. cbn. repeat split; try done; set_solver.
  - change (Qle_bool THREAT_ENGAGE_THRESHOLD q)
      with (Qle_bool (inject_Z 70) q).
    destruct (Qle_bool (inject_Z 70) q) eqn:E.
    + intros [= <-]. cbn. repeat split; try done; set_solver.
    + destruct (truthy cls) eqn:Hcls.
      * destruct (normalized_is cls "CIVIL").
        -- destruct cc; cbn; try done;
             repeat match goal with
                    | |- context [Qle_bool ?a ?b] => destruct (Qle_bool a b)
                    end; intros [= <-]; cbn; repeat split; try done; set_solver.
        -- intros [= <-]. cbn. repeat split; try done; set_solver.
      * intros [= <-]. cbn. repeat split; try done; set_solver.
Qed.


Lemma extract_predictions_step_spec dl preds event preds' :
  extract_predictions_step dl preds event = Ok preds' →
  (qualifies dl event = false ∧ preds' = preds)
  ∨ (qualifies dl event = true
     ∧ ∃ p, preds' = preds ++ [p] ∧ rule_made p
            ∧ drone_id p = dict_get event "drone_id").
Proof.
  unfold extract_predictions_step, qualifies.
  destruct (truthy (dict_get event "drone_id")); cbn [negb andb];
    [| intros [= <-]; by left].
  destruct (as_key (dict_get event "drone_id")) as [k |];
    cbn [mbind result_bind]; [| done].
  destruct (kdict_find dl k) as [spawn |]; [| intros [= <-]; by left].
  destruct (py_eq_str (dict_get event "event") "fused_track_update").
  - destruct (fused_class_confidence_field event) as [cc |];
      cbn [mbind result_bind]; [| done].
    destruct (compute_pred_label _ _ cc _ _) as [label |] eqn:Hlabel;
      cbn [mbind result_bind]; [| done].
    intros [= <-]. right. split; [done |]. eexists. split; [done |].
    split; [| done]. apply compute_pred_label_made in Hlabel. exact Hlabel.
  - destruct (py_eq_str (dict_get event "event") "threat_score_update").
    + destruct (compute_pred_label _ _ _ _ _) as [label |] eqn:Hlabel;
        cbn [mbind result_bind]; [| done].
      intros [= <-]. right. split; [done |]. eexists. split; [done |].
      split; [| done]. apply compute_pred_label_made in Hlabel. exact Hlabel.
    + intros [= <-]. by left.
Qed.

Lemma extract_predictions_loop dl events : ∀ preds preds',
  foldM (extract_predictions_step dl) preds events = Ok preds' →
  Forall rule_made preds →
  Forall rule_made preds'
  ∧ length preds' = (length preds + count_if (qualifies dl) events)%nat.
Proof.
  induction events as [| e events IH]; intros preds preds'; cbn [foldM].
  - intros [= <-] Hpreds. cbn. split; [done | lia].
  - destruct (extract_predictions_step dl preds e) as [preds1 |] eqn:Hstep;
      cbn [mbind result_bind]; [| done].
    intros Hrest Hpreds. cbn [count_if].
    apply extract_predictions_step_spec in Hstep
      as [[-> ->] | [-> (p & -> & Hp & _)]].
    + apply IH in Hrest as [H1 H2]; [| done]. split; [done | lia].
    + apply IH in Hrest as [H1 H2].
      * split; [done |]. rewrite H2, length_app. cbn. lia.
      * apply Forall_app. split; [done |]. by constructor.
Qed.

Lemma qualifies_nil event : qualifies [] event = false.
Proof.
  unfold qualifies. destruct (truthy _); [| done].
  by destruct (as_key _).
Qed.

(** X6. Every prediction [extract_predictions_from_log] returns was made
    by the decision rule with the default thresholds: its label is
    HOSTILE, CIVIL or UNKNOWN; its stored threat score is a number or
    None; it is HOSTILE exactly when that score is a number reaching 70;
    and it is never CIVIL when it has no classification (so never for a
    [threat_score_update] event). *)
Theorem extracted_predictions_rule_made :
  ∀ (events : list pydict) (predictions : list prediction),
    extract_predictions_from_log events = Ok predictions →
    Forall rule_made predictions.
Proof.
  intros events preds. unfold extract_predictions_from_log.
  destruct (extract_drone_labels events) as [dl |]; cbn [mbind result_bind];
    [| done].
  destruct dl as [| kv dl]; [by intros [= <-] |].
  intros Hloop. by apply extract_predictions_loop in Hloop as [H _].
Qed.

Lemma extracted_predictions_rule_made_witness :
  Forall rule_made
    [Prediction (PStr "d1") (PStr "HOSTILE") "HOSTILE" (PNum 75)
       (PStr "CIVIL") (PNum (95 # 100)) (PNum 3);
     Prediction (PStr "d1") (PStr "HOSTILE") "CIVIL" (PNum 20)
       (PStr "civil") (PNum (8 # 10)) (PNum 0)].
Proof.
  apply (extracted_predictions_rule_made small_log). reflexivity.
Defined.

(** X7. [extract_predictions_from_log] returns one prediction per update
    event ([fused_track_update] or [threat_score_update]) of a labelled
    drone, however many updates a drone has: their number is the number
    of such events in the log. *)
Theorem extracted_predictions_count :
  ∀ (events : list pydict) (drone_labels : kdict string)
    (predictions : list prediction),
    extract_drone_labels events = Ok drone_labels →
    extract_predictions_from_log events = Ok predictions →
    length predictions = count_if (qualifies drone_labels) events.
Proof.
  intros events dl preds Hdl. unfold extract_predictions_from_log.
  rewrite Hdl. cbn [mbind result_bind].
  destruct dl as [| kv dl].
  - intros [= <-]. symmetry. clear Hdl.
    induction events as [| e events IH]; [done |]. cbn [count_if].
    by rewrite qualifies_nil, IH.
  - intros Hloop. by apply extract_predictions_loop in Hloop as [_ H].
Qed.

Lemma extracted_predictions_count_witness :
  ∃ drone_labels predictions,
    extract_drone_labels busy_log = Ok drone_labels
    ∧ extract_predictions_from_log busy_log = Ok predictions
    ∧ length predictions = 6%nat
    ∧ length predictions = count_if (qualifies drone_labels) busy_log.
Proof.
  eexists _, _. split; [reflexivity |]. split; [reflexivity |].
  split; [reflexivity |].
  apply (extracted_predictions_count busy_log); reflexivity.
Defined.


(** ** The sweep on extracted predictions *)

Lemma rule_made_hostile_counts l :
  Forall rule_made l →
  label_TP "HOSTILE" l = hits "HOSTILE" 70 l
  ∧ label_FP "HOSTILE" l = false_alarms "HOSTILE" 70 l.
Proof.
  intros Hl. unfold label_TP, label_FP, hits, false_alarms.
  split; apply count_if_ext; eapply Forall_impl; [exact Hl | | exact Hl |];
    cbn; intros p (_ & _ & -> & _);
    destruct (scored p), (is_label "HOSTILE" p), (reaches 70 p); done.
Qed.

(** X8. On the predictions extracted from a log the threshold sweep for
    HOSTILE never raises, and its rung at threshold 70 repeats the
    primary rule: the precision of that rung is the HOSTILE precision
    [compute_metrics] reports for the same predictions.  The rung exists
    as soon as one prediction carries a threat score. *)
Theorem sweep_agrees_with_metrics_at_70 :
  ∀ (events : list pydict) (predictions : list prediction)
    (m : gmap string Q),
    extract_predictions_from_log events = Ok predictions →
    compute_metrics predictions = Ok m →
    ∃ d,
      compute_roc_pr_data predictions "HOSTILE" = Ok d
      ∧ (∀ pt, pt ∈ pr_points d → pr_threshold pt = 70%Z →
               precision pt = metric_get m "HOSTILE_precision")
      ∧ (existsb scored predictions = true →
         ∃ pt, pr_points d !! 14%nat = Some pt ∧ pr_threshold pt = 70%Z).
Proof.
  intros events l m Hl Hm.
  apply extracted_predictions_rule_made in Hl.
  apply compute_metrics_ok in Hm as ->.
  eexists. split.
  { apply compute_roc_pr_data_rungs. eapply Forall_impl; [exact Hl |].
    by intros p (_ & Hn & _). }
  destruct (existsb scored l) eqn:Hex; cbn [pr_points]; split.
  - intros pt (t & -> & _)%list_elem_of_fmap. cbn [pr_threshold precision pr_rung].
    intros ->. destruct l as [| p0 l0]; [done |]. set (l := p0 :: l0) in *.
    destruct (rule_made_hostile_counts l Hl) as [Htp Hfp].
    metrics_lookup. unfold label_precision. by rewrite Htp, Hfp.
  - intros _. eexists. split; reflexivity.
  - intros pt Hpt. by apply elem_of_nil in Hpt.
  - done.
Qed.

Lemma sweep_agrees_with_metrics_at_70_witness :
  ∃ predictions d,
    extract_predictions_from_log busy_log = Ok predictions
    ∧ compute_roc_pr_data predictions "HOSTILE" = Ok d
    ∧ (∀ pt, pt ∈ pr_points d → pr_threshold pt = 70%Z →
             precision pt
             = metric_get (metrics_by_counts predictions) "HOSTILE_precision")
    ∧ (existsb scored predictions = true →
       ∃ pt, pr_points d !! 14%nat = Some pt ∧ pr_threshold pt = 70%Z).
Proof.
  destruct (sweep_agrees_with_metrics_at_70 busy_log _
              (metrics_by_counts
                 (match extract_predictions_from_log busy_log with
                  | Ok l => l
                  | Raise _ => []
                  end)) eq_refl)
    as (d & Hd & H70 & Hex).
  { vm_compute. reflexivity. }
  eexists _, d. split; [reflexivity |]. split; [exact Hd |].
  split; [exact H70 | exact Hex].
Defined.


(** ** Spawn labels *)

Lemma recognized_label_in v label :
  recognized_label v = Some label → label ∈ LABELS.
Proof.
  unfold recognized_label. intros H%find_some. destruct H as [Hin _].
  by apply list_elem_of_In.
Qed.

Lemma extract_drone_labels_step_spec dl event dl' :
  extract_drone_labels_step dl event = Ok dl' →
  match spawn_label event with
  | None => dl' = dl
  | Some label =>
      label ∈ LABELS
      ∧ ∃ k, as_key (dict_get event "drone_id") = Ok k
             ∧ dl' = kdict_set dl k label
  end.
Proof.
  unfold extract_drone_labels_step, spawn_label.
  destruct (py_eq_str _ _); cbn [andb]; [| by intros [= <-]].
  destruct (truthy (dict_get event "drone_id")
            && truthy (dict_get event "true_label")); [| by intros [= <-]].
  destruct (recognized_label _) as [label |] eqn:Hl; [| by intros [= <-]].
  destruct (as_key _) as [k |]; cbn [mbind result_bind]; [| done].
  intros [= <-]. split; [by eapply recognized_label_in | by eexists].
Qed.

Lemma kdict_set_values {V} (P : V → Prop) (d : kdict V) k v :
  Forall (λ kv, P kv.2) d → P v → Forall (λ kv, P kv.2) (kdict_set d k v).
Proof.
  intros Hd Hv. induction Hd as [| [k0 v0] d H0 Hd IH]; cbn.
  - by repeat constructor.
  - destruct (key_eqb k0 k); constructor; done.
Qed.

Lemma extract_drone_labels_loop events : ∀ dl dl',
  foldM extract_drone_labels_step dl events = Ok dl' →
  Forall (λ kv, kv.2 ∈ LABELS) dl →
  Forall (λ kv, kv.2 ∈ LABELS) dl'
  ∧ ∀ k, kdict_find dl' k
         = match last_spawn events k with
           | Some label => Some label
           | None => kdict_find dl k
           end.
Proof.
  induction events as [| e events IH]; intros dl dl'; cbn [foldM last_spawn].
  - by intros [= <-].
  - destruct (extract_drone_labels_step dl e) as [dl1 |] eqn:Hstep;
      cbn [mbind result_bind]; [| done].
    intros Hrest Hdl. apply extract_drone_labels_step_spec in Hstep.
    destruct (spawn_label e) as [label |].
    + destruct Hstep as (Hlabel & k0 & Hk0 & ->). rewrite Hk0.
      apply IH in Hrest as [H1 H2];
        [| by apply (kdict_set_values (λ v, v ∈ LABELS))].
      split; [done |]. intros k. rewrite H2.
      destruct (last_spawn events k); [done |].
      destruct (key_eqb k0 k) eqn:E.
      * by apply kdict_find_set_eq.
      * by apply kdict_find_set_ne.
    + subst dl1. apply IH in Hrest as [H1 H2]; [| done].
      split; [done |]. intros k. rewrite H2.
      by destruct (last_spawn events k).
Qed.

(** X9. Whenever [extract_drone_labels] returns, every label it holds is
    HOSTILE, CIVIL or UNKNOWN, and the label of a drone is the one of its
    last spawn event with a recognized label: a later recognized spawn
    replaces an earlier one, a later unrecognized one does not. *)
Theorem extract_drone_labels_last_spawn :
  ∀ (events : list pydict) (drone_labels : kdict string),
    extract_drone_labels events = Ok drone_labels →
    Forall (λ kv, kv.2 ∈ LABELS) drone_labels
    ∧ ∀ k, kdict_find drone_labels k = last_spawn events k.
Proof.
  intros events dl Hdl.
  apply extract_drone_labels_loop in Hdl as [H1 H2]; [| done].
  split; [done |]. intros k. rewrite H2. by destruct (last_spawn events k).
Qed.

Lemma extract_drone_labels_last_spawn_witness :
  Forall (λ kv, kv.2 ∈ LABELS) [(KStr "d1", "HOSTILE"); (KStr "d2", "UNKNOWN")]
  ∧ ∀ k, kdict_find [(KStr "d1", "HOSTILE"); (KStr "d2", "UNKNOWN")] k
         = last_spawn respawn_log k.
Proof.
  apply (extract_drone_labels_last_spawn respawn_log). reflexivity.
Defined.


(** ** The threshold sweep for any label *)

Lemma mapM_score_of_numeric l :
  mapM score_of l
  = if forallb numeric l
    then Ok ((λ p, (score_value p, p)) <$> l) else Raise TypeError.
Proof.
  induction l as [| p l IH]; [done |]. cbn [mapM forallb fmap list_fmap].
  rewrite IH. unfold score_of, numeric, score_value.
  destruct (threat_score p); cbn; try done; by destruct (forallb _ l).
Qed.

Lemma forallb_perm {A} (f : A → bool) l l' :
  l ≡ₚ l' → forallb f l = forallb f l'.
Proof.
  induction 1; cbn; try congruence.
  - by destruct (f x), (f y).
Qed.

Lemma sweep_at_perm label s s' threshold :
  s ≡ₚ s' → sweep_at label s threshold = sweep_at label s' threshold.
Proof.
  intros Hs. rewrite !sweep_at_counts. f_equal; by apply count_if_perm.
Qed.

(** What [compute_roc_pr_data] returns, for any label: it raises only on
    a score that is neither None nor a number, and its points are those
    of the scored predictions taken in any order. *)
Lemma compute_roc_pr_data_unsorted l label :
  compute_roc_pr_data l label
  = if forallb numeric (filter (λ p, is_None (threat_score p) = false) l)
    then Ok (match scored_pairs l with
             | [] => RocPrData [] []
             | _ => RocPrData (roc_point_at label (scored_pairs l) <$> THRESHOLDS)
                      (pr_point_at label (scored_pairs l) <$> THRESHOLDS)
             end)
    else Raise TypeError.
Proof.
  unfold compute_roc_pr_data. rewrite mapM_score_of_numeric.
  destruct (forallb numeric _); [| done]. cbn [mbind result_bind].
  fold (scored_pairs l).
  pose proof (sorted_desc_perm (scored_pairs l)) as Hperm.
  destruct (sorted_desc (scored_pairs l)) as [| sp s] eqn:Hs.
  - apply Permutation_nil in Hperm. by rewrite Hperm.
  - destruct (scored_pairs l) as [| sp' s'] eqn:Hl.
    + symmetry in Hperm. by apply Permutation_nil in Hperm.
    + do 2 f_equal; apply list_fmap_ext; intros i t _;
        unfold roc_point_at, pr_point_at;
        by rewrite (sweep_at_perm label _ _ t Hperm).
Qed.

Lemma scored_pairs_perm l l' : l ≡ₚ l' → scored_pairs l ≡ₚ scored_pairs l'.
Proof. intros Hl. unfold scored_pairs. by rewrite Hl. Qed.

(** X10. [compute_roc_pr_data] does not depend on the order of the
    predictions: on two lists that are permutations of each other it
    returns the same points, or raises on both. *)
Theorem compute_roc_pr_data_order_independent :
  ∀ (l l' : list prediction) (label : string),
    l ≡ₚ l' →
    compute_roc_pr_data l label = compute_roc_pr_data l' label.
Proof.
  intros l l' label Hl. rewrite !compute_roc_pr_data_unsorted.
  assert (Hf : filter (λ p, is_None (threat_score p) = false) l
               ≡ₚ filter (λ p, is_None (threat_score p) = false) l')
    by (by rewrite Hl).
  rewrite (forallb_perm _ _ _ Hf).
  destruct (forallb numeric _); [| done]. f_equal.
  pose proof (scored_pairs_perm l l' Hl) as Hp.
  destruct (scored_pairs l) as [| sp s] eqn:Hs.
  - apply Permutation_nil in Hp. by rewrite Hp.
  - destruct (scored_pairs l') as [| sp' s'] eqn:Hs'.
    + symmetry in Hp. by apply Permutation_nil in Hp.
    + f_equal; apply list_fmap_ext; intros i t _;
        unfold roc_point_at, pr_point_at;
        by rewrite (sweep_at_perm label _ _ t Hp).
Qed.

Lemma compute_roc_pr_data_order_independent_witness :
  compute_roc_pr_data three_predictions "HOSTILE"
  = compute_roc_pr_data (reverse three_predictions) "HOSTILE".
Proof.
  apply (compute_roc_pr_data_order_independent three_predictions).
  symmetry. apply reverse_Permutation.
Defined.


(** The points [compute_roc_pr_data] returns are the rungs of one list
    of scored predictions over the ladder, or none. *)
Lemma compute_roc_pr_data_shape l label d :
  compute_roc_pr_data l label = Ok d →
  ∃ ths,
    roc_points d = roc_point_at label (scored_pairs l) <$> ths
    ∧ pr_points d = pr_point_at label (scored_pairs l) <$> ths
    ∧ (ths = [] ∨ ths = THRESHOLDS).
Proof.
  rewrite compute_roc_pr_data_unsorted.
  destruct (forallb numeric _); [| done]. intros [= <-].
  destruct (scored_pairs l); [exists [] | exists THRESHOLDS]; auto.
Qed.

Lemma ratio_zero (b : nat) : ratio 0 b == 0.
Proof.
  unfold ratio. destruct (0 <? b)%nat; [| done].
  unfold Qnat, Qdiv. cbn. by rewrite Qmult_0_l.
Qed.

Lemma count_if_false {A} (c : A → bool) l :
  (∀ x, c x = false) → count_if c l = 0%nat.
Proof.
  intros Hc. induction l as [| x l IH]; [done |]. cbn. by rewrite Hc, IH.
Qed.

(** X11. For a label other than HOSTILE and UNKNOWN the sweep is
    degenerate: it only ever predicts HOSTILE or UNKNOWN, so every point
    it returns has TPR, FPR, precision and recall 0. *)
Theorem compute_roc_pr_data_other_label_zero :
  ∀ (l : list prediction) (label : string) (d : roc_pr_data),
    label ≠ "HOSTILE" → label ≠ "UNKNOWN" →
    compute_roc_pr_data l label = Ok d →
    Forall (λ pt, tpr pt == 0 ∧ fpr pt == 0) (roc_points d)
    ∧ Forall (λ pt, precision pt == 0 ∧ recall pt == 0) (pr_points d).
Proof.
  intros l label d Hh Hu Hd.
  apply compute_roc_pr_data_shape in Hd as (ths & -> & -> & _).
  assert (Hzero : ∀ t,
    s_tp (sweep_at label (scored_pairs l) t) = 0%nat
    ∧ s_fp (sweep_at label (scored_pairs l) t) = 0%nat).
  { intros t. rewrite sweep_at_counts. cbn [s_tp s_fp].
    split; apply count_if_false; intros sp;
      destruct (Qle_bool (inject_Z t) sp.1);
      (rewrite (proj2 (String.eqb_neq _ _)); [by rewrite andb_false_r |]);
      congruence. }
  split; apply Forall_fmap, Forall_forall; intros t _; cbn;
    destruct (Hzero t) as [-> ->]; split; apply ratio_zero.
Qed.

Lemma compute_roc_pr_data_other_label_zero_witness :
  ∃ d, compute_roc_pr_data three_predictions "CIVIL" = Ok d
    ∧ length (roc_points d) = 21%nat
    ∧ Forall (λ pt, tpr pt == 0 ∧ fpr pt == 0) (roc_points d)
    ∧ Forall (λ pt, precision pt == 0 ∧ recall pt == 0) (pr_points d).
Proof.
  eexists. split; [reflexivity |]. split; [reflexivity |].
  apply (compute_roc_pr_data_other_label_zero three_predictions "CIVIL");
    [discriminate | discriminate | reflexivity].
Defined.

(** X12. Whenever [compute_roc_pr_data] returns, for any label: the ROC
    points and the PR points come in pairs with the same threshold, the
    recall of a PR point is the TPR of its ROC point, and TPR, FPR and
    precision all lie in [0, 1]. *)
Theorem compute_roc_pr_data_points_paired :
  ∀ (l : list prediction) (label : string) (d : roc_pr_data),
    compute_roc_pr_data l label = Ok d →
    Forall2 (λ r p, roc_threshold r = pr_threshold p ∧ recall p = tpr r)
      (roc_points d) (pr_points d)
    ∧ Forall (λ r, 0 <= tpr r ∧ tpr r <= 1 ∧ 0 <= fpr r ∧ fpr r <= 1)
        (roc_points d)
    ∧ Forall (λ p, 0 <= precision p ∧ precision p <= 1) (pr_points d).
Proof.
  intros l label d Hd.
  apply compute_roc_pr_data_shape in Hd as (ths & -> & -> & _).
  split; [| split].
  - apply Forall2_fmap, Forall_Forall2_diag, Forall_forall. by intros t _.
  - apply Forall_fmap, Forall_forall. intros t _. cbn.
    repeat split; try apply ratio_nonneg; apply ratio_le_1; lia.
  - apply Forall_fmap, Forall_forall. intros t _. cbn.
    split; [apply ratio_nonneg | apply ratio_le_1; lia].
Qed.

Lemma compute_roc_pr_data_points_paired_witness :
  ∃ d, compute_roc_pr_data three_predictions "HOSTILE" = Ok d
    ∧ Forall2 (λ r p, roc_threshold r = pr_threshold p ∧ recall p = tpr r)
        (roc_points d) (pr_points d)
    ∧ Forall (λ r, 0 <= tpr r ∧ tpr r <= 1 ∧ 0 <= fpr r ∧ fpr r <= 1)
        (roc_points d)
    ∧ Forall (λ p, 0 <= precision p ∧ precision p <= 1) (pr_points d).
Proof.
  eexists. split; [reflexivity |].
  apply (compute_roc_pr_data_points_paired three_predictions "HOSTILE").
  reflexivity.
Defined.


(** For UNKNOWN a prediction counts as predicted when its score stays
    below the threshold: the counts of one rung never fall at a later
    one, while their denominators stay the same. *)
Lemma sweep_at_unknown_mono s (t t' : Z) :
  (t ≤ t')%Z →
  let c := sweep_at "UNKNOWN" s t in
  let c' := sweep_at "UNKNOWN" s t' in
  (s_tp c ≤ s_tp c')%nat ∧ (s_fp c ≤ s_fp c')%nat
  ∧ (s_tp c + s_fn c = s_tp c' + s_fn c')%nat
  ∧ (s_fp c + s_tn c = s_fp c' + s_tn c')%nat.
Proof.
  intros Ht. cbn zeta. rewrite !sweep_at_counts. cbn [s_tp s_fp s_fn s_tn].
  rewrite !count_if_split.
  assert (Himp : ∀ sp : Q * prediction,
    String.eqb (if Qle_bool (inject_Z t) sp.1 then "HOSTILE" else "UNKNOWN")
      "UNKNOWN" = true →
    String.eqb (if Qle_bool (inject_Z t') sp.1 then "HOSTILE" else "UNKNOWN")
      "UNKNOWN" = true).
  { intros sp. destruct (Qle_bool (inject_Z t') sp.1) eqn:E'; [| done].
    apply Qle_bool_iff in E'.
    assert (E : Qle_bool (inject_Z t) sp.1 = true).
    { apply Qle_bool_iff. eapply Qle_trans; [| exact E'].
      by rewrite <- Zle_Qle. }
    by rewrite E. }
  repeat split; try done; apply count_if_mono; intros sp;
    rewrite !andb_true_iff; intros [H1 H2]; split; auto.
Qed.

Lemma ratio_mono_same (a a' b b' : nat) :
  (a ≤ a')%nat → b = b' → ratio a b <= ratio a' b'.
Proof. intros Ha ->. by apply ratio_mono. Qed.

(** X13. For the label UNKNOWN the curve runs the other way: whenever
    [compute_roc_pr_data] returns, its TPR and FPR sequences never fall
    as the threshold rises. *)
Theorem compute_roc_pr_data_unknown_non_decreasing :
  ∀ (l : list prediction) (d : roc_pr_data),
    compute_roc_pr_data l "UNKNOWN" = Ok d →
    non_decreasing (tpr <$> roc_points d)
    ∧ non_decreasing (fpr <$> roc_points d).
Proof.
  intros l d Hd.
  apply compute_roc_pr_data_shape in Hd as (ths & -> & _ & [-> | ->]).
  { split; intros i j x y _ Hx; done. }
  split; intros i j x y Hij; rewrite <- !list_fmap_compose, !list_lookup_fmap;
    intros (ti & Hi & ->)%fmap_Some (tj & Hj & ->)%fmap_Some;
    apply THRESHOLDS_lookup in Hi as ->; apply THRESHOLDS_lookup in Hj as ->;
    cbn;
    destruct (sweep_at_unknown_mono (scored_pairs l)
                (Z.of_nat i * 5) (Z.of_nat j * 5) ltac:(lia))
      as (Htp & Hfp & Hpos & Hneg);
    by apply ratio_mono_same.
Qed.

Lemma compute_roc_pr_data_unknown_non_decreasing_witness :
  ∃ d, compute_roc_pr_data three_predictions "UNKNOWN" = Ok d
    ∧ length (roc_points d) = 21%nat
    ∧ non_decreasing (tpr <$> roc_points d)
    ∧ non_decreasing (fpr <$> roc_points d).
Proof.
  eexists. split; [reflexivity |]. split; [reflexivity |].
  apply (compute_roc_pr_data_unknown_non_decreasing three_predictions).
  reflexivity.
Defined.


(** * Further properties of the tuner *)

(** ** Keys of the metrics artifact *)

Lemma split_nonempty sep s : split sep s ≠ [].
Proof.
  destruct s as [| c s]; cbn; [done |].
  destruct (Ascii.eqb c sep); [done |]. by destruct (split sep s).
Qed.

Lemma split_app_sep sep s t :
  split sep (s +:+ String sep t) = split sep s ++ split sep t.
Proof.
  induction s as [| c s IH].
  - change (EmptyString +:+ String sep t) with (String sep t).
    cbn. by rewrite Ascii.eqb_refl.
  - change (String c s +:+ String sep t) with (String c (s +:+ String sep t)).
    cbn [split]. destruct (Ascii.eqb c sep); [by rewrite IH |].
    rewrite IH. pose proof (split_nonempty sep s).
    by destruct (split sep s).
Qed.

Lemma join_empty_cons sep l :
  l ≠ [] → join sep (EmptyString :: l) = String sep (join sep l).
Proof. by destruct l. Qed.

Lemma join_push_char sep c l :
  l ≠ [] →
  join sep match l with
           | w :: ws => String c w :: ws
           | [] => [String c EmptyString]
           end
  = String c (join sep l).
Proof. destruct l as [| w [| w' ws]]; done. Qed.

Lemma join_split sep s : join sep (split sep s) = s.
Proof.
  induction s as [| c s IH]; [done |]. cbn [split].
  pose proof (split_nonempty sep s) as Hne.
  destruct (Ascii.eqb_spec c sep) as [-> | Hc].
  - by rewrite join_empty_cons, IH.
  - by rewrite join_push_char, IH.
Qed.

Lemma split_mode mode : mode ∈ MODES → split "_" mode = [mode].
Proof.
  unfold MODES. intros Hm.
  repeat (apply elem_of_cons in Hm as [-> | Hm]); [done | done |].
  by apply elem_of_nil in Hm.
Qed.

(** A key written for a pair whose mode is BASELINE or FUSION is read
    back as that pair, whatever the scenario. *)
Lemma parse_format_key scenario mode :
  mode ∈ MODES → parse_key (format_key (scenario, mode)) = Some (scenario, mode).
Proof.
  intros Hm. unfold parse_key, format_key. cbn [fst snd].
  rewrite split_app_sep, (split_mode mode Hm).
  pose proof (split_nonempty "_" scenario) as Hne.
  assert (Hlen : (2 <=? length (split "_" scenario ++ [mode]))%nat = true).
  { apply Nat.leb_le. rewrite length_app. cbn.
    destruct (split "_" scenario); [done | cbn; lia]. }
  rewrite Hlen, last_last, removelast_last, join_split.
  by rewrite (bool_decide_eq_true_2 _ Hm).
Qed.


Lemma format_key_inj (k1 k2 : string * string) :
  k1.2 ∈ MODES → k2.2 ∈ MODES → format_key k1 = format_key k2 → k1 = k2.
Proof.
  destruct k1 as [s1 m1], k2 as [s2 m2]. cbn [snd]. intros H1 H2 Heq.
  pose proof (parse_format_key s1 m1 H1) as P1.
  pose proof (parse_format_key s2 m2 H2) as P2.
  rewrite Heq, P2 in P1. by injection P1 as -> ->.
Qed.

Lemma json_set_fresh {V} (d : list (string * V)) k v :
  k ∉ d.*1 → json_set d k v = d ++ [(k, v)].
Proof.
  induction d as [| [k' v'] d IH]; [done |]. cbn [json_set fmap list_fmap fst].
  intros Hk. apply not_elem_of_cons in Hk as [Hne Hk].
  rewrite (proj2 (String.eqb_neq k' k)) by done. cbn. by rewrite IH.
Qed.

(** Keys that stay distinct as strings are written one item each. *)
Lemma format_items_distinct {V} (results : list ((string * string) * V)) :
  NoDup (format_key <$> results.*1) →
  format_items results = (λ kv, (format_key kv.1, kv.2)) <$> results.
Proof.
  unfold format_items. induction results as [| [key v] l IH] using rev_ind;
    [done |].
  rewrite !fmap_app, fold_left_app. cbn [fmap list_fmap fold_left fst snd].
  intros [Hl [Hfresh _]]%NoDup_app. rewrite IH by done.
  apply json_set_fresh. rewrite <- list_fmap_compose. cbn.
  intros Hin. apply (Hfresh (format_key key)); [| by left].
  by rewrite <- list_fmap_compose.
Qed.

Lemma parse_items_snoc {V} (items : list (string * V)) key_str metrics :
  parse_items (items ++ [(key_str, metrics)])
  = match parse_key key_str with
    | Some key => <[key := metrics]> (parse_items items)
    | None => parse_items items
    end.
Proof. unfold parse_items. by rewrite fold_left_app. Qed.

Lemma parse_key_mode key_str key :
  parse_key key_str = Some key → key.2 ∈ MODES.
Proof.
  unfold parse_key.
  destruct (2 <=? _)%nat; [| done]. cbv zeta.
  destruct (bool_decide _) eqn:E.
  { apply bool_decide_eq_true in E. by intros [= <-]. }
  repeat (destruct (contains _ _);
          [intros [= <-]; cbn; unfold MODES; repeat constructor |]).
  done.
Qed.

Lemma parse_items_modes {V} (items : list (string * V)) key :
  is_Some (parse_items items !! key) → key.2 ∈ MODES.
Proof.
  induction items as [| [key_str metrics] items IH] using rev_ind.
  { unfold parse_items. cbn. rewrite lookup_empty. by intros [? ?]. }
  rewrite parse_items_snoc.
  destruct (parse_key key_str) as [key' |] eqn:E; [| done].
  destruct (decide (key' = key)) as [-> | Hne].
  - intros _. by eapply parse_key_mode.
  - by rewrite lookup_insert_ne.
Qed.

Lemma parse_format_items {V} (results : list ((string * string) * V)) :
  NoDup results.*1 → Forall (λ kv, kv.1.2 ∈ MODES) results →
  parse_items (format_items results) = list_to_map results.
Proof.
  intros Hnd Hmodes.
  rewrite format_items_distinct.
  2:{ apply NoDup_fmap_2_strong; [| done].
      intros k1 k2 H1 H2. apply format_key_inj.
      - apply list_elem_of_fmap in H1 as (kv & -> & Hkv).
        by apply (proj1 (Forall_forall _ _) Hmodes).
      - apply list_elem_of_fmap in H2 as (kv & -> & Hkv).
        by apply (proj1 (Forall_forall _ _) Hmodes). }
  induction results as [| [key v] l IH] using rev_ind; [done |].
  rewrite fmap_app in Hnd. apply NoDup_app in Hnd as (Hl & Hfresh & _).
  apply Forall_app in Hmodes as [Hml Hmk].
  apply Forall_cons in Hmk as [Hmk _]. cbn in Hmk.
  rewrite fmap_app. cbn [fmap list_fmap fst snd].
  rewrite parse_items_snoc. destruct key as [scenario mode].
  rewrite (parse_format_key scenario mode Hmk), IH by done.
  rewrite list_to_map_snoc; [done |].
  intros Hin. by apply (Hfresh (scenario, mode)); [| left].
Qed.

(** X14. What the evaluator writes, the tuner reads back: for results
    whose modes are all BASELINE or FUSION, whatever the scenario names,
    [parse_metrics_from_report] applied to the [metrics.json] items
    written for them returns the same dictionary, one entry per result. *)
Theorem metrics_artifact_round_trip :
  ∀ (V : Type) (results : list ((string * string) * V)),
    NoDup results.*1 →
    Forall (λ kv, kv.1.2 ∈ MODES) results →
    parse_metrics_from_report (Some (format_items results))
    = list_to_map results.
Proof. intros V results Hnd Hmodes. by apply parse_format_items. Qed.

Lemma metrics_artifact_round_trip_witness :
  parse_metrics_from_report
    (Some (format_items [(("all_hostile", "FUSION"), 1%nat);
                         (("mixed_civil", "FUSION"), 2%nat);
                         (("all_hostile", "BASELINE"), 3%nat)]))
  = list_to_map [(("all_hostile", "FUSION"), 1%nat);
                 (("mixed_civil", "FUSION"), 2%nat);
                 (("all_hostile", "BASELINE"), 3%nat)].
Proof.
  apply (metrics_artifact_round_trip nat).
  - apply (bool_decide_unpack _). by vm_compute.
  - apply (bool_decide_unpack _). by vm_compute.
Defined.

(** X15. Every key [parse_metrics_from_report] returns has mode BASELINE
    or FUSION, and no two of them are written as the same string: the
    items [save_history] writes for the items of such a dictionary, taken
    in any order, are read back as the dictionary itself. *)
Theorem parsed_metrics_keys_stable :
  ∀ (V : Type) (artifact : option (list (string * V)))
    (items : list ((string * string) * V)),
    items ≡ₚ map_to_list (parse_metrics_from_report artifact) →
    Forall (λ kv, kv.1.2 ∈ MODES) items
    ∧ parse_items (format_items items) = parse_metrics_from_report artifact.
Proof.
  intros V artifact items Hperm.
  set (metrics := parse_metrics_from_report artifact) in *.
  assert (Hmodes : ∀ key, is_Some (metrics !! key) → key.2 ∈ MODES).
  { subst metrics. destruct artifact as [its |]; cbn.
    - apply parse_items_modes.
    - intros key. rewrite lookup_empty. by intros [? ?]. }
  assert (Hitems : Forall (λ kv, kv.1.2 ∈ MODES) items).
  { rewrite Hperm. apply Forall_forall. intros [key v] Hin. cbn.
    apply Hmodes. apply elem_of_map_to_list in Hin. by rewrite Hin. }
  split; [exact Hitems |].
  assert (Hnd : NoDup items.*1).
  { rewrite Hperm. apply NoDup_fst_map_to_list. }
  rewrite parse_format_items by done.
  rewrite (list_to_map_proper _ _ Hnd Hperm). apply list_to_map_to_list.
Qed.

Lemma parsed_metrics_keys_stable_witness :
  Forall (λ kv, kv.1.2 ∈ MODES)
    (map_to_list (parse_metrics_from_report (Some sample_artifact)))
  ∧ parse_items
      (format_items (map_to_list (parse_metrics_from_report (Some sample_artifact))))
    = parse_metrics_from_report (Some sample_artifact).
Proof.
  apply (parsed_metrics_keys_stable nat (Some sample_artifact)). reflexivity.
Defined.


(** ** The objective over computed metrics *)

(** X16. When every entry of the metrics dictionary is a result of
    [compute_metrics], the objective lies between -2 and 2.3: each F1
    and the accuracy contribute between 0 and their weight, the civil
    false-positive rate between -2 and 0. *)
Theorem objective_score_bounded :
  ∀ metrics_dict : gmap (string * string) (gmap string Q),
    computed_metrics metrics_dict →
    -2 <= compute_objective_score metrics_dict
    ∧ compute_objective_score metrics_dict <= 23 # 10.
Proof.
  intros md Hmd. unfold compute_objective_score. cbv zeta.
  assert (Hrate : ∀ key m k, md !! key = Some m → k ∈ RATE_KEYS →
                    0 <= metric_get m k ∧ metric_get m k <= 1).
  { intros key m k Hm Hk. destruct (Hmd key m Hm) as [l Hl].
    apply compute_metrics_ok in Hl as ->.
    destruct l; [done | by apply rate_bounds_by_counts]. }
  assert (Hf1 : "HOSTILE_f1" ∈ RATE_KEYS) by (unfold RATE_KEYS; repeat constructor).
  assert (Hacc : "accuracy" ∈ RATE_KEYS) by (unfold RATE_KEYS; repeat constructor).
  assert (Hciv : "civil_fp_rate" ∈ RATE_KEYS) by (unfold RATE_KEYS; repeat constructor).
  destruct (md !! key_all_hostile) as [ma |] eqn:Ea;
    destruct (md !! key_mixed_civil) as [mc |] eqn:Ec;
    try pose proof (Hrate _ _ _ Ea Hf1);
    try pose proof (Hrate _ _ _ Ea Hacc);
    try pose proof (Hrate _ _ _ Ec Hf1);
    try pose proof (Hrate _ _ _ Ec Hciv);
    split; lra.
Qed.

Lemma objective_score_bounded_witness :
  -2 <= compute_objective_score
          {[ key_mixed_civil := metrics_by_counts four_predictions ]}
  ∧ compute_objective_score
      {[ key_mixed_civil := metrics_by_counts four_predictions ]} <= 23 # 10.
Proof.
  apply objective_score_bounded.
  intros key m [_ <-]%lookup_singleton_Some.
  exists four_predictions. vm_compute. reflexivity.
Defined.

(** ** Rounding keeps a sample in its range *)

Lemma round_half_even_ge (k : Z) (y : Q) :
  inject_Z k <= y → (k ≤ round_half_even y)%Z.
Proof.
  intros Hy. assert (Hf : (k ≤ Qfloor y)%Z).
  { rewrite <- (Qfloor_Z k). by apply Qfloor_resp_le. }
  unfold round_half_even. cbv zeta.
  destruct (Qcompare _ _); [destruct (Z.even _) |..]; lia.
Qed.

Lemma round_half_even_le (k : Z) (y : Q) :
  y <= inject_Z k → (round_half_even y ≤ k)%Z.
Proof.
  intros Hy. assert (Hf : (Qfloor y ≤ k)%Z).
  { rewrite <- (Qfloor_Z k). by apply Qfloor_resp_le. }
  unfold round_half_even. cbv zeta.
  destruct (Z.eq_dec (Qfloor y) k) as [Heq | Hne].
  - assert (Hfrac : y - inject_Z (Qfloor y) < 1 # 2).
    { rewrite Heq. lra. }
    destruct (Qcompare _ _) eqn:E; [| lia |].
    + apply Qeq_alt in E. lra.
    + apply Qgt_alt in E. lra.
  - destruct (Qcompare _ _); [destruct (Z.even _) |..]; lia.
Qed.

(** Bounds with [ndigits] decimals are kept by [round(x, ndigits)]. *)
Lemma py_round_within (x : Q) (ndigits : nat) (range : Q * Q) (a b : Z) :
  range.1 == a # Z.to_pos (10 ^ Z.of_nat ndigits) →
  range.2 == b # Z.to_pos (10 ^ Z.of_nat ndigits) →
  within x range → within (py_round x ndigits) range.
Proof.
  unfold within, py_round. cbv zeta.
  set (scale := Z.to_pos (10 ^ Z.of_nat ndigits)).
  intros Ha Hb [Hlo Hhi]. rewrite Ha in Hlo. rewrite Hb in Hhi.
  rewrite Ha, Hb, Qred_correct.
  assert (Hka : inject_Z a <= x * inject_Z (Z.pos scale)).
  { revert Hlo. unfold Qle. cbn. nia. }
  assert (Hkb : x * inject_Z (Z.pos scale) <= inject_Z b).
  { revert Hhi. unfold Qle. cbn. nia. }
  apply round_half_even_ge in Hka. apply round_half_even_le in Hkb.
  unfold Qle. cbn. nia.
Qed.

Section SampleRanges.
Context {G : Type} `{PyRandomLaws G}.

(** One [uniform] call over a declared range: name the drawn value and
    keep that it is within the range. *)
Ltac draw_within :=
  match goal with
  | |- context [uniform ?r ?g] =>
      let v := fresh "v" in
      let g' := fresh "g" in
      let Hv := fresh "Hv" in
      assert (Hv : r.1 <= r.2) by (cbn; lra);
      apply (uniform_in_range r g) in Hv;
      destruct (uniform r g) as [v g']; cbn [fst snd] in Hv
  end.

Lemma sample_from_default_within (g : G) :
  let p := (sample_from DEFAULT_PARAM_SPACE g).1 in
  let space := DEFAULT_PARAM_SPACE in
  within (Params.threat_engage_threshold p)
    (ParamSpace.threat_engage_threshold space)
  ∧ within (Params.threat_abort_threshold p)
      (ParamSpace.threat_abort_threshold space)
  ∧ within (Params.civil_conf_threshold p)
      (ParamSpace.civil_conf_threshold space)
  ∧ within (Params.pn_nav_constant p) (ParamSpace.pn_nav_constant space)
  ∧ within (Params.pn_max_turn_rate p) (ParamSpace.pn_max_turn_rate space)
  ∧ within (Params.pn_min_closing_speed p)
      (ParamSpace.pn_min_closing_speed space)
  ∧ within (Params.interceptor_turn_rate_multiplier p)
      (ParamSpace.interceptor_turn_rate_multiplier space)
  ∧ within (Params.sensor_radar_weight p)
      (ParamSpace.sensor_radar_weight space)
  ∧ within (Params.sensor_audio_weight p)
      (ParamSpace.sensor_audio_weight space)
  ∧ within (Params.sensor_eo_weight p) (ParamSpace.sensor_eo_weight space)
  ∧ Forall (λ kv, 0 < kv.2 ∧ kv.2 < 1) (Params.threat_weights p).
Proof.
  cbv zeta. unfold DEFAULT_PARAM_SPACE.
  cbn [ParamSpace.threat_engage_threshold ParamSpace.threat_abort_threshold
       ParamSpace.civil_conf_threshold ParamSpace.pn_nav_constant
       ParamSpace.pn_max_turn_rate ParamSpace.pn_min_closing_speed
       ParamSpace.interceptor_turn_rate_multiplier
       ParamSpace.sensor_radar_weight ParamSpace.sensor_audio_weight
       ParamSpace.sensor_eo_weight].
  unfold sample_from, mbind, sampler_bind, mret, sampler_ret.
  cbn [ParamSpace.threat_engage_threshold ParamSpace.threat_abort_threshold
       ParamSpace.civil_conf_threshold ParamSpace.pn_nav_constant
       ParamSpace.pn_max_turn_rate ParamSpace.pn_min_closing_speed
       ParamSpace.interceptor_turn_rate_multiplier
       ParamSpace.sensor_radar_weight ParamSpace.sensor_audio_weight
       ParamSpace.sensor_eo_weight ParamSpace.threat_weight_existence
       ParamSpace.threat_weight_classification
       ParamSpace.threat_weight_distance ParamSpace.threat_weight_velocity
       ParamSpace.threat_weight_behavior ParamSpace.threat_weight_armed
       ParamSpace.threat_weight_heading].
  do 17 draw_within.
  cbn [fst snd Params.threat_engage_threshold Params.threat_abort_threshold
       Params.civil_conf_threshold Params.pn_nav_constant
       Params.pn_max_turn_rate Params.pn_min_closing_speed
       Params.interceptor_turn_rate_multiplier Params.sensor_radar_weight
       Params.sensor_audio_weight Params.sensor_eo_weight
       Params.threat_weights].
  split; [by apply (py_round_within _ 2 _ 5500 8500) |].
  split; [by apply (py_round_within _ 2 _ 3000 5000) |].
  split; [by apply (py_round_within _ 3 _ 500 900) |].
  split; [by apply (py_round_within _ 2 _ 200 450) |].
  split; [by apply (py_round_within _ 2 _ 200 500) |].
  split; [by apply (py_round_within _ 1 _ 50 150) |].
  split; [by apply (py_round_within _ 2 _ 80 130) |].
  split; [by apply (py_round_within _ 3 _ 400 700) |].
  split; [by apply (py_round_within _ 3 _ 100 300) |].
  split; [by apply (py_round_within _ 3 _ 700 1000) |].
  unfold sum_values. cbn [fold_left fmap list_fmap fst snd].
  repeat (apply Forall_cons; split;
          [cbn [snd]; split;
           [apply Qlt_shift_div_l | apply Qlt_shift_div_r]; lra |]).
  constructor.
Qed.

End SampleRanges.

(** X17. Over the default space, with a generator whose [random()] stays
    in [[0, 1)], every sample stays in its search space after rounding:
    each of the ten scalar parameters lies within its declared range,
    bounds included, and every normalized threat weight lies strictly
    between 0 and 1. *)
Theorem sample_params_within_ranges :
  ∀ (G : Type) (R : PyRandom G), PyRandomLaws G →
  ∀ (rng : option G) (os_rng : G),
    let p := (sample_params DEFAULT_PARAM_SPACE rng os_rng).1 in
    let space := DEFAULT_PARAM_SPACE in
    within (Params.threat_engage_threshold p)
      (ParamSpace.threat_engage_threshold space)
    ∧ within (Params.threat_abort_threshold p)
        (ParamSpace.threat_abort_threshold space)
    ∧ within (Params.civil_conf_threshold p)
        (ParamSpace.civil_conf_threshold space)
    ∧ within (Params.pn_nav_constant p) (ParamSpace.pn_nav_constant space)
    ∧ within (Params.pn_max_turn_rate p) (ParamSpace.pn_max_turn_rate space)
    ∧ within (Params.pn_min_closing_speed p)
        (ParamSpace.pn_min_closing_speed space)
    ∧ within (Params.interceptor_turn_rate_multiplier p)
        (ParamSpace.interceptor_turn_rate_multiplier space)
    ∧ within (Params.sensor_radar_weight p)
        (ParamSpace.sensor_radar_weight space)
    ∧ within (Params.sensor_audio_weight p)
        (ParamSpace.sensor_audio_weight space)
    ∧ within (Params.sensor_eo_weight p) (ParamSpace.sensor_eo_weight space)
    ∧ Forall (λ kv, 0 < kv.2 ∧ kv.2 < 1) (Params.threat_weights p).
Proof.
  intros G R Laws rng os_rng. unfold sample_params.
  apply sample_from_default_within.
Qed.

Lemma sample_params_within_ranges_witness :
  let p := (sample_params DEFAULT_PARAM_SPACE (Some 7%Z) 0%Z).1 in
  let space := DEFAULT_PARAM_SPACE in
  within (Params.threat_engage_threshold p)
    (ParamSpace.threat_engage_threshold space)
  ∧ within (Params.threat_abort_threshold p)
      (ParamSpace.threat_abort_threshold space)
  ∧ within (Params.civil_conf_threshold p)
      (ParamSpace.civil_conf_threshold space)
  ∧ within (Params.pn_nav_constant p) (ParamSpace.pn_nav_constant space)
  ∧ within (Params.pn_max_turn_rate p) (ParamSpace.pn_max_turn_rate space)
  ∧ within (Params.pn_min_closing_speed p)
      (ParamSpace.pn_min_closing_speed space)
  ∧ within (Params.interceptor_turn_rate_multiplier p)
      (ParamSpace.interceptor_turn_rate_multiplier space)
  ∧ within (Params.sensor_radar_weight p)
      (ParamSpace.sensor_radar_weight space)
  ∧ within (Params.sensor_audio_weight p)
      (ParamSpace.sensor_audio_weight space)
  ∧ within (Params.sensor_eo_weight p) (ParamSpace.sensor_eo_weight space)
  ∧ Forall (λ kv, 0 < kv.2 ∧ kv.2 < 1) (Params.threat_weights p).
Proof. exact (sample_params_within_ranges Z lcg lcg_laws (Some 7%Z) 0%Z). Defined.


(** * Further properties of the tuning loop *)

(** Every path through the body of the loop, keeping the test of the
    checkpoint. *)
Ltac trial_cases env trial st :=
  unfold trial_body, save_history;
  destruct (sample_params DEFAULT_PARAM_SPACE (Some (rng st)) (rng st))
    as [p g'] eqn:Hsample;
  destruct (evaluation_ok env) eqn:Heval; cbn [negb andb];
  [ destruct (decide (analysis_metrics env = ∅)) as [Hempty | Hempty];
    [ rewrite ?(bool_decide_eq_true_2 _ Hempty)
    | rewrite ?(bool_decide_eq_false_2 _ Hempty);
      destruct (score_gt (compute_objective_score (analysis_metrics env))
                  (best_score st)) eqn:Hgt;
      destruct ((trial + 1) mod 10 =? 0)%nat eqn:Hmod;
      destruct (results_writable env) eqn:Hwr;
      try destruct (best_params st) eqn:Hbp ]
  | ];
  cbn -[Nat.modulo].

Section TuningRun.
Context {G : Type} `{PyRandom G}.

Lemma trial_body_history env trial st :
  history (trial_body env trial st).1
  = history st ++ (if successful env then [record_of (rng st) trial env] else []).
Proof.
  unfold record_of, successful. trial_cases env trial st;
    rewrite ?app_nil_r; reflexivity.
Qed.

Lemma run_trials_history envs : ∀ trial st,
  history (run_trials envs trial st).1
  = history st ++ records_from (attempted envs trial) trial (rng st).
Proof.
  induction envs as [| env envs IH]; intros trial st.
  { cbn. by rewrite app_nil_r. }
  cbn [run_trials attempted records_from].
  pose proof (trial_body_rng env trial st) as Hrng.
  pose proof (trial_body_exit env trial st) as Hexit.
  pose proof (trial_body_history env trial st) as Hhist.
  destruct (trial_body env trial st) as [st1 ex]. cbn [fst snd] in *.
  destruct (checkpoint_fails env trial); subst ex; cbn [fst snd].
  - cbn [records_from]. by rewrite Hhist, app_nil_r.
  - by rewrite IH, Hhist, Hrng, <- app_assoc.
Qed.

Lemma attempted_lookup envs : ∀ trial i env,
  attempted envs trial !! i = Some env → envs !! i = Some env.
Proof.
  induction envs as [| env0 envs IH]; intros trial i env; [done |].
  cbn [attempted]. destruct i as [| i]; [done |]. cbn.
  destruct (checkpoint_fails env0 trial); [done | apply IH].
Qed.

Lemma records_from_elem envs : ∀ trial (g : G) r,
  r ∈ records_from envs trial g →
  ∃ i env, envs !! i = Some env ∧ successful env = true
           ∧ r = record_of (Nat.iter i next_rng g) (trial + i) env.
Proof.
  induction envs as [| env envs IH]; intros trial g r; cbn [records_from].
  { by intros ?%elem_of_nil. }
  intros [Hr | Hr]%elem_of_app.
  - destruct (successful env) eqn:Hs; [| by apply elem_of_nil in Hr].
    apply list_elem_of_singleton in Hr as ->.
    exists 0%nat, env. by rewrite Nat.add_0_r.
  - apply IH in Hr as (i & env' & Hi & Hs & ->).
    exists (S i), env'. split; [done |]. split; [done |].
    rewrite Nat.iter_succ_r. f_equal. lia.
Qed.

Lemma next_rng_advance (g : G) : next_rng g = advance 17 g.
Proof. unfold next_rng, sample_params. apply sample_from_draws. Qed.

Lemma advance_add n m (g : G) : advance (n + m) g = advance m (advance n g).
Proof. revert g. induction n as [| n IH]; intros g; [done | apply IH]. Qed.

Lemma iter_next_rng i (g : G) : Nat.iter i next_rng g = advance (17 * i) g.
Proof.
  induction i as [| i IH]; [done |].
  rewrite Nat.iter_succ, IH, next_rng_advance.
  replace (17 * S i)%nat with (17 * i + 17)%nat by lia.
  by rewrite advance_add.
Qed.

Lemma run_auto_tune_history envs fw seed disk :
  history (run_auto_tune envs fw seed disk).1
  = history (run_trials envs 0 (initial_state seed disk)).1.
Proof.
  unfold run_auto_tune.
  destruct (run_trials envs 0 (initial_state seed disk)) as [st [| e]];
    [| done].
  by destruct (save_history _ _ _ _ _ _).
Qed.

(** *** The files *)

Lemma trial_body_best_file env trial st B0 :
  (best_params st = None → BEST_CONFIG_FILE (fs st) = B0) →
  best_params (trial_body env trial st).1 = None →
  BEST_CONFIG_FILE (fs (trial_body env trial st).1) = B0.
Proof. trial_cases env trial st; intros Hst; try done; exact Hst. Qed.

Lemma run_trials_files envs : ∀ trial st B0,
  (best_params st = None → BEST_CONFIG_FILE (fs st) = B0) →
  let run := run_trials envs trial st in
  (best_params run.1 = None → BEST_CONFIG_FILE (fs run.1) = B0)
  ∧ (run.2 = Completed →
     RUNTIME_PARAMS_FILE (fs run.1)
     = match envs with [] => RUNTIME_PARAMS_FILE (fs st) | _ => None end).
Proof.
  induction envs as [| env envs IH]; intros trial st B0 Hst; cbn zeta.
  { done. }
  cbn [run_trials].
  pose proof (trial_body_best_file env trial st B0 Hst) as Hbest.
  pose proof (trial_body_completed_clears env trial st) as Hclear.
  destruct (trial_body env trial st) as [st1 [| e]]; cbn [fst snd] in *.
  - destruct (IH (S trial) st1 B0 Hbest) as [IH1 IH2]. split; [exact IH1 |].
    intros Hc. rewrite (IH2 Hc). destruct envs; [by apply Hclear | done].
  - done.
Qed.

(** *** A loop left by an exception *)

Lemma trial_body_propagated env n st e :
  (trial_body env n st).2 = Propagated e →
  ∃ r, last (history (trial_body env n st).1) = Some r
       ∧ trial r = (n + 1)%nat
       ∧ RUNTIME_PARAMS_FILE (fs (trial_body env n st).1) = Some (params r).
Proof.
  trial_cases env n st; try done; intros _;
    eexists; (split; [apply last_snoc |]); done.
Qed.

Lemma run_trials_propagated envs : ∀ n st e,
  (run_trials envs n st).2 = Propagated e →
  ∃ r, last (history (run_trials envs n st).1) = Some r
       ∧ trial r = (n + length (attempted envs n))%nat
       ∧ (trial r mod 10 = 0)%nat
       ∧ RUNTIME_PARAMS_FILE (fs (run_trials envs n st).1)
         = Some (params r).
Proof.
  induction envs as [| env envs IH]; intros n st e; [done |].
  cbn [run_trials attempted].
  pose proof (trial_body_exit env n st) as Hexit.
  pose proof (trial_body_propagated env n st) as Hprop.
  destruct (trial_body env n st) as [st1 ex]. cbn [fst snd] in *.
  destruct (checkpoint_fails env n) eqn:Hcf; subst ex; cbn [fst snd].
  - intros _. destruct (Hprop _ eq_refl) as (r & Hlast & Htrial & Hfile).
    exists r. repeat split; try done. rewrite Htrial.
    unfold checkpoint_fails in Hcf.
    apply andb_true_iff in Hcf as [[_ Hmod]%andb_true_iff _].
    by apply Nat.eqb_eq in Hmod.
  - intros He. destruct (IH (S n) st1 e He) as (r & Hlast & Htrial & Hrest).
    exists r. repeat split; try apply Hrest; try done.
    rewrite Htrial. cbn [length]. lia.
Qed.

(** A trial that is entered and whose checkpoint cannot be written ends
    the loop. *)
Lemma run_trials_raises envs : ∀ n st i env,
  attempted envs n !! i = Some env →
  checkpoint_fails env (n + i) = true →
  (run_trials envs n st).2 = Propagated OSError
  ∧ length (attempted envs n) = (i + 1)%nat.
Proof.
  induction envs as [| env0 envs IH]; intros n st i env; [done |].
  cbn [run_trials attempted].
  pose proof (trial_body_exit env0 n st) as Hexit.
  destruct (trial_body env0 n st) as [st1 ex]. cbn [snd] in Hexit.
  destruct i as [| i].
  { cbn [lookup list_lookup]. intros [= <-]. rewrite Nat.add_0_r.
    intros Hcf. rewrite Hcf in *. by subst ex. }
  cbn [lookup list_lookup].
  destruct (checkpoint_fails env0 n) eqn:Hcf; subst ex; [done |].
  intros Hi Hfail.
  replace (n + S i)%nat with (S n + i)%nat in Hfail by lia.
  destruct (IH (S n) st1 i env Hi Hfail) as [He Hlen].
  split; [exact He |]. cbn [length]. lia.
Qed.

End TuningRun.

(** X18. Every record in the history of a run belongs to a trial that
    evaluated and analysed with a non-empty result: it holds the metrics
    of that trial and their objective score, and its parameters are the
    sample drawn after 17 numbers per earlier trial, so they depend only
    on the seed and on the index of the trial, not on which earlier
    trials failed. *)
Theorem history_records_reproducible :
  ∀ (G : Type) (R : PyRandom G) (envs : list trial_env) (final_writable : bool)
    (seed : Z) (disk : files) (r : trial_record),
    r ∈ history (run_auto_tune envs final_writable seed disk).1 →
    (1 ≤ trial r)%nat
    ∧ (∃ env, envs !! (trial r - 1)%nat = Some env
              ∧ evaluation_ok env = true
              ∧ analysis_metrics env ≠ ∅
              ∧ metrics r = analysis_metrics env)
    ∧ score r = compute_objective_score (metrics r)
    ∧ params r
      = (sample_from DEFAULT_PARAM_SPACE
           (advance (17 * (trial r - 1)) (Random seed))).1.
Proof.
  intros G R envs fw seed disk r.
  rewrite run_auto_tune_history, run_trials_history. cbn [initial_state history rng].
  rewrite app_nil_l. intros (i & env & Hi & Hs & ->)%records_from_elem.
  apply attempted_lookup in Hi. unfold record_of. cbn [trial params score metrics].
  replace (0 + i + 1 - 1)%nat with i by lia.
  unfold successful in Hs. apply andb_true_iff in Hs as [Hev Hne].
  apply negb_true_iff, bool_decide_eq_false in Hne.
  split; [lia |]. split; [by exists env |]. split; [done |].
  by rewrite iter_next_rng.
Qed.

Lemma history_records_reproducible_witness :
  let r := record_of (G:=Z) (advance 51 (Random 42)) 3 (TrialEnv true good_metrics true) in
  (1 ≤ trial r)%nat
  ∧ (∃ env, five_trials_third_fails !! (trial r - 1)%nat = Some env
            ∧ evaluation_ok env = true
            ∧ analysis_metrics env ≠ ∅
            ∧ metrics r = analysis_metrics env)
  ∧ score r = compute_objective_score (metrics r)
  ∧ params r
    = (sample_from (G:=Z) DEFAULT_PARAM_SPACE
         (advance (17 * (trial r - 1)) (Random 42))).1.
Proof.
  intros r.
  apply (history_records_reproducible Z lcg five_trials_third_fails true 42
           no_files r).
  vm_compute. do 2 right. left.
Defined.

(** X19. After a run that returns: the history file holds the whole
    history, with [total_trials] the number of records, that is of
    successful trials; the runtime parameter file is gone if any trial was
    entered; the best-configuration file holds the tracked best triple if
    there is one, and otherwise, which is when no trial succeeded, it is
    whatever it was before the run. *)
Theorem completed_run_files :
  ∀ (G : Type) (R : PyRandom G) (envs : list trial_env) (final_writable : bool)
    (seed : Z) (disk : files),
    (run_auto_tune envs final_writable seed disk).2 = Completed →
    let st := (run_auto_tune envs final_writable seed disk).1 in
    TUNING_HISTORY_FILE (fs st)
    = Some (HistoryJson (length (history st)) (best_score st) (history st))
    ∧ RUNTIME_PARAMS_FILE (fs st)
      = match envs with [] => RUNTIME_PARAMS_FILE disk | _ => None end
    ∧ BEST_CONFIG_FILE (fs st)
      = match best_params st with
        | Some bp => Some (BestConfigJson (best_score st) bp (best_metrics st))
        | None => BEST_CONFIG_FILE disk
        end
    ∧ (best_params st = None ↔ history st = []).
Proof.
  intros G R envs fw seed disk. unfold run_auto_tune.
  assert (Hinit : tracks (initial_state (G:=G) seed disk)) by (left; by cbn).
  destruct (run_trials_invariant envs 0 _ Hinit) as (Htr & _ & _).
  destruct (best_tracks_max _ _ _ _ Htr) as [_ Hnone].
  destruct (run_trials_files envs 0 (initial_state seed disk)
              (BEST_CONFIG_FILE disk) (λ _, eq_refl)) as [Hbest Hclear].
  destruct (run_trials envs 0 (initial_state seed disk)) as [st [| e]];
    cbn [fst snd] in *; [| done].
  specialize (Hclear eq_refl). unfold save_history.
  destruct fw; [| done]. intros _.
  destruct (best_params st) as [bp |] eqn:Hbp; cbn;
    repeat split; try done; try apply Hnone. by apply Hbest.
Qed.

Lemma completed_run_files_witness :
  let st := (run_auto_tune (G:=Z) five_trials_third_fails true 42 no_files).1 in
  TUNING_HISTORY_FILE (fs st)
  = Some (HistoryJson (length (history st)) (best_score st) (history st))
  ∧ RUNTIME_PARAMS_FILE (fs st) = None
  ∧ BEST_CONFIG_FILE (fs st)
    = match best_params st with
      | Some bp => Some (BestConfigJson (best_score st) bp (best_metrics st))
      | None => None
      end
  ∧ (best_params st = None ↔ history st = []).
Proof.
  apply (completed_run_files Z lcg five_trials_third_fails true 42 no_files).
  vm_compute. reflexivity.
Defined.

(** X20. Whenever the loop of [run_auto_tune] enters a trial whose
    checkpoint cannot be written, that is a trial that evaluates and
    analyses, whose one-based index is a multiple of 10, and that meets a
    results directory that cannot be written, the [OSError] of that write
    leaves [run_auto_tune]: the record of this trial is the last of the
    history, no later trial is entered, and the runtime parameter file
    still holds the parameters of this trial. *)
Theorem interrupted_run_leaves_parameter_file :
  ∀ (G : Type) (R : PyRandom G) (envs : list trial_env) (final_writable : bool)
    (seed : Z) (disk : files) (i : nat) (env : trial_env),
    attempted envs 0 !! i = Some env →
    checkpoint_fails env i = true →
    let run := run_auto_tune envs final_writable seed disk in
    run.2 = Propagated OSError
    ∧ length (attempted envs 0) = (i + 1)%nat
    ∧ ∃ r, last (history run.1) = Some r
           ∧ trial r = (i + 1)%nat
           ∧ (trial r mod 10 = 0)%nat
           ∧ RUNTIME_PARAMS_FILE (fs run.1) = Some (params r).
Proof.
  intros G R envs fw seed disk i env Hi Hfail. cbv zeta. unfold run_auto_tune.
  destruct (run_trials_raises envs 0 (initial_state seed disk) i env Hi Hfail)
    as [Hexit Hlen].
  pose proof (run_trials_propagated envs 0 (initial_state seed disk)) as Hp.
  destruct (run_trials envs 0 (initial_state seed disk)) as [st ex].
  cbn [fst snd] in *. subst ex. split; [done |]. split; [exact Hlen |].
  destruct (Hp OSError eq_refl) as (r & Hlast & Htrial & Hmod & Hfile).
  exists r. cbn [fst]. rewrite Hlen in Htrial. cbn [Nat.add] in Htrial.
  repeat split; try done.
Qed.

Lemma interrupted_run_leaves_parameter_file_witness :
  let run := run_auto_tune (G:=Z) ten_trials_read_only true 42 no_files in
  run.2 = Propagated OSError
  ∧ length (attempted ten_trials_read_only 0) = (9 + 1)%nat
  ∧ ∃ r, last (history run.1) = Some r
         ∧ trial r = (9 + 1)%nat
         ∧ (trial r mod 10 = 0)%nat
         ∧ RUNTIME_PARAMS_FILE (fs run.1) = Some (params r).
Proof.
  apply (interrupted_run_leaves_parameter_file Z lcg ten_trials_read_only true
           42 no_files 9 (TrialEnv true good_metrics false));
    vm_compute; reflexivity.
Defined.

(** * Further properties of the evaluator: the main function *)

Lemma find_snoc {A} (f : A → bool) l x :
  List.find f (l ++ [x])
  = match List.find f l with
    | Some y => Some y
    | None => if f x then Some x else None
    end.
Proof.
  induction l as [| a l IH]; cbn; [done |]. by destruct (f a).
Qed.

Lemma first_log_snoc key logs log :
  first_log key (logs ++ [log])
  = match first_log key logs with
    | Some l => Some l
    | None => if feeds key log then Some log else None
    end.
Proof. apply find_snoc. Qed.

Lemma pooled_snoc key logs log :
  pooled key (logs ++ [log])
  = pooled key logs ++ (if feeds key log then preds_of log else []).
Proof.
  unfold pooled. rewrite filter_app, fmap_app, concat_app. f_equal.
  rewrite filter_cons, filter_nil.
  destruct (feeds key log); [| by destruct (decide _)].
  destruct (decide _); [| done]. cbn. by rewrite app_nil_r.
Qed.

Lemma first_log_None key logs :
  first_log key logs = None → pooled key logs = [].
Proof.
  unfold first_log, pooled. induction logs as [| log logs IH]; [done |].
  cbn [List.find]. destruct (feeds key log) eqn:E; [done |].
  intros Hf. rewrite filter_cons, E.
  destruct (decide _); [done | by apply IH].
Qed.

Lemma first_log_feeds key logs log :
  first_log key logs = Some log → log ∈ logs ∧ feeds key log = true.
Proof.
  unfold first_log. intros [Hin Hf]%List.find_some.
  split; [by apply list_elem_of_In | done].
Qed.

Lemma results_find_snoc results k e key :
  results_find (results ++ [(k, e)]) key
  = match results_find results key with
    | Some x => Some x
    | None => if decide (k = key) then Some e else None
    end.
Proof.
  induction results as [| [k' e'] results IH]; cbn; [done |].
  by destruct (decide (k' = key)).
Qed.

Lemma results_find_extend results k ps key :
  results_find (results_extend results k ps) key
  = (λ e, if decide (k = key)
          then ResultEntry (re_predictions e ++ ps) (re_metrics e)
                 (re_roc_pr_data e)
          else e) <$> results_find results key.
Proof.
  induction results as [| [k' e'] results IH]; cbn; [done |].
  destruct (decide (k' = k)) as [-> | Hk]; cbn.
  - destruct (decide (k = key)) as [-> | Hne]; cbn; [done |].
    clear IH. induction results as [| [k2 e2] results IH2]; cbn; [done |].
    destruct (decide (k2 = key)); cbn; [| done].
    by destruct (decide (k = key)).
  - destruct (decide (k' = key)) as [-> | Hne]; cbn; [| done].
    by destruct (decide (k = key)).
Qed.

(** The two ways an iteration of the grouping loop ends without
    raising: the log is passed over, or its predictions are filed under
    its key. *)
Lemma group_step_cases results log results' :
  group_step results log = Ok results' →
  (results' = results ∧ ∀ key, feeds key log = false)
  ∨ (∃ k roc,
       key_of log = Some k ∧ preds_of log ≠ []
       ∧ compute_roc_pr_data (preds_of log) "HOSTILE" = Ok roc
       ∧ results'
         = results_extend
             match results_find results k with
             | Some _ => results
             | None => results ++ [(k, ResultEntry [] PLACEHOLDER_METRICS roc)]
             end k (preds_of log)).
Proof.
  unfold group_step, feeds, key_of, preds_of.
  destruct (log_parts log) as [| en [| mode rest]];
    try (intros [= <-]; left; split; [done |]; intros key;
         by rewrite bool_decide_eq_false_2).
  destruct (scenario_of en) as [s |]; cbn [fmap option_fmap option_map];
    [| intros [= <-]; left; split; [done |]; intros key;
       by rewrite bool_decide_eq_false_2].
  destruct (extract_predictions_from_log (log_events log)) as [preds | e];
    cbn [mbind result_bind]; [| done].
  destruct preds as [| p ps].
  { intros [= <-]. left. split; [done |]. intros key. apply andb_false_r. }
  destruct (mapM _ _); cbn [mbind result_bind]; [| done].
  destruct (compute_metrics _); cbn [mbind result_bind]; [| done].
  destruct (compute_roc_pr_data _ _) as [roc |]; cbn [mbind result_bind];
    [| done].
  intros [= <-]. right. by exists (s, mode), roc.
Qed.

Lemma feeds_key key log :
  feeds key log = true → key_of log = Some key ∧ preds_of log ≠ [].
Proof.
  unfold feeds. intros [Hk Hp]%andb_true_iff.
  apply bool_decide_eq_true in Hk. split; [done |].
  by destruct (preds_of log).
Qed.

Lemma feeds_other key k log :
  key_of log = Some k → k ≠ key → feeds key log = false.
Proof.
  intros Hk Hne. unfold feeds. rewrite bool_decide_eq_false_2; [done |].
  rewrite Hk. congruence.
Qed.

Lemma feeds_own k log :
  key_of log = Some k → preds_of log ≠ [] → feeds k log = true.
Proof.
  intros Hk Hp. unfold feeds. rewrite bool_decide_eq_true_2 by done.
  by destruct (preds_of log).
Qed.

Lemma group_step_grouped logs results log results' :
  grouped logs results →
  group_step results log = Ok results' →
  grouped (logs ++ [log]) results'.
Proof.
  intros Hinv [[-> Hno] | (k & roc & Hk & Hp & Hroc & ->)]%group_step_cases key;
    specialize (Hinv key); rewrite first_log_snoc, pooled_snoc.
  - rewrite (Hno key), app_nil_r.
    destruct (results_find results key); [| by rewrite Hinv].
    destruct Hinv as ((l & -> & Hl) & Hrest). split; [by exists l | done].
  - rewrite results_find_extend.
    destruct (decide (k = key)) as [-> | Hne].
    + rewrite (feeds_own key log Hk Hp).
      destruct (results_find results key) as [e |] eqn:Hfind.
      * rewrite Hfind. cbn. destruct Hinv as ((l & -> & Hl) & Hpool & Hne).
        split; [by exists l |]. split; [by rewrite Hpool |].
        by destruct (re_predictions e).
      * rewrite results_find_snoc, Hfind. rewrite decide_True by done. cbn.
        rewrite Hinv, (first_log_None _ _ Hinv).
        split; [by exists log |]. split; [done |].
        by destruct (preds_of log).
    + rewrite (feeds_other key k log Hk Hne), app_nil_r.
      assert (Hsame :
        results_find
          match results_find results k with
          | Some _ => results
          | None => results ++ [(k, ResultEntry [] PLACEHOLDER_METRICS roc)]
          end key
        = results_find results key).
      { destruct (results_find results k); [done |].
        rewrite results_find_snoc. rewrite decide_False by done.
        by destruct (results_find results key). }
      rewrite Hsame.
      destruct (results_find results key) as [e |]; cbn; [| by rewrite Hinv].
      destruct Hinv as ((l & -> & Hl) & Hrest). split; [by exists l | done].
Qed.

Lemma group_loop_grouped logs : ∀ seen results results',
  grouped seen results →
  foldM group_step results logs = Ok results' →
  grouped (seen ++ logs) results'.
Proof.
  induction logs as [| log logs IH]; intros seen results results' Hinv;
    cbn [foldM].
  - intros [= <-]. by rewrite app_nil_r.
  - destruct (group_step results log) as [r1 |] eqn:Hstep;
      cbn [mbind result_bind]; [| done].
    intros Hrest.
    replace (seen ++ log :: logs) with ((seen ++ [log]) ++ logs)
      by (by rewrite <- app_assoc).
    eapply IH; [| exact Hrest]. by eapply group_step_grouped.
Qed.

(** The final loop keeps the keys, the predictions and the sweeps, and
    stores the metrics of the pooled predictions. *)
Lemma finalize_find results : ∀ results' key,
  mapM finalize_entry results = Ok results' →
  match results_find results key, results_find results' key with
  | Some e, Some e' =>
      re_predictions e' = re_predictions e
      ∧ re_roc_pr_data e' = re_roc_pr_data e
      ∧ (re_predictions e ≠ [] →
         compute_metrics (re_predictions e) = Ok (re_metrics e'))
  | None, None => True
  | _, _ => False
  end.
Proof.
  induction results as [| [k e] results IH]; intros results' key; cbn [mapM].
  { by intros [= <-]. }
  destruct (finalize_entry (k, e)) as [[k1 e1] |] eqn:Hfin;
    cbn [mbind result_bind]; [| done].
  destruct (mapM finalize_entry results) as [rest |] eqn:Hrest;
    cbn [mbind result_bind]; [| done].
  intros [= <-]. cbn [results_find].
  assert (Hk : k1 = k ∧ re_predictions e1 = re_predictions e
               ∧ re_roc_pr_data e1 = re_roc_pr_data e
               ∧ (re_predictions e ≠ [] →
                  compute_metrics (re_predictions e) = Ok (re_metrics e1))).
  { unfold finalize_entry in Hfin. cbn [fst snd] in Hfin.
    destruct (re_predictions e) as [| p ps] eqn:Hps.
    - injection Hfin as <- <-. by rewrite Hps.
    - destruct (compute_metrics (p :: ps)) as [m |]; cbn in Hfin; [| done].
      injection Hfin as <- <-. by cbn. }
  destruct Hk as (-> & Hk).
  destruct (decide (k = key)); [exact Hk | by apply IH].
Qed.

Lemma main_results log_files out :
  main log_files = Ok (Some out) →
  ∃ results,
    grouped log_files results
    ∧ mapM finalize_entry results = Ok (out_results out)
    ∧ metrics_json out
      = format_items ((λ kv, (kv.1, re_metrics kv.2)) <$> out_results out).
Proof.
  unfold main. destruct log_files as [| log0 logs]; [done |].
  set (log_files := log0 :: logs).
  destruct (mapM _ (take 3 log_files)); cbn [mbind result_bind]; [| done].
  destruct (foldM group_step [] log_files) as [results |] eqn:Hloop;
    cbn [mbind result_bind]; [| done].
  destruct (mapM finalize_entry results) as [final |] eqn:Hfinal;
    cbn [mbind result_bind]; [| done].
  intros [= <-]. exists results. split; [| done].
  apply (group_loop_grouped log_files [] [] results); [| done].
  by intros key.
Qed.

Lemma main_pooled log_files out :
  main log_files = Ok (Some out) →
  ∀ key,
    match results_find (out_results out) key with
    | Some e =>
        re_predictions e = pooled key log_files
        ∧ pooled key log_files ≠ []
        ∧ compute_metrics (pooled key log_files) = Ok (re_metrics e)
    | None => pooled key log_files = []
    end.
Proof.
  intros (results & Hinv & Hfinal & _)%main_results key.
  specialize (Hinv key).
  pose proof (finalize_find results _ key Hfinal) as Hfin.
  destruct (results_find results key) as [e |],
    (results_find (out_results out) key) as [e' |]; try done.
  - destruct Hinv as (_ & Hpool & Hne). destruct Hfin as (Hp & _ & Hm).
    rewrite <- Hpool. split; [done |]. split; [done |]. by apply Hm.
  - by apply first_log_None.
Qed.

(** X21. Whenever [main] completes, the metrics it reports for a
    scenario and mode are those of the predictions of all the logs of
    that key pooled in the order of the logs, and a key is reported
    exactly when some log of it has predictions. *)
Theorem main_pools_predictions :
  ∀ (log_files : list log_file) (out : main_output),
    main log_files = Ok (Some out) →
    ∀ key,
      match results_find (out_results out) key with
      | Some e =>
          re_predictions e = pooled key log_files
          ∧ pooled key log_files ≠ []
          ∧ compute_metrics (pooled key log_files) = Ok (re_metrics e)
      | None => pooled key log_files = []
      end.
Proof. intros log_files out Hmain. by apply main_pooled. Qed.

Lemma main_pools_predictions_witness :
  ∃ out, main two_runs = Ok (Some out)
    ∧ ∀ key,
        match results_find (out_results out) key with
        | Some e =>
            re_predictions e = pooled key two_runs
            ∧ pooled key two_runs ≠ []
            ∧ compute_metrics (pooled key two_runs) = Ok (re_metrics e)
        | None => pooled key two_runs = []
        end.
Proof.
  eexists. split; [vm_compute; reflexivity |].
  apply (main_pools_predictions two_runs). vm_compute. reflexivity.
Defined.

(** X22. Whenever [main] completes, the ROC/PR data it keeps for a
    scenario and mode are the sweep of the first log of that key that has
    predictions, taken alone: later logs of the key add to the metrics
    but not to the curves. *)
Theorem main_sweeps_first_log :
  ∀ (log_files : list log_file) (out : main_output),
    main log_files = Ok (Some out) →
    ∀ key e,
      results_find (out_results out) key = Some e →
      ∃ log, first_log key log_files = Some log
             ∧ compute_roc_pr_data (preds_of log) "HOSTILE"
               = Ok (re_roc_pr_data e).
Proof.
  intros log_files out (results & Hinv & Hfinal & _)%main_results key e' He'.
  specialize (Hinv key).
  pose proof (finalize_find results _ key Hfinal) as Hfin.
  rewrite He' in Hfin.
  destruct (results_find results key) as [e |]; [| done].
  destruct Hinv as ((log & Hfirst & Hroc) & _). destruct Hfin as (_ & Hr & _).
  exists log. by rewrite Hr.
Qed.

Lemma main_sweeps_first_log_witness :
  ∃ out, main two_runs = Ok (Some out)
    ∧ ∀ key e,
        results_find (out_results out) key = Some e →
        ∃ log, first_log key two_runs = Some log
               ∧ compute_roc_pr_data (preds_of log) "HOSTILE"
                 = Ok (re_roc_pr_data e).
Proof.
  eexists. split; [vm_compute; reflexivity |].
  apply (main_sweeps_first_log two_runs). vm_compute. reflexivity.
Defined.

(** On [two_runs] the curves kept for the key are not those of its
    pooled predictions. *)
Example two_runs_sweep_not_pooled :
  ∃ out e,
    main two_runs = Ok (Some out)
    ∧ results_find (out_results out) ("all_hostile", "FUSION") = Some e
    ∧ compute_roc_pr_data (re_predictions e) "HOSTILE"
      ≠ Ok (re_roc_pr_data e).
Proof.
  eexists _, _. split; [vm_compute; reflexivity |].
  split; [vm_compute; reflexivity |]. vm_compute. discriminate.
Qed.


(** ** From the evaluator to the tuner *)

Lemma results_extend_keys results k ps :
  (results_extend results k ps).*1 = results.*1.
Proof.
  induction results as [| [k' e] results IH]; [done |]. cbn.
  destruct (decide (k' = k)); cbn; [done | by rewrite IH].
Qed.

Lemma results_find_None results k :
  results_find results k = None → k ∉ results.*1.
Proof.
  induction results as [| [k' e] results IH]; cbn.
  - intros _. apply not_elem_of_nil.
  - destruct (decide (k' = k)); [done |]. intros Hf.
    apply not_elem_of_cons. split; [done | by apply IH].
Qed.

Lemma results_find_elem results k :
  k ∈ results.*1 → is_Some (results_find results k).
Proof.
  destruct (results_find results k) eqn:E; [by eexists |].
  by apply results_find_None in E.
Qed.

Lemma group_step_keys results log results' :
  NoDup results.*1 → group_step results log = Ok results' → NoDup results'.*1.
Proof.
  intros Hnd [[-> _] | (k & roc & _ & _ & _ & ->)]%group_step_cases; [done |].
  rewrite results_extend_keys.
  destruct (results_find results k) eqn:E; [done |].
  rewrite fmap_app. apply NoDup_app. split; [done |]. split.
  - intros x Hx [-> | []%elem_of_nil]%elem_of_cons.
    by apply results_find_None in E.
  - apply NoDup_singleton.
Qed.

Lemma finalize_keys results : ∀ results',
  mapM finalize_entry results = Ok results' → results'.*1 = results.*1.
Proof.
  induction results as [| [k e] results IH]; intros results'; cbn [mapM].
  { by intros [= <-]. }
  destruct (finalize_entry (k, e)) as [[k1 e1] |] eqn:Hfin;
    cbn [mbind result_bind]; [| done].
  destruct (mapM finalize_entry results) as [rest |] eqn:Hrest;
    cbn [mbind result_bind]; [| done].
  intros [= <-]. cbn. rewrite (IH rest) by done. f_equal.
  unfold finalize_entry in Hfin. cbn [fst snd] in Hfin.
  destruct (re_predictions e); [by injection Hfin as <- _ |].
  destruct (compute_metrics _); cbn in Hfin; [| done].
  by injection Hfin as <- _.
Qed.

Lemma main_keys log_files out :
  main log_files = Ok (Some out) → NoDup (out_results out).*1.
Proof.
  unfold main. destruct log_files as [| log0 logs]; [done |].
  set (log_files := log0 :: logs).
  destruct (mapM _ (take 3 log_files)); cbn [mbind result_bind]; [| done].
  destruct (foldM group_step [] log_files) as [results |] eqn:Hloop;
    cbn [mbind result_bind]; [| done].
  destruct (mapM finalize_entry results) as [final |] eqn:Hfinal;
    cbn [mbind result_bind]; [| done].
  intros [= <-]. cbn [out_results]. rewrite (finalize_keys _ _ Hfinal).
  revert Hloop. apply (foldM_invariant group_step (λ r, NoDup r.*1)).
  - intros r0 log r1. apply group_step_keys.
  - constructor.
Qed.

Lemma metrics_results_lookup (results : results_t) key :
  (list_to_map ((λ kv, (kv.1, re_metrics kv.2)) <$> results)
     : gmap (string * string) (gmap string Q)) !! key
  = re_metrics <$> results_find results key.
Proof.
  induction results as [| [k e] results IH]; cbn.
  - by rewrite lookup_empty.
  - destruct (decide (k = key)) as [-> | Hne].
    + by rewrite lookup_insert_eq.
    + by rewrite lookup_insert_ne.
Qed.

Lemma main_keys_of_logs log_files out key :
  main log_files = Ok (Some out) →
  is_Some (results_find (out_results out) key) →
  ∃ log, log ∈ log_files ∧ key_of log = Some key.
Proof.
  intros (results & Hinv & Hfinal & _)%main_results [e' He'].
  specialize (Hinv key).
  pose proof (finalize_find results _ key Hfinal) as Hfin.
  rewrite He' in Hfin.
  destruct (results_find results key) as [e |]; [| done].
  destruct Hinv as ((log & Hfirst & _) & _).
  apply first_log_feeds in Hfirst as [Hin Hf].
  apply feeds_key in Hf as [Hk _]. by exists log.
Qed.

(** X23. From the logs to the tuner: when [main] completes on logs whose
    mode directories are all named BASELINE or FUSION, the dictionary
    [parse_metrics_from_report] reads from the [metrics.json] it wrote
    holds, for each scenario and mode, exactly the metrics of the pooled
    predictions of that key, and nothing for a key without
    predictions. *)
Theorem tuner_reads_pooled_metrics :
  ∀ (log_files : list log_file) (out : main_output),
    main log_files = Ok (Some out) →
    Forall mode_named log_files →
    ∀ key m,
      parse_metrics_from_report (Some (metrics_json out)) !! key = Some m
      ↔ pooled key log_files ≠ []
        ∧ compute_metrics (pooled key log_files) = Ok m.
Proof.
  intros log_files out Hmain Hmodes key m.
  pose proof (main_results _ _ Hmain) as (_ & _ & _ & Hjson).
  pose proof (main_keys _ _ Hmain) as Hnd.
  pose proof (main_pooled _ _ Hmain key) as Hpool.
  cbn [parse_metrics_from_report]. rewrite Hjson, parse_format_items.
  - rewrite metrics_results_lookup.
    destruct (results_find (out_results out) key) as [e |]; cbn.
    + destruct Hpool as (_ & Hne & Hm). split.
      * intros [= <-]. done.
      * intros [_ Hm']. congruence.
    + split; [done |]. by intros [Hne _].
  - by rewrite <- list_fmap_compose.
  - apply Forall_fmap, Forall_forall. intros [k e] Hin. cbn.
    assert (Hk : is_Some (results_find (out_results out) k)).
    { apply results_find_elem, list_elem_of_fmap. by exists (k, e). }
    destruct (main_keys_of_logs _ _ _ Hmain Hk) as (log & Hlog & Hkey).
    pose proof (proj1 (Forall_forall _ _) Hmodes log Hlog) as Hmode.
    unfold mode_named in Hmode. by rewrite Hkey in Hmode.
Qed.

Lemma tuner_reads_pooled_metrics_witness :
  ∃ out, main two_runs = Ok (Some out)
    ∧ ∀ key m,
        parse_metrics_from_report (Some (metrics_json out)) !! key = Some m
        ↔ pooled key two_runs ≠ []
          ∧ compute_metrics (pooled key two_runs) = Ok m.
Proof.
  eexists. split; [vm_compute; reflexivity |].
  apply (tuner_reads_pooled_metrics two_runs); [vm_compute; reflexivity |].
  unfold two_runs.
  repeat (apply Forall_cons; split; [vm_compute; repeat constructor |]).
  apply Forall_nil_2.
Defined.


(** * Further properties of the evaluator: the confusion matrix *)

Lemma cell_eqb_sym a b : cell_eqb a b = cell_eqb b a.
Proof. unfold cell_eqb. by rewrite key_eqb_sym, String.eqb_sym. Qed.

Lemma cell_eqb_trans a b c :
  cell_eqb a b = true → cell_eqb b c = cell_eqb a c.
Proof.
  unfold cell_eqb. intros [Hk Hs]%andb_true_iff.
  apply String.eqb_eq in Hs. by rewrite (key_eqb_trans _ _ _ Hk), Hs.
Qed.

Lemma cell_matrix_bump matrix k k' :
  cell (matrix_bump matrix k) k'
  = (cell matrix k' + if cell_eqb k k' then 1 else 0)%nat.
Proof.
  induction matrix as [| [k0 n] matrix IH]; cbn [matrix_bump cell].
  { by destruct (cell_eqb k k'). }
  destruct (cell_eqb k0 k) eqn:E0; cbn [cell].
  - rewrite <- (cell_eqb_trans _ _ k' E0).
    destruct (cell_eqb k k'); lia.
  - destruct (cell_eqb k0 k') eqn:E1; [| exact IH].
    rewrite cell_eqb_sym in E1.
    destruct (cell_eqb k k') eqn:E2; [| lia].
    rewrite (cell_eqb_trans _ _ k0 E2), cell_eqb_sym in E1. congruence.
Qed.

Lemma matrix_bump_sum matrix k :
  sum_list (matrix_bump matrix k).*2 = S (sum_list matrix.*2).
Proof.
  induction matrix as [| [k0 n] matrix IH]; cbn; [done |].
  destruct (cell_eqb k0 k); cbn; [done |]. rewrite IH. lia.
Qed.

Lemma matrix_bump_positive matrix k :
  Forall (λ kv, (0 < kv.2)%nat) matrix →
  Forall (λ kv, (0 < kv.2)%nat) (matrix_bump matrix k).
Proof.
  induction matrix as [| [k0 n] matrix IH]; cbn.
  - intros _. repeat constructor.
  - intros [Hn Hm]%Forall_cons.
    destruct (cell_eqb k0 k); constructor; cbn in *; try done; try lia.
    by apply IH.
Qed.

Lemma confusion_loop l : ∀ matrix matrix',
  foldM
    (λ matrix pred,
       true_label ← as_key (true_label pred);
       Ok (matrix_bump matrix (true_label, pred_label pred)))
    matrix l = Ok matrix' →
  sum_list matrix'.*2 = (sum_list matrix.*2 + length l)%nat
  ∧ (Forall (λ kv, (0 < kv.2)%nat) matrix →
     Forall (λ kv, (0 < kv.2)%nat) matrix')
  ∧ ∀ label p,
      cell matrix' (KStr label, p)
      = (cell matrix (KStr label, p)
         + count_if (λ pr, is_label label pr && String.eqb (pred_label pr) p) l)%nat.
Proof.
  induction l as [| pred l IH]; intros matrix matrix'; cbn [foldM].
  { intros [= <-]. cbn. split; [lia |]. split; [done |]. intros. lia. }
  destruct (as_key (true_label pred)) as [k |] eqn:Hk;
    cbn [mbind result_bind]; [| done].
  intros (Hsum & Hpos & Hcell)%IH. split; [| split].
  - rewrite Hsum, matrix_bump_sum. cbn [length]. lia.
  - intros Hm. by apply Hpos, matrix_bump_positive.
  - intros label p. rewrite Hcell, cell_matrix_bump. cbn [count_if].
    unfold cell_eqb at 1. cbn [fst snd].
    rewrite (as_key_eq_str _ _ label Hk). unfold is_label at 2.
    destruct (py_eq_str _ _ && _); lia.
Qed.

(** X24. Whenever [compute_confusion_matrix] returns: its cells add up to
    the number of predictions and none of them is zero; the cell of a
    true label and a predicted label counts the predictions with that
    pair; and for HOSTILE, CIVIL and UNKNOWN the diagonal cell is the TP
    that [compute_metrics] reports for the same predictions. *)
Theorem confusion_matrix_counts :
  ∀ (predictions : list prediction) (matrix : list ((pykey * string) * nat))
    (m : gmap string Q),
    compute_confusion_matrix predictions = Ok matrix →
    compute_metrics predictions = Ok m →
    sum_list matrix.*2 = length predictions
    ∧ Forall (λ kv, (0 < kv.2)%nat) matrix
    ∧ (∀ label p,
         cell matrix (KStr label, p)
         = count_if (λ pr, is_label label pr && String.eqb (pred_label pr) p)
             predictions)
    ∧ (∀ label, label ∈ LABELS →
         metric_get m (label +:+ "_TP") = Qnat (cell matrix (KStr label, label))).
Proof.
  intros l matrix m (Hsum & Hpos & Hcell)%confusion_loop Hm.
  split; [exact Hsum |]. split; [apply Hpos; constructor |].
  split; [exact Hcell |]. intros label Hlabel. rewrite Hcell.
  apply compute_metrics_ok in Hm as ->. destruct l as [| p0 l0]; [done |].
  fold (label_TP label (p0 :: l0)). generalize (p0 :: l0) as l. intros l.
  unfold LABELS in Hlabel.
  repeat (apply elem_of_cons in Hlabel as [-> | Hlabel]);
    [.. | by apply elem_of_nil in Hlabel];
    by metrics_lookup.
Qed.

Lemma confusion_matrix_counts_witness :
  ∃ matrix,
    compute_confusion_matrix four_predictions = Ok matrix
    ∧ sum_list matrix.*2 = length four_predictions
    ∧ Forall (λ kv, (0 < kv.2)%nat) matrix
    ∧ (∀ label p,
         cell matrix (KStr label, p)
         = count_if (λ pr, is_label label pr && String.eqb (pred_label pr) p)
             four_predictions)
    ∧ (∀ label, label ∈ LABELS →
         metric_get (metrics_by_counts four_predictions) (label +:+ "_TP")
         = Qnat (cell matrix (KStr label, label))).
Proof.
  eexists. split; [vm_compute; reflexivity |].
  apply (confusion_matrix_counts four_predictions);
    vm_compute; reflexivity.
Defined.


(** * Further properties of the evaluator: the report *)

Lemma str_lt_trans a b c : str_lt a b → str_lt b c → str_lt a c.
Proof.
  unfold str_lt. intros H1 H2.
  apply OrderedTypeEx.String_as_OT.cmp_lt.
  apply OrderedTypeEx.String_as_OT.cmp_lt in H1, H2.
  by eapply OrderedTypeEx.String_as_OT.lt_trans.
Qed.

Lemma str_lt_irrefl a : ¬ str_lt a a.
Proof.
  unfold str_lt. intros Hlt.
  pose proof (proj2 (OrderedTypeEx.String_as_OT.cmp_eq a a) eq_refl) as Heq.
  unfold OrderedTypeEx.String_as_OT.cmp in Heq. congruence.
Qed.

Lemma insert_sorted_elem s l x : x ∈ insert_sorted s l ↔ x = s ∨ x ∈ l.
Proof.
  induction l as [| a l IH]; cbn [insert_sorted].
  { rewrite list_elem_of_singleton, elem_of_nil. tauto. }
  destruct (String.compare s a) eqn:E.
  - apply String.compare_eq_iff in E as ->. rewrite elem_of_cons. tauto.
  - rewrite elem_of_cons. tauto.
  - rewrite !elem_of_cons, IH. tauto.
Qed.

Lemma sorted_set_elem xs x : x ∈ sorted_set xs ↔ x ∈ xs.
Proof.
  induction xs as [| a xs IH]; [done |]. cbn [sorted_set foldr].
  fold (sorted_set xs). by rewrite insert_sorted_elem, IH, elem_of_cons.
Qed.

Lemma insert_sorted_sorted s l :
  StronglySorted str_lt l → StronglySorted str_lt (insert_sorted s l).
Proof.
  induction l as [| a l IH]; cbn [insert_sorted].
  { intros _. repeat constructor. }
  intros [Ha Hl]%StronglySorted_cons.
  destruct (String.compare s a) eqn:E.
  - by apply StronglySorted_cons.
  - apply StronglySorted_cons. split; [| by apply StronglySorted_cons].
    constructor; [done |]. eapply Forall_impl; [exact Ha |].
    intros y Hy. by eapply str_lt_trans.
  - apply StronglySorted_cons. split; [| by apply IH].
    apply Forall_forall. intros y [-> | Hy]%insert_sorted_elem.
    + unfold str_lt. rewrite String.compare_antisym, E. done.
    + by apply (proj1 (Forall_forall _ _) Ha).
Qed.

Lemma sorted_set_sorted xs : StronglySorted str_lt (sorted_set xs).
Proof.
  induction xs as [| a xs IH]; [constructor |].
  by apply insert_sorted_sorted.
Qed.

Lemma StronglySorted_NoDup {A} (R : relation A) l :
  (∀ a, ¬ R a a) → StronglySorted R l → NoDup l.
Proof.
  intros Hirr. induction l as [| a l IH]; [constructor |].
  intros [Ha Hl]%StronglySorted_cons. constructor; [| by apply IH].
  intros Hin. apply (Hirr a). by apply (proj1 (Forall_forall _ _) Ha).
Qed.

Section Report.
Context {V : Type} (results : gmap (string * string) V).

(** The rows of one scenario. *)
Lemma rows_of_scenario scenario :
  (mode ← ["BASELINE"; "FUSION"];
   match results !! (scenario, mode) with
   | Some metrics => [((scenario, mode), metrics)]
   | None => []
   end)
  = match results !! (scenario, "BASELINE") with
    | Some metrics => [((scenario, "BASELINE"), metrics)]
    | None => []
    end
    ++ match results !! (scenario, "FUSION") with
       | Some metrics => [((scenario, "FUSION"), metrics)]
       | None => []
       end.
Proof. cbn. by rewrite app_nil_r. Qed.

Lemma rows_of_scenario_elem scenario key m :
  (key, m) ∈ (mode ← ["BASELINE"; "FUSION"];
              match results !! (scenario, mode) with
              | Some metrics => [((scenario, mode), metrics)]
              | None => []
              end)
  ↔ key.1 = scenario ∧ key.2 ∈ MODES ∧ results !! key = Some m.
Proof.
  rewrite rows_of_scenario, elem_of_app. unfold MODES.
  destruct key as [s mode]. cbn [fst snd]. split.
  - intros [Hin | Hin];
      [destruct (results !! (scenario, "BASELINE")) eqn:E
      | destruct (results !! (scenario, "FUSION")) eqn:E];
      try (by apply elem_of_nil in Hin);
      apply list_elem_of_singleton in Hin; injection Hin as -> -> ->;
      (split; [done |]); (split; [repeat constructor | done]).
  - intros (-> & Hmode & Hm).
    apply elem_of_cons in Hmode as [-> | Hmode].
    { left. rewrite Hm. by apply list_elem_of_singleton. }
    apply list_elem_of_singleton in Hmode as ->.
    right. rewrite Hm. by apply list_elem_of_singleton.
Qed.

Lemma rows_of_scenario_sorted scenario :
  StronglySorted row_before
    (mode ← ["BASELINE"; "FUSION"];
     match results !! (scenario, mode) with
     | Some metrics => [((scenario, mode), metrics)]
     | None => []
     end).
Proof.
  rewrite rows_of_scenario.
  destruct (results !! (scenario, "BASELINE")),
    (results !! (scenario, "FUSION")); cbn;
    repeat first [apply SSorted_nil | apply SSorted_cons
                 | apply Forall_nil_2 | apply Forall_cons_2].
  by right.
Qed.

Lemma rows_sorted scenarios :
  StronglySorted str_lt scenarios →
  StronglySorted row_before
    (scenario ← scenarios;
     mode ← ["BASELINE"; "FUSION"];
     match results !! (scenario, mode) with
     | Some metrics => [((scenario, mode), metrics)]
     | None => []
     end).
Proof.
  induction scenarios as [| s rest IH]; [constructor |].
  intros [Hs Hrest]%StronglySorted_cons.
  change (StronglySorted row_before
            ((mode ← ["BASELINE"; "FUSION"];
              match results !! (s, mode) with
              | Some metrics => [((s, mode), metrics)]
              | None => []
              end)
             ++ (scenario ← rest;
                 mode ← ["BASELINE"; "FUSION"];
                 match results !! (scenario, mode) with
                 | Some metrics => [((scenario, mode), metrics)]
                 | None => []
                 end))).
  apply StronglySorted_app_2; [| apply rows_of_scenario_sorted | by apply IH].
  intros [k1 m1] [k2 m2] [H1 _]%rows_of_scenario_elem
    (s' & [H2 _]%rows_of_scenario_elem & Hs')%list_elem_of_bind.
  left. cbn [fst]. rewrite H1, H2.
  by apply (proj1 (Forall_forall _ _) Hs).
Qed.

End Report.

(** X25. The report has one row, and one block of detailed statistics,
    for each result whose mode is BASELINE or FUSION and none for any
    other result; the rows hold the metrics of their keys, scenarios come
    in increasing order, and within a scenario BASELINE comes before
    FUSION. *)
Theorem report_rows_spec :
  ∀ (V : Type) (results : gmap (string * string) V),
    (∀ key metrics,
       (key, metrics) ∈ report_rows results
       ↔ results !! key = Some metrics ∧ key.2 ∈ MODES)
    ∧ NoDup (report_rows results).*1
    ∧ StronglySorted row_before (report_rows results).
Proof.
  intros V results.
  assert (Hsorted : StronglySorted row_before (report_rows results)).
  { apply rows_sorted, sorted_set_sorted. }
  split; [| split; [| exact Hsorted]].
  - intros key m. unfold report_rows. cbv zeta.
    rewrite list_elem_of_bind. split.
    + intros (s & (_ & Hmode & Hm)%rows_of_scenario_elem & _). done.
    + intros [Hm Hmode]. exists key.1. split.
      * by apply rows_of_scenario_elem.
      * apply sorted_set_elem, list_elem_of_fmap. exists key.
        split; [done |]. apply list_elem_of_fmap. exists (key, m).
        split; [done |]. by apply elem_of_map_to_list.
  - apply (StronglySorted_NoDup (λ k1 k2 : string * string,
             str_lt k1.1 k2.1
             ∨ (k1.1 = k2.1 ∧ k1.2 = "BASELINE" ∧ k2.2 = "FUSION"))).
    + intros k [Hlt | (_ & Hb & Hf)]; [by apply str_lt_irrefl in Hlt |].
      congruence.
    + eapply (StronglySorted_fmap fst row_before); [| exact Hsorted].
      by intros x y.
Qed.
